(** * tickets: the movie-ticket library of learninggo, embedded in Rocq

    A shallow embedding of [tickets/tickets.go]: the package-level variables
    become one [State] record that every function threads explicitly, and
    each Go function becomes a state transformer with four possible
    outcomes (normal return, panic, [os.Exit], blocking forever).

    Go's [int] is taken as the 64-bit two's-complement integer of the
    amd64 port and [int32] as the 32-bit one; both are carried as [Z] with
    the wrap-around written at every arithmetic site of the source. *)

From Stdlib Require Import ZArith Lia Bool Ascii String DecimalString DecimalPos DecimalZ.
From stdpp Require Import base list strings.

Open Scope Z_scope.

(** ** Machine integers *)

Definition wrap (bits z : Z) : Z :=
  (z + 2 ^ (bits - 1)) mod 2 ^ bits - 2 ^ (bits - 1).

Definition wrapInt (z : Z) : Z := wrap 64 z.
Definition wrapInt32 (z : Z) : Z := wrap 32 z.

Definition maxInt : Z := 2 ^ 63 - 1.
Definition minInt : Z := - 2 ^ 63.
Definition maxInt32 : Z := 2 ^ 31 - 1.
Definition minInt32 : Z := - 2 ^ 31.

Definition isInt (z : Z) : Prop := minInt <= z <= maxInt.
Definition isInt32 (z : Z) : Prop := minInt32 <= z <= maxInt32.

(** ** Strings and formatting *)

(** [strconv.Itoa], and the [%d] verb of [fmt]. *)
Definition Itoa (z : Z) : string := NilZero.string_of_int (Z.to_int z).

Definition cat (ss : list string) : string :=
  fold_right String.append EmptyString ss.

(** ** Data model *)

(** One line of the [ItemsSold] slice in a [Receipt]. *)
Record RItem := mkRItem {
  Desc : string;
  Pennies : Z
}.

(** The itemized receipt for goods actually sold.  [Time] is an
    [interface{}] that the library only copies: [None] is the nil
    interface, [Some tok] any other value. *)
Record Receipt := mkReceipt {
  Time : option string;
  RWindow : Z;
  ItemsSold : list RItem;
  Total : Z
}.

(** A ticket record. *)
Record Ticket := mkTicket {
  TicketNum : Z;
  Movie : Z;
  Showing : Z;
  Price : Z;
  SoldOut : bool;
  Goodies : bool;
  Exchanged : bool;
  XchOld : string;
  XchNew : string;
  Window : Z
}.

(** The zero value of [Ticket] ([*new(Ticket)], [var t Ticket], and what
    [make([]Ticket, n)] fills the slice with). *)
Definition zeroTicket : Ticket :=
  mkTicket 0 0 0 0 false false false EmptyString EmptyString 0.

Definition zeroReceipt : Receipt := mkReceipt None 0 [] 0.

(** Go errors.  The three exported sentinels are compared by identity in
    callers; every other error is a fresh value carrying its message. *)
Inductive error :=
| ErrXchNotEntitled
| ErrXchAlreadyDone
| ErrXchOutOfGoods
| NewError (msg : string).

(** The [Error()] method. *)
Definition Error (e : error) : string :=
  match e with
  | ErrXchNotEntitled =>
      "Exchange denied:  customer is not entitled to goodies by this ticket"
  | ErrXchAlreadyDone =>
      "Exchange denied:  a goodie exchange was already made with this ticket"
  | ErrXchOutOfGoods =>
      "Exchange denied:  the theatre has run out of exchange goods"
  | NewError msg => msg
  end.

(** A [log.Logger] value, as far as the library can tell them apart. *)
Record Logger := mkLogger {
  logPrefix : string;
  logFlags : Z
}.

Definition zeroLogger : Logger := mkLogger EmptyString 0.

(** What [L.Printf] was asked to print: the call site and its arguments
    (the rendered text depends on the wall clock and on reflection-based
    formatting, which are not modelled). *)
Inductive LogEntry :=
| LogSalesOpen
| LogRollExceeded (t last : Z)
| LogStackDump
| LogSell (window : Z) (tickets : list Ticket) (receipt : Receipt).

(** The [ticketRoll] channel together with its producer goroutine, as a
    sequential receiver sees it: a nil channel, a closed and drained one,
    or an open one whose next delivered value is [next]. *)
Inductive Roll :=
| NilChan
| ClosedChan
| OpenChan (next : Z).

(** The package-level variables. *)
Record State := mkState {
  L : Logger;
  totExchanges : Z;
  maxExchanges : Z;
  maxMovies : Z;
  maxShowings : Z;
  maxSeats : Z;
  maxWindows : Z;
  ticketRoll : Roll;
  ticketRqstDB : list Ticket;
  seatsSold : list (list Z);
  salesOpen : bool;
  initGate : bool;          (* sync.Once: has Do already run its function? *)
  logged : list LogEntry    (* what was written through [L] *)
}.

(** The state of a freshly loaded package: every variable at its zero
    value. *)
Definition zeroState : State :=
  mkState zeroLogger 0 0 0 0 0 0 NilChan [] [] false false [].

(** Field updates. *)
Definition set_L (v : Logger) (st : State) : State :=
  mkState v (totExchanges st) (maxExchanges st) (maxMovies st)
    (maxShowings st) (maxSeats st) (maxWindows st) (ticketRoll st)
    (ticketRqstDB st) (seatsSold st) (salesOpen st) (initGate st) (logged st).
Definition set_totExchanges (v : Z) (st : State) : State :=
  mkState (L st) v (maxExchanges st) (maxMovies st)
    (maxShowings st) (maxSeats st) (maxWindows st) (ticketRoll st)
    (ticketRqstDB st) (seatsSold st) (salesOpen st) (initGate st) (logged st).
Definition set_maxExchanges (v : Z) (st : State) : State :=
  mkState (L st) (totExchanges st) v (maxMovies st)
    (maxShowings st) (maxSeats st) (maxWindows st) (ticketRoll st)
    (ticketRqstDB st) (seatsSold st) (salesOpen st) (initGate st) (logged st).
Definition set_maxMovies (v : Z) (st : State) : State :=
  mkState (L st) (totExchanges st) (maxExchanges st) v
    (maxShowings st) (maxSeats st) (maxWindows st) (ticketRoll st)
    (ticketRqstDB st) (seatsSold st) (salesOpen st) (initGate st) (logged st).
Definition set_maxShowings (v : Z) (st : State) : State :=
  mkState (L st) (totExchanges st) (maxExchanges st) (maxMovies st)
    v (maxSeats st) (maxWindows st) (ticketRoll st)
    (ticketRqstDB st) (seatsSold st) (salesOpen st) (initGate st) (logged st).
Definition set_maxSeats (v : Z) (st : State) : State :=
  mkState (L st) (totExchanges st) (maxExchanges st) (maxMovies st)
    (maxShowings st) v (maxWindows st) (ticketRoll st)
    (ticketRqstDB st) (seatsSold st) (salesOpen st) (initGate st) (logged st).
Definition set_maxWindows (v : Z) (st : State) : State :=
  mkState (L st) (totExchanges st) (maxExchanges st) (maxMovies st)
    (maxShowings st) (maxSeats st) v (ticketRoll st)
    (ticketRqstDB st) (seatsSold st) (salesOpen st) (initGate st) (logged st).
Definition set_ticketRoll (v : Roll) (st : State) : State :=
  mkState (L st) (totExchanges st) (maxExchanges st) (maxMovies st)
    (maxShowings st) (maxSeats st) (maxWindows st) v
    (ticketRqstDB st) (seatsSold st) (salesOpen st) (initGate st) (logged st).
Definition set_ticketRqstDB (v : list Ticket) (st : State) : State :=
  mkState (L st) (totExchanges st) (maxExchanges st) (maxMovies st)
    (maxShowings st) (maxSeats st) (maxWindows st) (ticketRoll st)
    v (seatsSold st) (salesOpen st) (initGate st) (logged st).
Definition set_seatsSold (v : list (list Z)) (st : State) : State :=
  mkState (L st) (totExchanges st) (maxExchanges st) (maxMovies st)
    (maxShowings st) (maxSeats st) (maxWindows st) (ticketRoll st)
    (ticketRqstDB st) v (salesOpen st) (initGate st) (logged st).
Definition set_salesOpen (v : bool) (st : State) : State :=
  mkState (L st) (totExchanges st) (maxExchanges st) (maxMovies st)
    (maxShowings st) (maxSeats st) (maxWindows st) (ticketRoll st)
    (ticketRqstDB st) (seatsSold st) v (initGate st) (logged st).
Definition set_initGate (v : bool) (st : State) : State :=
  mkState (L st) (totExchanges st) (maxExchanges st) (maxMovies st)
    (maxShowings st) (maxSeats st) (maxWindows st) (ticketRoll st)
    (ticketRqstDB st) (seatsSold st) (salesOpen st) v (logged st).
Definition Printf (e : LogEntry) (st : State) : State :=
  mkState (L st) (totExchanges st) (maxExchanges st) (maxMovies st)
    (maxShowings st) (maxSeats st) (maxWindows st) (ticketRoll st)
    (ticketRqstDB st) (seatsSold st) (salesOpen st) (initGate st)
    (logged st ++ [e]).

(** ** Outcomes of a Go call *)

Inductive Outcome (A : Type) :=
| Returns (a : A) (st : State)   (* normal return *)
| Panics (msg : string)          (* run-time panic or [panic(...)] *)
| Exits (code : Z) (st : State)  (* [os.Exit(code)] *)
| Blocks.                        (* the goroutine never resumes *)
Arguments Returns {A} a st.
Arguments Panics {A} msg.
Arguments Exits {A} code st.
Arguments Blocks {A}.

Definition Go (A : Type) : Type := State -> Outcome A.

Definition ret {A} (a : A) : Go A := fun st => Returns a st.

Definition bind {A B} (c : Go A) (k : A -> Go B) : Go B := fun st =>
  match c st with
  | Returns a st' => k a st'
  | Panics msg => Panics msg
  | Exits code st' => Exits code st'
  | Blocks => Blocks
  end.

Notation "x <- c ;; k" := (bind c (fun x => k))
  (at level 100, c at next level, right associativity).

(** Slice indexing with an [int]: a negative or too large index is a
    run-time panic in Go, [None] here. *)
Definition index {A} (l : list A) (i : Z) : option A :=
  if i <? 0 then None else l !! Z.to_nat i.

(** [l[i] = x] for an index already known to be in range. *)
Definition store {A} (l : list A) (i : Z) (x : A) : list A :=
  <[Z.to_nat i := x]> l.

(** [len(l)], an [int]. *)
Definition len {A} (l : list A) : Z := Z.of_nat (length l).

(** The sizes in bytes, on a 64-bit machine, of the element types the
    program makes slices of: [int32], [int], a slice header ([[]int32],
    [[]int]) and [Ticket] (four [int]s, three [bool]s padded to a word,
    two string headers and an [int]). *)
Definition sizeofInt32 : Z := 4.
Definition sizeofInt : Z := 8.
Definition sizeofSlice : Z := 24.
Definition sizeofTicket : Z := 80.

(** The most bytes a single allocation may ask for: [maxAlloc] of the
    runtime, 2^48 with the 48 address bits of a 64-bit Linux. *)
Definition maxAlloc : Z := 2 ^ 48.

(** [make([]T, n)] for elements of [size] bytes: a slice of [n] zero
    values.  As [makeslice] of the runtime does, it panics
    ("makeslice: len out of range", [None] here) when [n] is negative or
    [n] elements need more than [maxAlloc] bytes.  A request that passes
    this check is taken to be served: a machine that cannot find the
    memory ends the program with a fatal error of the runtime, which is
    neither a panic nor a return and is left out of this model. *)
Definition make {A} (size : Z) (zero : A) (n : Z) : option (list A) :=
  if (n <? 0) || (maxAlloc <? size * n) then None
  else Some (replicate (Z.to_nat n) zero).

(** ** The ticket roll *)

(** [ticketProducer]: the loop [for i := 1; ; i++ { tRoll <- i }].  One
    iteration sends [i] and moves on to [i+1] (an [int] increment); the
    loop has no exit, so the deferred [close] never runs. *)
Definition ticketProducer (i : Z) : Z * Roll := (i, OpenChan (wrapInt (i + 1))).

(** [row.TicketNum = t]: marking a row as allocated. *)
Definition stamp (t : Z) (row : Ticket) : Ticket :=
  mkTicket t (Movie row) (Showing row) (Price row) (SoldOut row)
    (Goodies row) (Exchanged row) (XchOld row) (XchNew row) (Window row).

(** [nextTicket] pulls the next ticket number off the roll and marks that
    ticket allocated in the database. *)
Definition nextTicket : Go (Ticket * option error) := fun st =>
  match ticketRoll st with
  | NilChan => Blocks
  | ClosedChan =>
      Returns (zeroTicket,
               Some (NewError "Cannot get another ticket:  ticketRoll has been closed and drained."))
              st
  | OpenChan i =>
      let '(t, roll) := ticketProducer i in
      let st := set_ticketRoll roll st in
      if len (ticketRqstDB st) <=? t then
        Exits 1 (Printf LogStackDump
                   (Printf (LogRollExceeded t (len (ticketRqstDB st) - 1)) st))
      else
        match index (ticketRqstDB st) t with
        | None => Panics "runtime error: index out of range"
        | Some row =>
            let row := stamp t row in
            Returns (row, None)
                    (set_ticketRqstDB (store (ticketRqstDB st) t row) st)
        end
  end.

(** ** The record store *)

(** [readTicket] returns a copy of the specified ticket. *)
Definition readTicket (tickNum : Z) : Go (Ticket * option error) := fun st =>
  if (tickNum <? 1) || (len (ticketRqstDB st) <=? tickNum) then
    Returns (zeroTicket,
             Some (NewError (cat ["readTicket failed:  tickNum "; Itoa tickNum;
                                  " outside the DB"])))
            st
  else if tickNum =? 0 then
    Returns (zeroTicket,
             Some (NewError (cat ["readTicket failed:  Ticket "; Itoa tickNum;
                                  " is not allocated."])))
            st
  else
    match index (ticketRqstDB st) tickNum with
    | None => Panics "runtime error: index out of range"
    | Some row =>
        if tickNum =? TicketNum row then
          Returns (mkTicket (TicketNum row) (Movie row) (Showing row)
                     (Price row) (SoldOut row) (Goodies row) (Exchanged row)
                     (XchOld row) (XchNew row) (Window row), None)
                  st
        else
          Panics (cat ["readTicket failed:  tickNum "; Itoa tickNum;
                       " requested, but Ticket marked with TicketNum ";
                       Itoa (TicketNum row);
                       "  --  either the database is corrupted or there is an internal logic error  --  NOTIFY SUPPORT!  System shutting down."])
    end.

(** [updateTicketExchange] copies the product-exchange fields of [t] into
    the database row with the same ticket number. *)
Definition updateTicketExchange (t : Ticket) : Go (option error) := fun st =>
  if (TicketNum t <? 1) || (len (ticketRqstDB st) <=? TicketNum t) then
    Returns (Some (NewError (cat ["updateTicketExchange failed:  TicketNum ";
                                  Itoa (TicketNum t); " outside the DB"])))
            st
  else
    match index (ticketRqstDB st) (TicketNum t) with
    | None => Panics "runtime error: index out of range"
    | Some row =>
        let row := mkTicket (TicketNum row) (Movie row) (Showing row)
                     (Price row) (SoldOut row) (Goodies row) (Exchanged t)
                     (XchOld t) (XchNew t) (Window row) in
        Returns None
                (set_ticketRqstDB (store (ticketRqstDB st) (TicketNum t) row) st)
    end.

(** [updateTicketSale] copies the sales-related fields of [t] into the
    database row with the same ticket number. *)
Definition updateTicketSale (t : Ticket) : Go (option error) := fun st =>
  if (TicketNum t <? 1) || (len (ticketRqstDB st) <=? TicketNum t) then
    Returns (Some (NewError (cat ["updateTicketSale failed:  TicketNum ";
                                  Itoa (TicketNum t); " outside the DB"])))
            st
  else
    match index (ticketRqstDB st) (TicketNum t) with
    | None => Panics "runtime error: index out of range"
    | Some row =>
        let row := mkTicket (TicketNum row) (Movie t) (Showing t)
                     (Price t) (SoldOut t) (Goodies t) (Exchanged row)
                     (XchOld row) (XchNew row) (Window t) in
        Returns None
                (set_ticketRqstDB (store (ticketRqstDB st) (TicketNum t) row) st)
    end.

(** ** The seat ledger *)

(** [checkAvailabilityAndPrice] consumes one seat of showing [s] of movie
    [m] and reports the price and whether the showing was already sold
    out.  The counter is an [int32] bumped by [atomic.AddInt32]. *)
Definition checkAvailabilityAndPrice (m s : Z) : Go (Z * bool) := fun st =>
  let priceInPennies := 1000 in
  match index (seatsSold st) m with
  | None => Panics "runtime error: index out of range"
  | Some row =>
      match index row s with
      | None => Panics "runtime error: index out of range"
      | Some sold =>
          let consumedSeatsIncludingThisOne := wrapInt32 (sold + 1) in
          Returns (priceInPennies,
                   maxSeats st <? consumedSeatsIncludingThisOne)
                  (set_seatsSold
                     (store (seatsSold st) m
                        (store row s consumedSeatsIncludingThisOne)) st)
      end
  end.

(** ** Exchange *)

Definition set_exchange (old new : string) (t : Ticket) : Ticket :=
  mkTicket (TicketNum t) (Movie t) (Showing t) (Price t) (SoldOut t)
    (Goodies t) true old new (Window t).

(** [Exchange] records the exchange of [oldGoodie] for [newGoodie] under
    ticket [tickNum], or says why it is denied. *)
Definition Exchange (tickNum : Z) (oldGoodie newGoodie : string)
  : Go (option error) := fun st =>
  if negb (salesOpen st) then
    Returns (Some (NewError "Exchange failed:  ticketing system is down.")) st
  else
    (r <- readTicket tickNum ;;
     let '(t, err) := r in
     match err with
     | Some e => ret (Some (NewError (cat ["Exchange failed:  "; Error e])))
     | None =>
         if SoldOut t then ret (Some ErrXchNotEntitled)
         else if negb (Goodies t) then ret (Some ErrXchNotEntitled)
         else if Exchanged t then ret (Some ErrXchAlreadyDone)
         else fun st =>
           if maxExchanges st <=? totExchanges st then
             Returns (Some ErrXchOutOfGoods) st
           else
             let st := set_totExchanges (wrapInt (totExchanges st + 1)) st in
             let t := set_exchange oldGoodie newGoodie t in
             (err <- updateTicketExchange t ;;
              match err with
              | Some e =>
                  ret (Some (NewError (cat ["Exchange failed:  "; Error e])))
              | None => ret None
              end) st
     end) st.

(** ** Sell *)

(** A ticket request: the [[2]int] holding movie ([TRMovie] = 0) and
    showing ([TRShowing] = 1). *)
Definition Request : Type := Z * Z.
Definition TRMovie (r : Request) : Z := fst r.
Definition TRShowing (r : Request) : Z := snd r.

(** The first loop of [Sell]: edit every request before any ticket is
    consumed.  [i] is the index of the head of [reqs]. *)
Fixpoint sellEdit (st : State) (i : Z) (reqs : list Request) : option error :=
  match reqs with
  | [] => None
  | trqst :: rest =>
      let movie := TRMovie trqst in
      if (movie <? 0) || (maxMovies st <=? movie) then
        Some (NewError (cat ["Sell failed:  ticket request "; Itoa (i + 1);
                             ":  movie# "; Itoa movie; " not between 0 and ";
                             Itoa (maxMovies st)]))
      else
        let showing := TRShowing trqst in
        if (showing <? 0) || (maxShowings st <=? showing) then
          Some (NewError (cat ["Sell failed:  ticket request "; Itoa (i + 1);
                               ":  showing "; Itoa showing;
                               " not between 0 and "; Itoa (maxShowings st)]))
        else sellEdit st (i + 1) rest
  end.

Definition itemFor (t : Ticket) : RItem :=
  mkRItem (cat ["Movie "; Itoa (Movie t); ", Showing "; Itoa (Showing t)])
          (Price t).

Definition appendItem (item : RItem) (r : Receipt) : Receipt :=
  mkReceipt (Time r) (RWindow r) (ItemsSold r ++ [item]) (Total r).

Definition set_Total (v : Z) (r : Receipt) : Receipt :=
  mkReceipt (Time r) (RWindow r) (ItemsSold r) v.

(** What the second loop of [Sell] carries from one request to the next,
    and the error that cut it short, if any. *)
Record SellLoop := mkSellLoop {
  sl_tickets : list Ticket;
  sl_receipt : Receipt;
  sl_totalprice : Z;
  sl_err : option error
}.

(** The body of the second loop of [Sell], for request number [i]: draw
    a ticket, fill it in, consume a seat, extend the receipt, store the
    ticket at [tickets[i]] and commit it.  [sl_err] is set when the body
    returns from [Sell] early. *)
Definition sellStep (window : Z) (i : Z) (trqst : Request)
    (tickets : list Ticket) (receipt : Receipt) (totalprice : Z)
  : Go SellLoop :=
  r <- nextTicket ;;
  let '(t, err) := r in
  match err with
  | Some e =>
      ret (mkSellLoop tickets receipt totalprice
             (Some (NewError (cat ["Sell failed:  ticket request ";
                                   Itoa (i + 1); ":  "; Error e]))))
  | None =>
      let movie := TRMovie trqst in
      let showing := TRShowing trqst in
      ps <- checkAvailabilityAndPrice movie showing ;;
      let '(price, soldOut) := ps in
      let goodies :=
        if soldOut then Goodies t
        else if window =? 1 then true else Goodies t in
      let t := mkTicket (TicketNum t) movie showing price soldOut goodies
                 (Exchanged t) (XchOld t) (XchNew t) window in
      let totalprice :=
        if soldOut then totalprice else wrapInt (totalprice + Price t) in
      let receipt :=
        if soldOut then receipt else appendItem (itemFor t) receipt in
      match index tickets i with
      | None => fun _ => Panics "runtime error: index out of range"
      | Some _ =>
          let tickets := store tickets i t in
          err <- updateTicketSale t ;;
          match err with
          | Some e =>
              ret (mkSellLoop tickets receipt totalprice
                     (Some (NewError (cat ["Sell failed:  ticket request ";
                                           Itoa (i + 1); ":  "; Error e]))))
          | None => ret (mkSellLoop tickets receipt totalprice None)
          end
      end
  end.

(** The second loop of [Sell]: one ticket per request, in request order,
    [i] being the index of the head of [reqs]. *)
Fixpoint sellIssue (window : Z) (i : Z) (reqs : list Request)
    (tickets : list Ticket) (receipt : Receipt) (totalprice : Z)
  : Go SellLoop :=
  match reqs with
  | [] => ret (mkSellLoop tickets receipt totalprice None)
  | trqst :: rest =>
      r <- sellStep window i trqst tickets receipt totalprice ;;
      match sl_err r with
      | Some _ => ret r
      | None =>
          sellIssue window (i + 1) rest
            (sl_tickets r) (sl_receipt r) (sl_totalprice r)
      end
  end.

(** [Sell]: a customer at [window] asks for one ticket per request.
    [paymentInfo] is reserved and ignored; [localTime] is copied into the
    receipt.  The slice [tickets] is made as long as [ticketRequests],
    which is in memory already; its allocation is taken to succeed. *)
Definition Sell (window : Z) (ticketRequests : list Request)
    (paymentInfo : list (string * string)) (localTime : option string)
  : Go (list Ticket * Receipt * option error) := fun st =>
  if negb (salesOpen st) then
    Returns ([], zeroReceipt,
             Some (NewError "Sell failed:  ticketing system is down.")) st
  else
    let tickets := replicate (length ticketRequests) zeroTicket in
    let receipt := mkReceipt localTime window [] 0 in
    if (window <? 1) || (maxWindows st <? window) then
      Returns (tickets, receipt,
               Some (NewError (cat ["Sell failed:  window "; Itoa window;
                                    " out of range.  Must be between 1 and ";
                                    Itoa (maxWindows st); ", inclusive."])))
              st
    else
      match sellEdit st 0 ticketRequests with
      | Some e => Returns (tickets, receipt, Some e) st
      | None =>
          (r <- sellIssue window 0 ticketRequests tickets receipt 0 ;;
           match sl_err r with
           | Some e => ret (sl_tickets r, sl_receipt r, Some e)
           | None =>
               let receipt := set_Total (sl_totalprice r) (sl_receipt r) in
               fun st =>
                 Returns (sl_tickets r, receipt, None)
                         (Printf (LogSell window (sl_tickets r) receipt) st)
           end) st
      end.

(** ** Initialization *)

(** [initOnce] does the real work of [Init].  [parmL] is a [*log.Logger]:
    [None] is the nil pointer. *)
Definition initOnce (parmL : option Logger)
    (parmMaxExchanges parmMaxMovies parmMaxShowings parmMaxSeats
       parmMaxWindows : Z) : Go (option error) := fun st =>
  match parmL with
  | None => Returns (Some (NewError "Missing Logger")) st
  | Some lg =>
      let st := set_L lg st in
      let st := set_maxExchanges parmMaxExchanges st in
      if maxExchanges st <? 0 then
        Returns (Some (NewError (cat ["MaxExchanges "; Itoa (maxExchanges st);
                                      " must not be negative"]))) st
      else
      let st := set_maxMovies parmMaxMovies st in
      if maxMovies st <? 1 then
        Returns (Some (NewError (cat ["MaxMovies "; Itoa (maxMovies st);
                                      " must be greater than zero"]))) st
      else
      let st := set_maxShowings parmMaxShowings st in
      if maxShowings st <? 1 then
        Returns (Some (NewError (cat ["MaxShowings "; Itoa (maxMovies st);
                                      " must be greater than zero"]))) st
      else
      let st := set_maxSeats parmMaxSeats st in
      if maxSeats st <? 1 then
        Returns (Some (NewError (cat ["MaxSeats "; Itoa (maxMovies st);
                                      " must be greater than zero"]))) st
      else
      let st := set_maxWindows parmMaxWindows st in
      if maxWindows st <? 1 then
        Returns (Some (NewError (cat ["MaxWindows "; Itoa (maxMovies st);
                                      " must be greater than zero"]))) st
      else
      match make sizeofSlice ([] : list Z) (maxMovies st),
            make sizeofInt32 0 (maxShowings st) with
      | Some rows, Some row =>
          let st := set_seatsSold ((fun _ => row) <$> rows) st in
          match make sizeofTicket zeroTicket
                  (wrapInt (wrapInt (wrapInt (maxMovies st * maxShowings st)
                                     * maxSeats st) + 1)) with
          | Some db =>
              let st := set_ticketRqstDB db st in
              let st := set_ticketRoll (OpenChan 1) st in
              let st := set_salesOpen true st in
              Returns None (Printf LogSalesOpen st)
          | None => Panics "runtime error: makeslice: len out of range"
          end
      | _, _ => Panics "runtime error: makeslice: len out of range"
      end
  end.

(** [Init]: the public entry point, behind the [sync.Once] gate.  The
    closure handed to [initGate.Do] stores the result of [initOnce] in
    the local [initErr]; when the gate is already shut the closure does
    not run and [initErr] keeps its zero value. *)
Definition Init (parmL : option Logger)
    (parmMaxExchanges parmMaxMovies parmMaxShowings parmMaxSeats
       parmMaxWindows : Z) : Go (option error) := fun st =>
  let initErr : option error := None in
  if initGate st then Returns initErr st
  else
    match initOnce parmL parmMaxExchanges parmMaxMovies parmMaxShowings
            parmMaxSeats parmMaxWindows st with
    | Returns e st' => Returns e (set_initGate true st')
    | Panics msg => Panics msg
    | Exits code st' => Exits code st'
    | Blocks => Blocks
    end.

(** ** Sequential scenarios *)

(** [n] calls of [c], one after the other, with their results in call
    order. *)
Fixpoint repeatGo {A} (n : nat) (c : Go A) : Go (list A) :=
  match n with
  | O => ret []
  | S n' => a <- c ;; rest <- repeatGo n' c ;; ret (a :: rest)
  end.

(** * The sample server

    [tickets/sample_server/main.go] puts the library behind HTTP.  The two
    handlers that do without JSON are embedded: a handler becomes a
    function of the request, as far as the handler looks at it, and of the
    server, made of the library's variables and of what the server's own
    logger [L] was asked to print. *)

(** [strings.Split(s, sep)] for a separator of one byte. *)
Fixpoint Split (sep : Ascii.ascii) (s : string) : list string :=
  match s with
  | EmptyString => [EmptyString]
  | String c rest =>
      if Ascii.eqb c sep then EmptyString :: Split sep rest
      else match Split sep rest with
           | part :: parts => String c part :: parts
           | [] => [String c EmptyString]
           end
  end.

(** [strconv.Atoi]: an optional sign followed by one or more decimal
    digits, denoting a number an [int] can hold; [None] stands for the
    error it returns otherwise. *)
Definition Atoi (s : string) : option Z :=
  let parsed :=
    match s with
    | EmptyString => None
    | String c rest =>
        if Ascii.eqb c "+"%char
        then option_map Z.of_uint (NilZero.uint_of_string rest)
        else option_map Z.of_int (NilZero.int_of_string s)
    end in
  match parsed with
  | Some n => if (minInt <=? n) && (n <=? maxInt) then Some n else None
  | None => None
  end.

(** The calls of the server's [L.Printf], by call site and arguments. *)
Inductive ServerLogEntry :=
| SLogCalled (handler url : string)
| SLogTicketNumberInvalid (path : string)
| SLogExchangeFailed (path : string) (e : error)
| SLogStopBodyUnreadable (path : string)
| SLogStopCodeInvalid (path : string)
| SLogStopping (retCd : Z) (requestData : string).

Record Server := mkServer {
  engine : State;
  serverLog : list ServerLogEntry
}.

Definition serverPrintf (e : ServerLogEntry) (sv : Server) : Server :=
  mkServer (engine sv) (serverLog sv ++ [e]).

Definition set_engine (st : State) (sv : Server) : Server :=
  mkServer st (serverLog sv).

(** How a handler ends: by replying through [http.Error(w, msg, code)],
    by a panic, by [os.Exit], or not at all.  Of the message of an index
    panic only the part before the index and the length is kept. *)
Inductive Handled :=
| Replied (code : Z) (msg : string) (sv : Server)
| HandlerPanics (msg : string)
| ServerExits (code : Z) (sv : Server)
| HandlerBlocks.

Definition StatusBadRequest : Z := 400.
Definition StatusNoContent : Z := 204.

(** [handleExchange], for a request whose [URL.Path] is [path]. *)
Definition handleExchange (path : string) (sv : Server) : Handled :=
  let PPTickNum := 3 in
  let PPOldGoodie := 4 in
  let PPNewGoodie := 5 in
  let sv := serverPrintf (SLogCalled "handleExchange" path) sv in
  let pathParts := Split "/"%char path in
  match index pathParts PPTickNum with
  | None => HandlerPanics "runtime error: index out of range"
  | Some part =>
      match Atoi part with
      | None =>
          Replied StatusBadRequest "ticket number invalid"
                  (serverPrintf (SLogTicketNumberInvalid path) sv)
      | Some tickNum =>
          match index pathParts PPOldGoodie, index pathParts PPNewGoodie with
          | Some old, Some new =>
              match Exchange tickNum old new (engine sv) with
              | Returns (Some e) st =>
                  Replied StatusBadRequest (Error e)
                          (serverPrintf (SLogExchangeFailed path e)
                             (set_engine st sv))
              | Returns None st =>
                  Replied StatusNoContent "exchanged" (set_engine st sv)
              | Panics msg => HandlerPanics msg
              | Exits code st => ServerExits code (set_engine st sv)
              | Blocks => HandlerBlocks
              end
          | _, _ => HandlerPanics "runtime error: index out of range"
          end
      end
  end.

(** [stopTicketService], for a request whose [URL.Path] is [path] and
    whose body reads as [body] ([None] when reading it fails). *)
Definition stopTicketService (path : string) (body : option string)
    (sv : Server) : Handled :=
  let PPRetCd := 3 in
  let sv := serverPrintf (SLogCalled "stopTicketService" path) sv in
  let '(requestData, sv) :=
    match body with
    | None => ("<client shutdown message unreadable>",
               serverPrintf (SLogStopBodyUnreadable path) sv)
    | Some requestBytes => (requestBytes, sv)
    end in
  let pathParts := Split "/"%char path in
  let stop (retCd : Z) :=
    ServerExits retCd (serverPrintf (SLogStopping retCd requestData) sv) in
  if PPRetCd <? len pathParts then
    match index pathParts PPRetCd with
    | None => HandlerPanics "runtime error: index out of range"
    | Some part =>
        match Atoi part with
        | None =>
            Replied StatusBadRequest "server return code not an integer"
                    (serverPrintf (SLogStopCodeInvalid path) sv)
        | Some retCd => stop retCd
        end
    end
  else stop 0.

(** Does the byte [sep] occur in [s]? *)
Fixpoint occurs (sep : Ascii.ascii) (s : string) : bool :=
  match s with
  | EmptyString => false
  | String c rest => Ascii.eqb c sep || occurs sep rest
  end.

(** * The theatre model
    [theatre/theatre.go] is the client of the sample server: ticket
    windows and a cafeteria send it requests, and a tracker goroutine
    keeps the books of what they report.  The goroutines talk over
    channels; what is embedded here is what one of them computes between
    two receives. *)

(** ** The cafeteria's request *)



(** ** The tracker *)

(** What arrives on [chTracker], a [chan interface{}]: the three message
    types the tracker's type switch knows, and any other value.  The
    [at] time of a header is only ever printed. *)
Inductive Msg :=
| msgExchange (from : string) (tickNum : Z) (xchOld xchNew : string)
| msgTicketSale (from : string) (window : Z) (ticks : list Ticket)
| msgDone (from : string)
| msgOther.

(** The [L.Printf] calls of the message loop. *)
Inductive TrackerLogEntry :=
| TLogStarted
| TLogExchange (x : Msg)
| TLogTicketSale (x : Msg)
| TLogDoneCafeteria (x : Msg)
| TLogDoneWindow (x : Msg) (winctr : Z)
| TLogDoneUnknown (x : Msg).

(** The tracker's variables, the state of the channel it closes
    ([chTrackerClosed]) and its log. *)
Record Tracker := mkTracker {
  winctr : Z;
  chTrackerOpen : bool;
  cafeteriaClosed : bool;
  exchangeCtr : Z;
  ticketsSold : list (list Z);
  soldOuts : list (list Z);
  chTrackerClosed : bool;
  trackerLog : list TrackerLogEntry
}.

Definition set_winctr (x : Z) (tr : Tracker) : Tracker :=
  mkTracker x (chTrackerOpen tr) (cafeteriaClosed tr) (exchangeCtr tr)
            (ticketsSold tr) (soldOuts tr) (chTrackerClosed tr)
            (trackerLog tr).
Definition set_chTrackerOpen (x : bool) (tr : Tracker) : Tracker :=
  mkTracker (winctr tr) x (cafeteriaClosed tr) (exchangeCtr tr)
            (ticketsSold tr) (soldOuts tr) (chTrackerClosed tr)
            (trackerLog tr).
Definition set_cafeteriaClosed (x : bool) (tr : Tracker) : Tracker :=
  mkTracker (winctr tr) (chTrackerOpen tr) x (exchangeCtr tr)
            (ticketsSold tr) (soldOuts tr) (chTrackerClosed tr)
            (trackerLog tr).
Definition set_exchangeCtr (x : Z) (tr : Tracker) : Tracker :=
  mkTracker (winctr tr) (chTrackerOpen tr) (cafeteriaClosed tr) x
            (ticketsSold tr) (soldOuts tr) (chTrackerClosed tr)
            (trackerLog tr).
Definition set_ticketsSold (x : list (list Z)) (tr : Tracker) : Tracker :=
  mkTracker (winctr tr) (chTrackerOpen tr) (cafeteriaClosed tr)
            (exchangeCtr tr) x (soldOuts tr) (chTrackerClosed tr)
            (trackerLog tr).
Definition set_soldOuts (x : list (list Z)) (tr : Tracker) : Tracker :=
  mkTracker (winctr tr) (chTrackerOpen tr) (cafeteriaClosed tr)
            (exchangeCtr tr) (ticketsSold tr) x (chTrackerClosed tr)
            (trackerLog tr).
Definition set_chTrackerClosed (x : bool) (tr : Tracker) : Tracker :=
  mkTracker (winctr tr) (chTrackerOpen tr) (cafeteriaClosed tr)
            (exchangeCtr tr) (ticketsSold tr) (soldOuts tr) x
            (trackerLog tr).
Definition trackerPrintf (e : TrackerLogEntry) (tr : Tracker) : Tracker :=
  mkTracker (winctr tr) (chTrackerOpen tr) (cafeteriaClosed tr)
            (exchangeCtr tr) (ticketsSold tr) (soldOuts tr)
            (chTrackerClosed tr) (trackerLog tr ++ [e]).

(** How the tracker goes on: it carries on with new variables, panics
    (an index panic with its message cut before the index and the
    length), or ends the program ([L.Fatalf]). *)
Inductive Tracked :=
| Continues (tr : Tracker)
| TrackerPanics (msg : string)
| TrackerExits (code : Z).

(** One of the two tables: [make([][]int, movies+1, movies+1)], then a
    row [make([]int, showings+1, showings+1)] for each index.  [None]
    when a [make] panics on its length. *)
Definition makeTable (movies showings : Z) : option (list (list Z)) :=
  tbl ← make sizeofSlice [] (wrapInt (movies + 1));
  mapM (fun _ : list Z => make sizeofInt 0 (wrapInt (showings + 1))) tbl.

(** The tracker up to its message loop.  The three channels are given by
    whether they are nil. *)
Definition trackerStart (chTrackerNil chStopWinNil chDoneNil : bool)
    (runningtime winctr movies showings : Z) : Tracked :=
  if chTrackerNil || chStopWinNil || chDoneNil || (runningtime <? 1)
     || (winctr <? 1) || (movies <? 1) || (showings <? 1)
  then TrackerExits 1
  else
    match makeTable movies showings with
    | None => TrackerPanics "runtime error: makeslice: len out of range"
    | Some ticketsSold =>
        match makeTable movies showings with
        | None => TrackerPanics "runtime error: makeslice: len out of range"
        | Some soldOuts =>
            Continues (mkTracker winctr true false 0 ticketsSold soldOuts
                                 false [TLogStarted])
        end
    end.

(** [tbl[i][j]++]; [None] when an index is out of range. *)
Definition incr (tbl : list (list Z)) (i j : Z) : option (list (list Z)) :=
  row ← index tbl i;
  c ← index row j;
  Some (store tbl i (store row j (wrapInt (c + 1)))).

(** The four increments for one ticket: its movie and showing, the
    movie's subtotal, the showing's subtotal, the grand total. *)
Definition tally (tbl : list (list Z)) (movies showings : Z) (t : Ticket)
  : option (list (list Z)) :=
  tbl ← incr tbl (Movie t) (Showing t);
  tbl ← incr tbl (Movie t) showings;
  tbl ← incr tbl movies (Showing t);
  incr tbl movies showings.

(** [for _, t := range x.(msgTicketSale).ticks { ... }] *)
Fixpoint tallyTicks (movies showings : Z) (ticks : list Ticket)
    (tr : Tracker) : option Tracker :=
  match ticks with
  | [] => Some tr
  | t :: rest =>
      if SoldOut t
      then tbl ← tally (soldOuts tr) movies showings t;
           tallyTicks movies showings rest (set_soldOuts tbl tr)
      else tbl ← tally (ticketsSold tr) movies showings t;
           tallyTicks movies showings rest (set_ticketsSold tbl tr)
  end.

(** [strings.Contains]: some suffix of [s] starts with [substr]. *)
Fixpoint Contains (s substr : string) : bool :=
  String.prefix substr s
  || match s with
     | EmptyString => false
     | String _ rest => Contains rest substr
     end.

Section tracker.

(** [strings.ToLower] maps the runes of Unicode; it is left open here. *)
Variable ToLower : string -> string.

(** The tracker's turn for one message [x] received from [chTracker].
    (The other case of its [select], the shutdown timer, closes
    [chStopWin] and touches none of the tracker's variables.) *)
Definition trackerStep (movies showings : Z) (x : Msg) (tr : Tracker)
  : Tracked :=
  match x with
  | msgExchange _ _ _ _ =>
      let tr := trackerPrintf (TLogExchange x) tr in
      Continues (set_exchangeCtr (wrapInt (exchangeCtr tr + 1)) tr)
  | msgTicketSale _ _ ticks =>
      let tr := trackerPrintf (TLogTicketSale x) tr in
      match tallyTicks movies showings ticks tr with
      | Some tr => Continues tr
      | None => TrackerPanics "runtime error: index out of range"
      end
  | msgDone from =>
      let tr :=
        if Contains (ToLower from) "cafeteria" then
          trackerPrintf (TLogDoneCafeteria x) (set_cafeteriaClosed true tr)
        else if Contains (ToLower from) "window" then
          let tr := set_winctr (wrapInt (winctr tr - 1)) tr in
          trackerPrintf (TLogDoneWindow x (winctr tr)) tr
        else trackerPrintf (TLogDoneUnknown x) tr in
      if cafeteriaClosed tr && (winctr tr <=? 0) && chTrackerOpen tr then
        if chTrackerClosed tr
        then TrackerPanics "close of closed channel"
        else Continues (set_chTrackerOpen false (set_chTrackerClosed true tr))
      else Continues tr
  | msgOther => Continues tr
  end.

(** The messages [msgs] received in this order. *)
Fixpoint mainloop (movies showings : Z) (msgs : list Msg) (tr : Tracker)
  : Tracked :=
  match msgs with
  | [] => Continues tr
  | x :: rest =>
      match trackerStep movies showings x tr with
      | Continues tr => mainloop movies showings rest tr
      | stopped => stopped
      end
  end.

(** [tracker], from its call to the end of its message loop, where it
    turns to the summary report. *)
Definition tracker (chTrackerNil chStopWinNil chDoneNil : bool)
    (runningtime winctr movies showings : Z) (msgs : list Msg) : Tracked :=
  match trackerStart chTrackerNil chStopWinNil chDoneNil runningtime winctr
                     movies showings with
  | Continues tr => mainloop movies showings msgs tr
  | stopped => stopped
  end.

End tracker.

(** ** Vocabulary of the properties *)

(** The counter of showing [s] of movie [m], when there is one. *)
Definition seatCount (st : State) (m s : Z) : option Z :=
  match index (seatsSold st) m with
  | Some row => index row s
  | None => None
  end.

(** A theatre with a single one-seat showing, as [initOnce] leaves it. *)
Definition tinyTheatre : State :=
  mkState (mkLogger "tiny" 0) 0 0 1 1 1 1 (OpenChan 1)
    [zeroTicket; zeroTicket] [[0]] true false [LogSalesOpen].

(** The table capacity as [initOnce] computes it: the [int] product
    [maxMovies*maxShowings*maxSeats]. *)
Definition capacity (movies showings seats : Z) : Z :=
  wrapInt (wrapInt (movies * showings) * seats).

(** A theatre of one movie with two showings of two seats, as [initOnce]
    leaves it: room for four tickets. *)
Definition smallTheatre : State :=
  mkState (mkLogger "small" 0) 0 5 1 2 2 1 (OpenChan 1)
    (replicate 5 zeroTicket) [[0; 0]] true false [LogSalesOpen].

(** The small theatre after window 1 asked for three tickets for showing 0
    of movie 0: tickets 1 and 2 are sold with goodies, ticket 3 is a
    sold-out placeholder. *)
Definition afterSale : State :=
  Eval vm_compute in
    match Sell 1 [(0, 0); (0, 0); (0, 0)] [] None smallTheatre with
    | Returns _ st => st
    | _ => zeroState
    end.

(** The first parameter, in the order in which [initOnce] looks at them,
    that is out of bounds, by the name it has in the error message. *)
Definition firstInvalid (E M S N W : Z) : option string :=
  if E <? 0 then Some "MaxExchanges "
  else if M <? 1 then Some "MaxMovies "
  else if S <? 1 then Some "MaxShowings "
  else if N <? 1 then Some "MaxSeats "
  else if W <? 1 then Some "MaxWindows "
  else None.

(** The two range tests of the first loop of [Sell], and their
    conjunction. *)
Definition movieInRange (st : State) (r : Request) : bool :=
  (0 <=? TRMovie r) && (TRMovie r <? maxMovies st).

Definition showingInRange (st : State) (r : Request) : bool :=
  (0 <=? TRShowing r) && (TRShowing r <? maxShowings st).

Definition validRequest (st : State) (r : Request) : bool :=
  movieInRange st r && showingInRange st r.

(** The error [Sell] builds for request number [k] (counted from 0). *)
Definition requestError (st : State) (k : Z) (r : Request) : error :=
  if movieInRange st r then
    NewError (cat ["Sell failed:  ticket request "; Itoa (k + 1);
                   ":  showing "; Itoa (TRShowing r);
                   " not between 0 and "; Itoa (maxShowings st)])
  else
    NewError (cat ["Sell failed:  ticket request "; Itoa (k + 1);
                   ":  movie# "; Itoa (TRMovie r); " not between 0 and ";
                   Itoa (maxMovies st)]).

(** A ticket that was actually sold, not a sold-out placeholder. *)
Definition sold (t : Ticket) : Prop := SoldOut t = false.

(** The sum of the line-item prices of a receipt. *)
Definition sumPennies (items : list RItem) : Z :=
  foldr (fun item acc => Pennies item + acc) 0 items.

(** What [Sell] hands back in the small theatre when window 1 asks for
    three tickets for showing 0 of movie 0, which has two seats. *)
Definition saleTickets : list Ticket :=
  [mkTicket 1 0 0 1000 false true false "" "" 1;
   mkTicket 2 0 0 1000 false true false "" "" 1;
   mkTicket 3 0 0 1000 true false false "" "" 1].

Definition saleReceipt : Receipt :=
  mkReceipt None 1
    [mkRItem "Movie 0, Showing 0" 1000; mkRItem "Movie 0, Showing 0" 1000]
    2000.

(** The table is no longer than an [int] can count, the roll stands at a
    positive number, and no row at or beyond the roll has been written
    yet. *)
Record storeOK (st : State) : Prop := mkStoreOK {
  ok_len : len (ticketRqstDB st) <= maxInt;
  ok_roll : forall n, ticketRoll st = OpenChan n -> 1 <= n;
  ok_fresh : forall n j row,
    ticketRoll st = OpenChan n -> n <= j ->
    index (ticketRqstDB st) j = Some row -> row = zeroTicket
}.

(** What a ticket that went through the body of the loop looks like, as
    far as goodies are concerned; the zero ticket stands for a request
    the loop did not reach. *)
Definition gated (window : Z) (t : Ticket) : Prop :=
  t = zeroTicket
  \/ (t <> zeroTicket /\ Window t = window
      /\ Goodies t = negb (SoldOut t) && (window =? 1)).

(** The seat ledger has one row per movie and one [int32] counter per
    showing. *)
Definition ledgerOK (st : State) : Prop :=
  len (seatsSold st) = maxMovies st
  /\ Forall (fun row => len row = maxShowings st /\ Forall isInt32 row)
       (seatsSold st).

(** A theatre open for sales whose roll stands at [n]: the table is in
    order ahead of the roll, every row issued so far carries its own
    number, and the ledger has its shape. *)
Record theatreOK (st : State) (n : Z) : Prop := mkTheatreOK {
  th_store : storeOK st;
  th_roll : ticketRoll st = OpenChan n;
  th_stamped : forall j row,
    1 <= j < n -> index (ticketRqstDB st) j = Some row -> TicketNum row = j;
  th_ledger : ledgerOK st;
  th_open : salesOpen st = true
}.

(** How many of the requests ask for showing [s] of movie [m]. *)
Definition requestsFor (m s : Z) (reqs : list Request) : Z :=
  Z.of_nat (length (filter (fun r => r = (m, s)) reqs)).

(** Two updates of the table one after the other, with both results. *)
Definition saleThenExchange (a b : Ticket)
  : Go (option error * option error) :=
  e1 <- updateTicketSale a ;; e2 <- updateTicketExchange b ;; ret (e1, e2).

Definition exchangeThenSale (a b : Ticket)
  : Go (option error * option error) :=
  e2 <- updateTicketExchange b ;; e1 <- updateTicketSale a ;; ret (e1, e2).

(** The ticket the body of the loop of [Sell] makes of request [rq] at
    [window], when the roll stands at [n] and the counter of the showing
    at [c]; and the ledger once that seat is consumed. *)
Definition issuedTicket (st : State) (n window : Z) (rq : Request) (c : Z)
  : Ticket :=
  let soldOut := maxSeats st <? wrapInt32 (c + 1) in
  mkTicket n (TRMovie rq) (TRShowing rq) 1000 soldOut
    (negb soldOut && (window =? 1)) false "" "" window.

Definition consumeSeat (seats : list (list Z)) (rq : Request)
    (row : list Z) (c : Z) : list (list Z) :=
  store seats (TRMovie rq) (store row (TRShowing rq) (wrapInt32 (c + 1))).

(** The theatre [afterSale] once ticket 1 has had its water exchanged
    for soda. *)
Definition afterExchange : State :=
  Eval vm_compute in
    match Exchange 1 "water" "soda" afterSale with
    | Returns _ st => st
    | _ => zeroState
    end.

(** A row with the sale fields of [t], and a row with the exchange fields
    of [t]: what the two update functions write. *)
Definition withSale (t row : Ticket) : Ticket :=
  mkTicket (TicketNum row) (Movie t) (Showing t) (Price t) (SoldOut t)
    (Goodies t) (Exchanged row) (XchOld row) (XchNew row) (Window t).

Definition withExchange (t row : Ticket) : Ticket :=
  mkTicket (TicketNum row) (Movie row) (Showing row) (Price row)
    (SoldOut row) (Goodies row) (Exchanged t) (XchOld t) (XchNew t)
    (Window row).

(** What may follow a segment of a path: nothing, or a slash and more. *)
Definition pathTail (tail : string) : Prop :=
  tail = "" \/ exists rest, tail = String "/" rest.

(** The first segment of what follows a route: the text up to the first
    slash, or all of it. *)
Definition segment (s : string) : string := hd "" (Split "/" s).

(** ** Vocabulary of the theatre model *)

(** The entry [tbl[i][j]], when there is one, and its value. *)
Definition cell (tbl : list (list Z)) (i j : Z) : option Z :=
  row ← index tbl i; index row j.

Definition entry (tbl : list (list Z)) (i j : Z) : Z :=
  default 0 (cell tbl i j).

(** A table of the tracker: [movies+1] rows of [showings+1] ints. *)
Definition tableOK (movies showings : Z) (tbl : list (list Z)) : Prop :=
  len tbl = movies + 1
  /\ Forall (fun row => len row = showings + 1 /\ Forall isInt row) tbl.

(** A ticket for one of the theatre's movies and showings. *)
Definition inTheatre (movies showings : Z) (t : Ticket) : Prop :=
  0 <= Movie t < movies /\ 0 <= Showing t < showings.

Fixpoint howMany {A} (p : A -> bool) (l : list A) : Z :=
  match l with
  | [] => 0
  | x :: rest => (if p x then 1 else 0) + howMany p rest
  end.

(** Does the entry [(i, j)] of the table for sold ([soldOut = false]) or
    for missed ([soldOut = true]) tickets count the ticket [t]?  Row
    [movies] stands for all movies, column [showings] for all showings. *)
Definition counts (movies showings : Z) (soldOut : bool) (i j : Z)
    (t : Ticket) : bool :=
  Bool.eqb (SoldOut t) soldOut
  && ((i =? movies) || (i =? Movie t))
  && ((j =? showings) || (j =? Showing t)).

Definition tallied (movies showings : Z) (soldOut : bool) (i j : Z)
    (ticks : list Ticket) : Z :=
  howMany (counts movies showings soldOut i j) ticks.

(** The tickets of the sale messages among [msgs], in order. *)
Fixpoint saleTicks (msgs : list Msg) : list Ticket :=
  match msgs with
  | [] => []
  | msgTicketSale _ _ ticks :: rest => ticks ++ saleTicks rest
  | _ :: rest => saleTicks rest
  end.

(** One increment of the entry [(a, b)], seen from the entry [(i, j)]. *)
Definition hit (a b i j : Z) : Z := if (i =? a) && (j =? b) then 1 else 0.

(** The four increments for the ticket [t]. *)
Definition hits (movies showings : Z) (t : Ticket) (i j : Z) : Z :=
  hit (Movie t) (Showing t) i j + hit (Movie t) showings i j
  + hit movies (Showing t) i j + hit movies showings i j.

(** The table [tbl] holds [f i j], as an [int], at every [(i, j)]. *)
Definition cellsAre (movies showings : Z) (tbl : list (list Z))
    (f : Z -> Z -> Z) : Prop :=
  tableOK movies showings tbl
  /\ forall i j, 0 <= i <= movies -> 0 <= j <= showings ->
       cell tbl i j = Some (wrapInt (f i j)).

(** [g 0 + ... + g (n-1)] *)
Fixpoint sumN (n : nat) (g : Z -> Z) : Z :=
  match n with
  | O => 0
  | S k => sumN k g + g (Z.of_nat k)
  end.

Definition sumTo (n : Z) (g : Z -> Z) : Z := sumN (Z.to_nat n) g.

(** The messages the tracker takes for the cafeteria's and for a
    window's farewell.  The cafeteria is looked for first. *)
Definition fromCafeteria (ToLower : string -> string) (x : Msg) : bool :=
  match x with
  | msgDone from => Contains (ToLower from) "cafeteria"
  | _ => false
  end.

Definition fromWindow (ToLower : string -> string) (x : Msg) : bool :=
  match x with
  | msgDone from =>
      negb (Contains (ToLower from) "cafeteria")
      && Contains (ToLower from) "window"
  | _ => false
  end.

(** The tracker's bookkeeping of its own channel. *)
Definition channelOK (tr : Tracker) : Prop :=
  chTrackerOpen tr = negb (chTrackerClosed tr)
  /\ chTrackerClosed tr = cafeteriaClosed tr && (winctr tr <=? 0).

(** [strings.ToLower] on ASCII text: the letters A to Z become a to z. *)
Definition lowerByte (c : Ascii.ascii) : Ascii.ascii :=
  let n := Ascii.N_of_ascii c in
  if ((65 <=? n) && (n <=? 90))%N then Ascii.ascii_of_N (n + 32) else c.

Fixpoint lowerText (s : string) : string :=
  match s with
  | EmptyString => EmptyString
  | String c rest => String (lowerByte c) (lowerText rest)
  end.

(** A ticket sold and a ticket missed, for movie [m] and showing [s]. *)
Definition soldTicket (m s : Z) : Ticket :=
  mkTicket 1 m s 1000 false true false "" "" 1.

Definition missedTicket (m s : Z) : Ticket :=
  mkTicket 0 m s 0 true false false "" "" 1.

(** An evening at a theatre of two windows: a sale of one ticket and one
    miss, an exchange, and the farewells. *)
Definition evening : list Msg :=
  [ msgTicketSale "window" 1 [soldTicket 0 0; missedTicket 1 0];
    msgDone "Window";
    msgExchange "cafeteria" 1 "water" "soda";
    msgDone "cafeteria";
    msgDone "window" ].

(** The tracker of that evening, two movies with one showing each, as it
    enters its message loop. *)
Definition eveningStart : Tracker :=
  mkTracker 2 true false 0 [[0; 0]; [0; 0]; [0; 0]] [[0; 0]; [0; 0]; [0; 0]]
            false [TLogStarted].

(** * Properties *)

(** ** Machine arithmetic *)

Lemma wrap_small bits z :
  0 < bits -> - 2 ^ (bits - 1) <= z < 2 ^ (bits - 1) -> wrap bits z = z.
Proof.
  intros Hb Hz. unfold wrap.
  assert (Hp : 2 ^ bits = 2 * 2 ^ (bits - 1)).
  { rewrite <- Z.pow_succ_r by lia. f_equal. lia. }
  rewrite Z.mod_small by lia. lia.
Qed.

Lemma wrap_add_l bits a b :
  wrap bits (wrap bits a + b) = wrap bits (a + b).
Proof.
  unfold wrap.
  replace ((a + 2 ^ (bits - 1)) mod 2 ^ bits - 2 ^ (bits - 1) + b
           + 2 ^ (bits - 1))
    with ((a + 2 ^ (bits - 1)) mod 2 ^ bits + b) by lia.
  rewrite Zplus_mod_idemp_l. do 2 f_equal. lia.
Qed.

Lemma wrap_mul_l bits a b :
  wrap bits (wrap bits a * b) = wrap bits (a * b).
Proof.
  unfold wrap.
  set (h := 2 ^ (bits - 1)). set (m := 2 ^ bits).
  replace (((a + h) mod m - h) * b + h)
    with ((a + h) mod m * b + (h - h * b)) by lia.
  rewrite <- Zplus_mod_idemp_l, Zmult_mod_idemp_l, Zplus_mod_idemp_l.
  do 2 f_equal. lia.
Qed.

Lemma wrapInt_small z : isInt z -> wrapInt z = z.
Proof.
  unfold isInt, minInt, maxInt, wrapInt. intros H.
  apply wrap_small; [lia|]. change (64 - 1) with 63. lia.
Qed.

Lemma wrapInt32_small z : isInt32 z -> wrapInt32 z = z.
Proof.
  unfold isInt32, minInt32, maxInt32, wrapInt32. intros H.
  apply wrap_small; [lia|]. change (32 - 1) with 31. lia.
Qed.

Lemma wrapInt32_add_l a b : wrapInt32 (wrapInt32 a + b) = wrapInt32 (a + b).
Proof. apply wrap_add_l. Qed.

Lemma wrapInt_isInt z : isInt (wrapInt z).
Proof.
  unfold isInt, minInt, maxInt, wrapInt, wrap. change (64 - 1) with 63.
  pose proof (Z.mod_pos_bound (z + 2 ^ 63) (2 ^ 64) ltac:(lia)).
  change (2 ^ 64) with (2 * 2 ^ 63) in *. lia.
Qed.

Lemma wrapInt32_isInt32 z : isInt32 (wrapInt32 z).
Proof.
  unfold isInt32, minInt32, maxInt32, wrapInt32, wrap. change (32 - 1) with 31.
  pose proof (Z.mod_pos_bound (z + 2 ^ 31) (2 ^ 32) ltac:(lia)).
  change (2 ^ 32) with (2 * 2 ^ 31) in *. lia.
Qed.

(** ** Slices *)

Lemma index_Some {A} (l : list A) i x :
  index l i = Some x -> 0 <= i < len l.
Proof.
  unfold index, len. destruct (Z.ltb_spec i 0) as [Hneg|Hpos]; [done|].
  intros Hx%lookup_lt_Some. lia.
Qed.

Lemma index_in_range {A} (l : list A) i :
  0 <= i < len l -> exists x, index l i = Some x.
Proof.
  unfold index, len. intros Hi. destruct (Z.ltb_spec i 0) as [Hneg|Hpos]; [lia|].
  apply lookup_lt_is_Some_2. lia.
Qed.

Lemma index_store_eq {A} (l : list A) i x :
  0 <= i < len l -> index (store l i x) i = Some x.
Proof.
  unfold index, store, len. intros Hi.
  destruct (Z.ltb_spec i 0) as [Hneg|Hpos]; [lia|].
  apply list_lookup_insert_eq. lia.
Qed.

Lemma index_store_ne {A} (l : list A) i j x :
  0 <= i -> 0 <= j -> i <> j -> index (store l i x) j = index l j.
Proof.
  unfold index, store. intros Hi Hj Hne.
  destruct (Z.ltb_spec j 0) as [Hneg|Hpos]; [lia|].
  apply list_lookup_insert_ne. lia.
Qed.

Lemma len_store {A} (l : list A) i x : len (store l i x) = len l.
Proof. unfold len, store. by rewrite length_insert. Qed.

Lemma len_replicate {A} n (x : A) : len (replicate n x) = Z.of_nat n.
Proof. unfold len. by rewrite length_replicate. Qed.

Lemma index_replicate {A} n (x y : A) i :
  index (replicate n x) i = Some y -> y = x.
Proof.
  unfold index. destruct (i <? 0); [done|].
  intros H%lookup_replicate. tauto.
Qed.

(** ** The seat ledger *)

Lemma checkAvailabilityAndPrice_step st m s c :
  seatCount st m s = Some c ->
  exists st',
    checkAvailabilityAndPrice m s st
      = Returns (1000, maxSeats st <? wrapInt32 (c + 1)) st'
    /\ seatCount st' m s = Some (wrapInt32 (c + 1))
    /\ maxSeats st' = maxSeats st
    /\ ticketRqstDB st' = ticketRqstDB st
    /\ ticketRoll st' = ticketRoll st.
Proof.
  unfold seatCount, checkAvailabilityAndPrice.
  destruct (index (seatsSold st) m) as [row|] eqn:Hrow; [|done].
  intros Hc. rewrite Hc. eexists. split; [reflexivity|].
  unfold seatCount. cbn.
  rewrite index_store_eq by eauto using index_Some.
  rewrite index_store_eq by eauto using index_Some. done.
Qed.

Lemma repeat_check_counts n : forall st m s c,
  seatCount st m s = Some c ->
  isInt32 c ->
  exists res st',
    repeatGo n (checkAvailabilityAndPrice m s) st = Returns res st'
    /\ length res = n
    /\ (forall k r, res !! k = Some r ->
          r = (1000, maxSeats st <? wrapInt32 (c + Z.of_nat k + 1)))
    /\ seatCount st' m s = Some (wrapInt32 (c + Z.of_nat n))
    /\ maxSeats st' = maxSeats st.
Proof.
  induction n as [|n IH]; intros st m s c Hc Hint.
  - exists [], st. cbn [repeatGo ret]. repeat split; try done.
    rewrite Z.add_0_r, wrapInt32_small; done.
  - destruct (checkAvailabilityAndPrice_step st m s c Hc)
      as (st1 & Hstep & Hc1 & Hmax1 & _).
    destruct (IH st1 m s _ Hc1 (wrapInt32_isInt32 _))
      as (res & st' & Hrep & Hlen & Hres & Hc' & Hmax').
    exists ((1000, maxSeats st <? wrapInt32 (c + 1)) :: res), st'.
    split; [|split; [|split; [|split]]].
    + cbn [repeatGo]. unfold bind at 1. rewrite Hstep.
      unfold bind at 1. rewrite Hrep. done.
    + cbn. by rewrite Hlen.
    + intros [|k] r Hk; cbn in Hk.
      * inversion Hk. do 3 f_equal. lia.
      * apply Hres in Hk. rewrite Hk, Hmax1. do 2 f_equal.
        rewrite <- Z.add_assoc, wrapInt32_add_l. f_equal. lia.
    + rewrite Hc', wrapInt32_add_l. do 2 f_equal. lia.
    + congruence.
Qed.

Lemma tinyTheatre_initOnce :
  initOnce (Some (mkLogger "tiny" 0)) 0 1 1 1 1 zeroState
  = Returns None tinyTheatre.
Proof. reflexivity. Qed.

(** In the one-seat theatre, a run of 2147483648 calls for the same
    showing ends with a call that does not report the showing sold out
    (stated for any [n] that denotes that number, so that nothing ever
    computes with it in unary). *)
Lemma int32_counter_wraps (n : nat) :
  Z.of_nat n = 2147483648 ->
  ~ (forall res st',
       repeatGo n (checkAvailabilityAndPrice 0 0) tinyTheatre
         = Returns res st' ->
       forall k r, res !! k = Some r ->
         snd r = (maxSeats tinyTheatre <? Z.of_nat k + 1)).
Proof.
  intros Hn Hclaim.
  destruct (repeat_check_counts n tinyTheatre 0 0 0)
    as (res & st' & Hrep & Hlen & Hres & _).
  { reflexivity. }
  { unfold isInt32, minInt32, maxInt32. lia. }
  specialize (Hclaim res st' Hrep).
  destruct (lookup_lt_is_Some_2 res (pred n)) as [r Hr]; [lia|].
  specialize (Hclaim _ _ Hr). specialize (Hres _ _ Hr).
  rewrite Hres in Hclaim. cbn [snd] in Hclaim.
  replace (Z.of_nat (pred n)) with 2147483647 in Hclaim by lia.
  change (maxSeats tinyTheatre) with 1 in Hclaim.
  revert Hclaim. vm_compute. discriminate.
Qed.

(** C6, as stated, fails on the code: in the one-seat theatre the
    2147483648-th call in a row for the same showing reports
    [soldOut = false], because the [int32] counter has wrapped around to
    -2147483648 by then. *)
Lemma C6_counterexample :
  ~ (forall res st',
       repeatGo (Z.to_nat 2147483648) (checkAvailabilityAndPrice 0 0)
         tinyTheatre = Returns res st' ->
       forall k r, res !! k = Some r ->
         snd r = (maxSeats tinyTheatre <? Z.of_nat k + 1)).
Proof.
  apply int32_counter_wraps. apply Z2Nat.id. discriminate.
Qed.

(** C6 (amended): for a (movie, showing) pair whose counter starts at 0,
    the k-th call of [checkAvailabilityAndPrice] in a row reports
    [soldOut] exactly when k exceeds [maxSeats], for every k up to
    2147483647 (the largest [int32]); each call stores the counter plus one
    and compares that post-increment value with [maxSeats], as long as the
    counter is below 2147483647. *)
Theorem C6_seat_accounting st m s (n : nat) :
  seatCount st m s = Some 0 ->
  Z.of_nat n <= maxInt32 ->
  (exists res st',
     repeatGo n (checkAvailabilityAndPrice m s) st = Returns res st'
     /\ length res = n
     /\ (forall k r, res !! k = Some r ->
           r = (1000, maxSeats st <? Z.of_nat k + 1))
     /\ seatCount st' m s = Some (Z.of_nat n))
  /\ (forall st0 c, seatCount st0 m s = Some c -> 0 <= c < maxInt32 ->
        exists st1,
          checkAvailabilityAndPrice m s st0
            = Returns (1000, maxSeats st0 <? c + 1) st1
          /\ seatCount st1 m s = Some (c + 1)).
Proof.
  intros Hc Hn. split.
  - destruct (repeat_check_counts n st m s 0 Hc)
      as (res & st' & Hrep & Hlen & Hres & Hc' & _).
    { unfold isInt32, minInt32, maxInt32. lia. }
    exists res, st'. repeat split; try done.
    + intros k r Hk. rewrite (Hres _ _ Hk).
      apply lookup_lt_Some in Hk. rewrite Hlen in Hk.
      rewrite wrapInt32_small; [done|].
      unfold isInt32, minInt32, maxInt32 in *. lia.
    + rewrite Hc', wrapInt32_small; [done|].
      unfold isInt32, minInt32, maxInt32 in *. lia.
  - intros st0 c Hc0 Hrange.
    destruct (checkAvailabilityAndPrice_step st0 m s c Hc0)
      as (st1 & Hstep & Hc1 & _).
    exists st1. rewrite wrapInt32_small in Hstep, Hc1; [done| |];
      unfold isInt32, minInt32, maxInt32 in *; lia.
Qed.

Lemma C6_seat_accounting_witness :
  exists res st',
    repeatGo 3 (checkAvailabilityAndPrice 0 0) tinyTheatre = Returns res st'
    /\ res = [(1000, false); (1000, true); (1000, true)].
Proof.
  destruct (C6_seat_accounting tinyTheatre 0 0 3) as [(res & st' & H) _].
  - reflexivity.
  - vm_compute. discriminate.
  - exists res, st'. destruct H as (Hrep & _). split; [exact Hrep|].
    vm_compute in Hrep. injection Hrep as <- _. reflexivity.
Defined.

(** The step on which the counter leaves the [int32] range, on its own. *)
Example int32_counter_wrap_step :
  let st := set_seatsSold [[2147483647]] tinyTheatre in
  exists st',
    checkAvailabilityAndPrice 0 0 st = Returns (1000, false) st'
    /\ seatCount st' 0 0 = Some (-2147483648).
Proof. eexists. split; reflexivity. Qed.

(** ** Initialization *)

Lemma capacity_exact movies showings seats :
  isInt (movies * showings * seats) ->
  capacity movies showings seats = movies * showings * seats.
Proof.
  intros H. unfold capacity, wrapInt. rewrite wrap_mul_l.
  by apply wrapInt_small.
Qed.

(** What a successful [make] was asked for and what it gives. *)
Lemma make_Some {A} size (zero : A) n l :
  make size zero n = Some l ->
  0 <= n /\ size * n <= maxAlloc /\ l = replicate (Z.to_nat n) zero.
Proof.
  unfold make.
  destruct (Z.ltb_spec n 0), (Z.ltb_spec maxAlloc (size * n)); cbn;
    try done.
  intros [= <-]. repeat split; lia || done.
Qed.

(** What a successful [initOnce] has checked and built. *)
Lemma initOnce_ok lg E M S N W st st' :
  initOnce (Some lg) E M S N W st = Returns None st' ->
  0 <= E /\ 1 <= M /\ 1 <= S /\ 1 <= N /\ 1 <= W
  /\ -1 <= capacity M S N < maxInt
  /\ st' = mkState lg (totExchanges st) E M S N W (OpenChan 1)
             (replicate (Z.to_nat (capacity M S N + 1)) zeroTicket)
             (replicate (Z.to_nat M) (replicate (Z.to_nat S) 0))
             true (initGate st) (logged st ++ [LogSalesOpen]).
Proof.
  unfold initOnce. cbn.
  destruct (Z.ltb_spec E 0); [done|].
  destruct (Z.ltb_spec M 1); [done|].
  destruct (Z.ltb_spec S 1); [done|].
  destruct (Z.ltb_spec N 1); [done|].
  destruct (Z.ltb_spec W 1); [done|].
  destruct (make sizeofSlice [] M) as [rows|] eqn:Hrows; [|done].
  destruct (make sizeofInt32 0 S) as [row|] eqn:Hrow; [|done].
  apply make_Some in Hrows as (_ & _ & ->).
  apply make_Some in Hrow as (_ & _ & ->).
  fold (capacity M S N).
  pose proof (wrapInt_isInt (wrapInt (M * S) * N)) as Hcap.
  fold (capacity M S N) in Hcap. unfold isInt, minInt, maxInt in Hcap.
  destruct (make sizeofTicket zeroTicket (wrapInt (capacity M S N + 1)))
    as [db|] eqn:Hdb; [|done].
  apply make_Some in Hdb as (Hpos & _ & ->).
  assert (Hfit : capacity M S N < maxInt).
  { unfold maxInt. destruct (Z.eq_dec (capacity M S N) (2 ^ 63 - 1)) as [Heq|];
      [|lia].
    rewrite Heq in Hpos. vm_compute in Hpos. by destruct Hpos. }
  assert (Hlow : -1 <= capacity M S N).
  { destruct (Z.le_gt_cases (-1) (capacity M S N)) as [|Hlt]; [done|].
    rewrite wrapInt_small in Hpos; [lia|].
    unfold isInt, minInt, maxInt. lia. }
  rewrite wrapInt_small by (unfold isInt, minInt, maxInt in *; lia).
  intros [= <-]. rewrite fmap_replicate. unfold Printf. cbn. repeat split; lia || done.
Qed.

(** ** The ticket roll *)

Lemma nextTicket_issues st t :
  ticketRoll st = OpenChan t ->
  0 <= t < len (ticketRqstDB st) ->
  exists row,
    index (ticketRqstDB st) t = Some row
    /\ nextTicket st
       = Returns (stamp t row, None)
           (set_ticketRqstDB (store (ticketRqstDB st) t (stamp t row))
              (set_ticketRoll (OpenChan (wrapInt (t + 1))) st)).
Proof.
  intros Hroll Ht. destruct (index_in_range _ _ Ht) as [row Hrow].
  exists row. split; [done|].
  unfold nextTicket. rewrite Hroll. cbn.
  destruct (Z.leb_spec (len (ticketRqstDB st)) t); [lia|].
  by rewrite Hrow.
Qed.

Lemma nextTicket_exhausted st t :
  ticketRoll st = OpenChan t ->
  len (ticketRqstDB st) <= t ->
  exists st', nextTicket st = Exits 1 st'.
Proof.
  intros Hroll Ht. unfold nextTicket. rewrite Hroll. cbn.
  destruct (Z.leb_spec (len (ticketRqstDB st)) t); [|lia]. eauto.
Qed.

(** [n] draws in a row from a roll standing at [t] deliver
    [t], [t+1], ..., [t+n-1], as long as the table has room for them. *)
Lemma repeat_nextTicket n : forall st t,
  ticketRoll st = OpenChan t ->
  0 <= t ->
  t + Z.of_nat n <= len (ticketRqstDB st) ->
  len (ticketRqstDB st) <= maxInt ->
  exists res st',
    repeatGo n nextTicket st = Returns res st'
    /\ length res = n
    /\ (forall k r, res !! k = Some r ->
          TicketNum (fst r) = t + Z.of_nat k /\ snd r = None)
    /\ ticketRoll st' = OpenChan (t + Z.of_nat n)
    /\ len (ticketRqstDB st') = len (ticketRqstDB st).
Proof.
  induction n as [|n IH]; intros st t Hroll Ht Hroom Hlen.
  - exists [], st. cbn [repeatGo ret]. repeat split; try done.
    by rewrite Z.add_0_r.
  - destruct (nextTicket_issues st t Hroll) as (row & Hrow & Hnext); [lia|].
    rewrite wrapInt_small in Hnext
      by (unfold isInt, minInt, maxInt in *; lia).
    match type of Hnext with _ = Returns _ ?s => set (st1 := s) in * end.
    destruct (IH st1 (t + 1)) as (res & st' & Hrep & Hl & Hres & Hroll' & Hlen');
      try done.
    { subst st1. cbn. lia. }
    { subst st1. cbn. rewrite len_store. lia. }
    { subst st1. cbn. by rewrite len_store. }
    exists ((stamp t row, None) :: res), st'.
    split; [|split; [|split; [|split]]].
    + cbn [repeatGo]. unfold bind at 1. rewrite Hnext.
      unfold bind at 1. rewrite Hrep. done.
    + cbn. by rewrite Hl.
    + intros [|k] r Hk; cbn in Hk.
      * inversion Hk. cbn. split; [lia|done].
      * apply Hres in Hk. split; [lia|tauto].
    + rewrite Hroll'. f_equal. lia.
    + rewrite Hlen'. subst st1. cbn. by rewrite len_store.
Qed.

(** C1, as stated, fails on the code: for 3 movies of 1 showing with
    6148914691236517206 seats, movies x showings x seats is 2^64 + 2,
    which [initOnce] computes as the [int] 2.  The table gets three slots,
    the numbers 1 and 2 are issued, and the third draw, far below the
    product, ends the program. *)
Lemma C1_counterexample :
  exists st' res stk stx,
    initOnce (Some (mkLogger "wide" 0)) 0 3 1 6148914691236517206 1 zeroState
    = Returns None st'
    /\ 3 <= 3 * 1 * 6148914691236517206
    /\ capacity 3 1 6148914691236517206 = 2
    /\ len (ticketRqstDB st') = 3
    /\ repeatGo 2 nextTicket st' = Returns res stk
    /\ (TicketNum ∘ fst) <$> res = [1; 2]
    /\ nextTicket stk = Exits 1 stx.
Proof.
  do 4 eexists. split; [vm_compute; reflexivity|].
  split; [lia|]. split; [reflexivity|]. split; [reflexivity|].
  split; [vm_compute; reflexivity|]. split; [reflexivity|].
  vm_compute. reflexivity.
Qed.

(** C1 (amended): after a successful [initOnce], sequential calls of
    [nextTicket] deliver the ticket numbers 1, 2, 3, ... without gap or
    repeat, for every k up to the capacity of the table; once exactly
    that many have been issued, the next call ends the program with
    [os.Exit(1)]: it returns neither an error nor a ticket.  The capacity
    is movies x showings x seats as [initOnce] computes it when it sizes
    the table, in [int] arithmetic; it is the mathematical product
    whenever that, plus one for slot 0, fits an [int]. *)
Theorem C1_sequential_issuance lg E M S N W st st' (k : nat) :
  initOnce (Some lg) E M S N W st = Returns None st' ->
  Z.of_nat k <= capacity M S N ->
  exists res stk,
    repeatGo k nextTicket st' = Returns res stk
    /\ length res = k
    /\ (forall j r, res !! j = Some r ->
          TicketNum (fst r) = Z.of_nat j + 1 /\ snd r = None)
    /\ (Z.of_nat k = capacity M S N ->
          exists stx, nextTicket stk = Exits 1 stx)
    /\ (M * S * N + 1 <= maxInt -> capacity M S N = M * S * N).
Proof.
  intros Hinit Hk.
  destruct (initOnce_ok _ _ _ _ _ _ _ _ Hinit)
    as (_ & HM & HS & HN & _ & Hcap & ->).
  destruct (repeat_nextTicket k
              (mkState lg (totExchanges st) E M S N W (OpenChan 1)
                 (replicate (Z.to_nat (capacity M S N + 1)) zeroTicket)
                 (replicate (Z.to_nat M) (replicate (Z.to_nat S) 0))
                 true (initGate st) (logged st ++ [LogSalesOpen])) 1)
    as (res & stk & Hrep & Hlen & Hres & Hroll & Hdb); cbn;
    rewrite ?len_replicate; try lia; try done.
  cbn in Hdb. rewrite len_replicate in Hdb.
  exists res, stk. split; [done|]. split; [done|]. split; [|split].
  - intros j r Hj. apply Hres in Hj. split; [lia|tauto].
  - intros Hfull. apply (nextTicket_exhausted stk _ Hroll). lia.
  - intros Hfit. apply capacity_exact.
    unfold isInt, minInt, maxInt in *. nia.
Qed.

Lemma smallTheatre_initOnce :
  initOnce (Some (mkLogger "small" 0)) 5 1 2 2 1 zeroState
  = Returns None smallTheatre.
Proof. reflexivity. Qed.

Lemma C1_sequential_issuance_witness :
  exists res stk,
    repeatGo 4 nextTicket smallTheatre = Returns res stk
    /\ (TicketNum ∘ fst) <$> res = [1; 2; 3; 4]
    /\ exists stx, nextTicket stk = Exits 1 stx.
Proof.
  destruct (C1_sequential_issuance (mkLogger "small" 0) 5 1 2 2 1
              zeroState smallTheatre 4)
    as (res & stk & Hrep & _ & _ & Hexit & _).
  - reflexivity.
  - vm_compute. discriminate.
  - exists res, stk. split; [exact Hrep|]. split.
    + vm_compute in Hrep. injection Hrep as <- _. reflexivity.
    + apply Hexit. reflexivity.
Defined.

(** ** The record store *)

(** C2, the failing input: ticket number 1 is inside the table of the
    freshly opened one-seat theatre, its slot is still stamped 0 (the
    number was never issued), and [readTicket 1] panics instead of
    returning the "not allocated" error. *)
Lemma C2_counterexample :
  1 <= 1 < len (ticketRqstDB tinyTheatre)
  /\ index (ticketRqstDB tinyTheatre) 1 = Some zeroTicket
  /\ TicketNum zeroTicket <> 1
  /\ ~ (exists r st', readTicket 1 tinyTheatre = Returns r st')
  /\ exists msg, readTicket 1 tinyTheatre = Panics msg.
Proof.
  repeat split; try (vm_compute; congruence).
  - intros (r & st' & H). vm_compute in H. discriminate.
  - eexists. vm_compute. reflexivity.
Qed.

(** The three ways a call of [readTicket] can go. *)
Lemma readTicket_cases st tickNum :
  (tickNum < 1 \/ len (ticketRqstDB st) <= tickNum ->
     readTicket tickNum st
     = Returns (zeroTicket,
                Some (NewError (cat ["readTicket failed:  tickNum ";
                                     Itoa tickNum; " outside the DB"]))) st)
  /\ (1 <= tickNum < len (ticketRqstDB st) ->
      exists row,
        index (ticketRqstDB st) tickNum = Some row
        /\ (TicketNum row = tickNum ->
              readTicket tickNum st = Returns (row, None) st)
        /\ (TicketNum row <> tickNum ->
              exists msg, readTicket tickNum st = Panics msg)).
Proof.
  split.
  - intros Hout. unfold readTicket.
    destruct (Z.ltb_spec tickNum 1); [done|].
    destruct (Z.leb_spec (len (ticketRqstDB st)) tickNum); [done|lia].
  - intros Hin.
    destruct (index_in_range (ticketRqstDB st) tickNum) as [row Hrow]; [lia|].
    exists row. split; [done|]. unfold readTicket.
    destruct (Z.ltb_spec tickNum 1); [lia|].
    destruct (Z.leb_spec (len (ticketRqstDB st)) tickNum); [lia|].
    cbn [orb]. destruct (Z.eqb_spec tickNum 0); [lia|]. rewrite Hrow.
    split; intros Hstamp.
    + destruct (Z.eqb_spec tickNum (TicketNum row)); [|congruence].
      by destruct row.
    + destruct (Z.eqb_spec tickNum (TicketNum row)); [congruence|]. eauto.
Qed.

(** C2: the code departs from the claim.  [readTicket] returns an error,
    and leaves every variable as it was, when the requested number is
    outside 1 .. len-1 (slot 0 included); but for a number inside the
    table whose row carries another stamp, such as the 0 of a number
    never issued, it panics.  Its [switch] is on [tickNum], so the
    [case 0] written to answer "is not allocated" can never be taken:
    numbers below 1 have already been turned away. *)
Theorem C2_readTicket_failures st tickNum :
  (tickNum < 1 \/ len (ticketRqstDB st) <= tickNum ->
     readTicket tickNum st
     = Returns (zeroTicket,
                Some (NewError (cat ["readTicket failed:  tickNum ";
                                     Itoa tickNum; " outside the DB"]))) st)
  /\ (1 <= tickNum < len (ticketRqstDB st) ->
      exists row,
        index (ticketRqstDB st) tickNum = Some row
        /\ (TicketNum row = tickNum ->
              readTicket tickNum st = Returns (row, None) st)
        /\ (TicketNum row <> tickNum ->
              exists msg, readTicket tickNum st = Panics msg)).
Proof. apply readTicket_cases. Qed.

Lemma C2_readTicket_failures_witness :
  readTicket 2 tinyTheatre
  = Returns (zeroTicket,
             Some (NewError "readTicket failed:  tickNum 2 outside the DB"))
            tinyTheatre.
Proof.
  destruct (C2_readTicket_failures tinyTheatre 2) as [Hout _].
  rewrite Hout; [reflexivity|]. right. vm_compute. discriminate.
Defined.

(** A successful read changes nothing and hands back the row stamped with
    the requested number. *)
Lemma readTicket_ok st tickNum t st' :
  readTicket tickNum st = Returns (t, None) st' ->
  st' = st
  /\ 1 <= tickNum < len (ticketRqstDB st)
  /\ index (ticketRqstDB st) tickNum = Some t
  /\ TicketNum t = tickNum.
Proof.
  destruct (Z_lt_le_dec tickNum 1) as [Hlow|Hlow].
  { destruct (readTicket_cases st tickNum) as [Hout _].
    rewrite Hout by lia. discriminate. }
  destruct (Z_le_gt_dec (len (ticketRqstDB st)) tickNum) as [Hhigh|Hhigh].
  { destruct (readTicket_cases st tickNum) as [Hout _].
    rewrite Hout by lia. discriminate. }
  destruct (readTicket_cases st tickNum) as [_ Hin].
  destruct Hin as (row & Hrow & Hsame & Hdiff); [lia|].
  destruct (Z.eq_dec (TicketNum row) tickNum) as [Heq|Hne].
  - rewrite (Hsame Heq). intros [= <- <-]. repeat split; lia || done.
  - destruct (Hdiff Hne) as [msg ->]. discriminate.
Qed.

(** ** Exchange *)

(** [Exchange] past its two gates: sales are open and the read
    succeeded. *)
Lemma Exchange_after_read st tickNum old new t st' :
  salesOpen st = true ->
  readTicket tickNum st = Returns (t, None) st' ->
  Exchange tickNum old new st
  = if SoldOut t then Returns (Some ErrXchNotEntitled) st
    else if negb (Goodies t) then Returns (Some ErrXchNotEntitled) st
    else if Exchanged t then Returns (Some ErrXchAlreadyDone) st
    else if maxExchanges st <=? totExchanges st
         then Returns (Some ErrXchOutOfGoods) st
    else Returns None
           (set_ticketRqstDB
              (store (ticketRqstDB st) tickNum (set_exchange old new t))
              (set_totExchanges (wrapInt (totExchanges st + 1)) st)).
Proof.
  intros Hopen Hread.
  destruct (readTicket_ok _ _ _ _ Hread) as (-> & Hrange & Hrow & Hnum).
  unfold Exchange. rewrite Hopen. cbn [negb]. unfold bind at 1.
  rewrite Hread.
  destruct (SoldOut t); [done|]. destruct (Goodies t); [|done].
  destruct (Exchanged t) eqn:Hx; [done|]. cbn [negb].
  destruct (maxExchanges st <=? totExchanges st); [done|].
  unfold bind, updateTicketExchange. cbn. rewrite Hnum.
  destruct (Z.ltb_spec tickNum 1); [lia|].
  destruct (Z.leb_spec (len (ticketRqstDB st)) tickNum); [lia|].
  cbn. rewrite Hrow. unfold ret, set_exchange. by rewrite Hnum.
Qed.

(** C4: once sales are open and the ticket has been read, [Exchange]
    checks in this order, the first failing check deciding the error: a
    sold-out ticket gives [ErrXchNotEntitled]; a ticket without goodies
    gives [ErrXchNotEntitled]; a ticket already exchanged gives
    [ErrXchAlreadyDone]; an exchange counter that has reached
    [maxExchanges] gives [ErrXchOutOfGoods].  Each denial returns with every
    variable, the table and the counter included, exactly as it was. *)
Theorem C4_exchange_denials st tickNum old new t st' :
  salesOpen st = true ->
  readTicket tickNum st = Returns (t, None) st' ->
  (SoldOut t = true ->
     Exchange tickNum old new st = Returns (Some ErrXchNotEntitled) st)
  /\ (SoldOut t = false -> Goodies t = false ->
        Exchange tickNum old new st = Returns (Some ErrXchNotEntitled) st)
  /\ (SoldOut t = false -> Goodies t = true -> Exchanged t = true ->
        Exchange tickNum old new st = Returns (Some ErrXchAlreadyDone) st)
  /\ (SoldOut t = false -> Goodies t = true -> Exchanged t = false ->
      maxExchanges st <= totExchanges st ->
        Exchange tickNum old new st = Returns (Some ErrXchOutOfGoods) st).
Proof.
  intros Hopen Hread.
  rewrite (Exchange_after_read _ _ old new _ _ Hopen Hread).
  repeat split.
  - by intros ->.
  - by intros -> ->.
  - by intros -> -> ->.
  - intros -> -> -> Hfull. cbn.
    by destruct (Z.leb_spec (maxExchanges st) (totExchanges st)); [|lia].
Qed.

(** C10: when sales are open, the read of the ticket succeeds and all
    four eligibility checks pass, [Exchange] returns nil: the write-back
    cannot take its out-of-range branch, the exchange counter has gone up
    by one and the row of the ticket now has [Exchanged] set and the two
    goodies stored, every other field and row being as before.  (The two
    counters are [int]s.) *)
Theorem C10_exchange_commits st tickNum old new t st' :
  salesOpen st = true ->
  readTicket tickNum st = Returns (t, None) st' ->
  SoldOut t = false -> Goodies t = true -> Exchanged t = false ->
  totExchanges st < maxExchanges st ->
  isInt (totExchanges st) -> isInt (maxExchanges st) ->
  exists st2,
    Exchange tickNum old new st = Returns None st2
    /\ updateTicketExchange (set_exchange old new t) st = Returns None
         (set_ticketRqstDB (ticketRqstDB st2) st)
    /\ totExchanges st2 = totExchanges st + 1
    /\ index (ticketRqstDB st2) tickNum
       = Some (mkTicket (TicketNum t) (Movie t) (Showing t) (Price t)
                 (SoldOut t) (Goodies t) true old new (Window t))
    /\ (forall j, 0 <= j -> j <> tickNum ->
          index (ticketRqstDB st2) j = index (ticketRqstDB st) j)
    /\ len (ticketRqstDB st2) = len (ticketRqstDB st)
    /\ st2 = set_ticketRqstDB (ticketRqstDB st2)
               (set_totExchanges (totExchanges st2) st).
Proof.
  intros Hopen Hread Hsold Hgood Hx Hstock Htot Hmax.
  pose proof (Exchange_after_read _ _ old new _ _ Hopen Hread) as Hex.
  destruct (readTicket_ok _ _ _ _ Hread) as (-> & Hrange & Hrow & Hnum).
  rewrite Hsold, Hgood, Hx in Hex. cbn in Hex.
  destruct (Z.leb_spec (maxExchanges st) (totExchanges st)); [lia|].
  rewrite wrapInt_small in Hex by (unfold isInt, minInt, maxInt in *; lia).
  eexists. split; [exact Hex|]. cbn.
  split; [|split; [done|split; [|split; [|split; [|done]]]]].
  - unfold updateTicketExchange. cbn. rewrite Hnum.
    destruct (Z.ltb_spec tickNum 1); [lia|].
    destruct (Z.leb_spec (len (ticketRqstDB st)) tickNum); [lia|].
    cbn. rewrite Hrow. unfold set_exchange. by rewrite Hnum.
  - by rewrite index_store_eq by lia.
  - intros j Hj Hne. rewrite index_store_ne by lia. done.
  - apply len_store.
Qed.

Lemma C4_exchange_denials_witness :
  Exchange 3 "water" "soda" afterSale
  = Returns (Some ErrXchNotEntitled) afterSale.
Proof.
  refine (proj1 (C4_exchange_denials afterSale 3 "water" "soda"
                   (mkTicket 3 0 0 1000 true false false "" "" 1) afterSale
                   _ _) _); reflexivity.
Defined.

Lemma C10_exchange_commits_witness :
  exists st2,
    Exchange 1 "water" "soda" afterSale = Returns None st2
    /\ totExchanges st2 = 1
    /\ index (ticketRqstDB st2) 1
       = Some (mkTicket 1 0 0 1000 false true true "water" "soda" 1).
Proof.
  destruct (C10_exchange_commits afterSale 1 "water" "soda"
              (mkTicket 1 0 0 1000 false true false "" "" 1) afterSale)
    as (st2 & Hex & _ & Htot & Hrow & _);
    try reflexivity; try (vm_compute; intuition discriminate).
  exists st2. repeat split; assumption.
Defined.

(** ** Rejected initializations *)

Lemma prefix_append (s t : string) : String.prefix s (s +:+ t) = true.
Proof.
  induction s as [|a s IH]; [by destruct t|].
  change (String a s +:+ t) with (String a (s +:+ t)). cbn [String.prefix].
  destruct (Ascii.ascii_dec a a); [exact IH|congruence].
Qed.

(** C7, as stated, fails on the code: the first initialization of a
    freshly loaded package, rejected for [MaxMovies = 0], has already
    overwritten the logger and [maxExchanges] (5 instead of 0). *)
Lemma C7_counterexample :
  exists e st',
    initOnce (Some (mkLogger "small" 0)) 5 0 7 8 9 zeroState
    = Returns (Some e) st'
    /\ Error e = "MaxMovies 0 must be greater than zero"
    /\ maxExchanges zeroState = 0 /\ maxExchanges st' = 5
    /\ L st' <> L zeroState
    /\ st' <> zeroState.
Proof.
  do 2 eexists. split; [reflexivity|]. repeat split; discriminate.
Qed.

(** C7 (amended): when one of the five numbers is out of bounds,
    [initOnce] (and so [Init], through a gate that is still open) returns
    an error, and the seat ledger, the ticket table, the ticket roll, the
    sales-open flag and the exchange counter are as before.  Without a
    logger the error is "Missing Logger", it names no parameter, and
    nothing at all has changed.  With a logger the message starts with
    the name of the first offending parameter, and the logger,
    [maxExchanges] and every limit up to and including the offending one
    have been overwritten with the arguments of the call. *)
Theorem C7_initOnce_rejects parmL E M S N W st :
  E < 0 \/ M < 1 \/ S < 1 \/ N < 1 \/ W < 1 ->
  (parmL = None ->
     initOnce parmL E M S N W st
     = Returns (Some (NewError "Missing Logger")) st
     /\ (initGate st = false ->
         Init parmL E M S N W st
         = Returns (Some (NewError "Missing Logger")) (set_initGate true st)))
  /\ (forall lg, parmL = Some lg ->
      exists e st' field,
        initOnce parmL E M S N W st = Returns (Some e) st'
        /\ firstInvalid E M S N W = Some field
        /\ String.prefix field (Error e) = true
        /\ seatsSold st' = seatsSold st
        /\ ticketRqstDB st' = ticketRqstDB st
        /\ ticketRoll st' = ticketRoll st
        /\ salesOpen st' = salesOpen st
        /\ totExchanges st' = totExchanges st
        /\ initGate st' = initGate st
        /\ logged st' = logged st
        /\ L st' = lg
        /\ maxExchanges st' = E
        /\ maxMovies st' = (if E <? 0 then maxMovies st else M)
        /\ maxShowings st'
           = (if (E <? 0) || (M <? 1) then maxShowings st else S)
        /\ maxSeats st'
           = (if (E <? 0) || (M <? 1) || (S <? 1) then maxSeats st else N)
        /\ maxWindows st'
           = (if (E <? 0) || (M <? 1) || (S <? 1) || (N <? 1)
              then maxWindows st else W)
        /\ (initGate st = false ->
            Init parmL E M S N W st
            = Returns (Some e) (set_initGate true st'))).
Proof.
  intros Hbad. split.
  { intros ->. split; [reflexivity|]. unfold Init. by intros ->. }
  intros lg ->. unfold Init, initOnce, firstInvalid. cbn.
  destruct (Z.ltb_spec E 0).
  { do 3 eexists. split; [reflexivity|]. split; [reflexivity|].
    split; [apply prefix_append|]. cbn. repeat split; by intros ->. }
  destruct (Z.ltb_spec M 1).
  { do 3 eexists. split; [reflexivity|]. split; [reflexivity|].
    split; [apply prefix_append|]. cbn. repeat split; by intros ->. }
  destruct (Z.ltb_spec S 1).
  { do 3 eexists. split; [reflexivity|]. split; [reflexivity|].
    split; [apply prefix_append|]. cbn. repeat split; by intros ->. }
  destruct (Z.ltb_spec N 1).
  { do 3 eexists. split; [reflexivity|]. split; [reflexivity|].
    split; [apply prefix_append|]. cbn. repeat split; by intros ->. }
  destruct (Z.ltb_spec W 1); [|lia].
  do 3 eexists. split; [reflexivity|]. split; [reflexivity|].
  split; [apply prefix_append|]. cbn. repeat split; by intros ->.
Qed.

Lemma C7_initOnce_rejects_witness :
  (exists e st',
     initOnce (Some (mkLogger "small" 0)) 5 6 0 8 9 zeroState
     = Returns (Some e) st'
     /\ String.prefix "MaxShowings " (Error e) = true
     /\ ticketRqstDB st' = [] /\ salesOpen st' = false
     /\ maxExchanges st' = 5 /\ maxMovies st' = 6)
  /\ initOnce None (-1) 6 7 8 9 zeroState
     = Returns (Some (NewError "Missing Logger")) zeroState.
Proof.
  split.
  - destruct (C7_initOnce_rejects (Some (mkLogger "small" 0)) 5 6 0 8 9
                zeroState) as [_ Hlg].
    + right. right. left. reflexivity.
    + destruct (Hlg (mkLogger "small" 0) eq_refl)
        as (e & st' & field & Hinit & Hfield & Hpre & _ & Hdb & _ & Hopen
            & _ & _ & _ & _ & HE & HM & _).
      exists e, st'. injection Hfield as <-. repeat split; assumption.
  - destruct (C7_initOnce_rejects None (-1) 6 7 8 9 zeroState) as [Hnil _].
    + left. reflexivity.
    + exact (proj1 (Hnil eq_refl)).
Defined.

(** ** The initialization gate *)

(** Behind a shut gate [Init] looks at none of its arguments: it returns
    nil and changes nothing. *)
Lemma Init_gate_shut parmL E M S N W st :
  initGate st = true -> Init parmL E M S N W st = Returns None st.
Proof. unfold Init. by intros ->. Qed.

(** Through an open gate [Init] is [initOnce], and the gate is shut when
    it returns. *)
Lemma Init_gate_open parmL E M S N W st e st' :
  initGate st = false ->
  initOnce parmL E M S N W st = Returns e st' ->
  Init parmL E M S N W st = Returns e (set_initGate true st').
Proof. unfold Init. by intros -> ->. Qed.

(** C8: the code departs from the claim.  A first [Init] with
    [MaxExchanges = -1] returns the error of [initOnce]; every later
    [Init], whatever its arguments, returns nil although the first call
    failed and sales never opened. *)
Theorem C8_Init_after_failed_Init :
  exists e st1,
    Init (Some (mkLogger "small" 0)) (-1) 1 1 1 1 zeroState
    = Returns (Some e) st1
    /\ Error e = "MaxExchanges -1 must not be negative"
    /\ Init (Some (mkLogger "small" 0)) (-1) 1 1 1 1 st1 = Returns None st1
    /\ Init (Some (mkLogger "small" 0)) 5 6 7 8 9 st1 = Returns None st1
    /\ salesOpen st1 = false.
Proof. do 2 eexists. repeat split. Qed.

(** ** Sell: validation *)

Lemma sellEdit_cons st i r rest :
  sellEdit st i (r :: rest)
  = if validRequest st r then sellEdit st (i + 1) rest
    else Some (requestError st i r).
Proof.
  unfold validRequest, requestError, movieInRange, showingInRange. cbn.
  destruct (Z.ltb_spec (TRMovie r) 0), (Z.leb_spec 0 (TRMovie r)); try lia;
    cbn; [done|].
  destruct (Z.leb_spec (maxMovies st) (TRMovie r)),
    (Z.ltb_spec (TRMovie r) (maxMovies st)); try lia; cbn; [done|].
  destruct (Z.ltb_spec (TRShowing r) 0), (Z.leb_spec 0 (TRShowing r));
    try lia; cbn; [done|].
  by destruct (Z.leb_spec (maxShowings st) (TRShowing r)),
    (Z.ltb_spec (TRShowing r) (maxShowings st)); try lia.
Qed.

(** The first loop stops at the first request that is out of range. *)
Lemma sellEdit_first_invalid st reqs : forall i,
  (exists r, r ∈ reqs /\ validRequest st r = false) ->
  exists (k : nat) r,
    reqs !! k = Some r
    /\ validRequest st r = false
    /\ (forall j r', (j < k)%nat -> reqs !! j = Some r' ->
          validRequest st r' = true)
    /\ sellEdit st i reqs = Some (requestError st (i + Z.of_nat k) r).
Proof.
  induction reqs as [|r0 rest IH]; intros i (r & Hin & Hbad).
  - by apply elem_of_nil in Hin.
  - rewrite sellEdit_cons. destruct (validRequest st r0) eqn:Hv0.
    + apply elem_of_cons in Hin as [->|Hin]; [congruence|].
      destruct (IH (i + 1)) as (k & r' & Hk & Hbad' & Hbefore & Hedit);
        [eauto|].
      exists (S k), r'. repeat split; try done.
      * intros [|j] r'' Hj Hr''; cbn in Hr''; [congruence|].
        apply (Hbefore j); [lia|done].
      * rewrite Hedit. do 2 f_equal. lia.
    + exists 0%nat, r0. repeat split; try done.
      * intros j r' Hj. lia.
      * by rewrite Z.add_0_r.
Qed.

Lemma sellEdit_all_valid st reqs : forall i,
  (forall r, r ∈ reqs -> validRequest st r = true) ->
  sellEdit st i reqs = None.
Proof.
  induction reqs as [|r0 rest IH]; intros i Hall; [done|].
  rewrite sellEdit_cons, Hall by apply list_elem_of_here.
  apply IH. intros r Hr. apply Hall. by apply list_elem_of_further.
Qed.

(** C3: with sales open, a [Sell] whose window is below 1 or above
    [maxWindows], or one of whose requests has its movie or showing out of
    range, returns an error that names the window, or the number of the
    first offending request and its offending field; it returns with every
    variable as it was: no ticket number drawn, no seat counter
    incremented, no row written, and the tickets handed back are all
    zero-valued. *)
Theorem C3_invalid_Sell_consumes_nothing st window reqs pay time :
  salesOpen st = true ->
  (window < 1 \/ maxWindows st < window
   \/ exists r, r ∈ reqs /\ validRequest st r = false) ->
  exists e,
    Sell window reqs pay time st
    = Returns (replicate (length reqs) zeroTicket,
               mkReceipt time window [] 0, Some e) st
    /\ ((window < 1 \/ maxWindows st < window) /\
          e = NewError (cat ["Sell failed:  window "; Itoa window;
                             " out of range.  Must be between 1 and ";
                             Itoa (maxWindows st); ", inclusive."])
        \/ (1 <= window <= maxWindows st /\
            exists (k : nat) r,
              reqs !! k = Some r
              /\ validRequest st r = false
              /\ (forall j r', (j < k)%nat -> reqs !! j = Some r' ->
                    validRequest st r' = true)
              /\ e = requestError st (Z.of_nat k) r)).
Proof.
  intros Hopen Hbad. unfold Sell. rewrite Hopen. cbn [negb].
  destruct (Z.ltb_spec window 1) as [Hlow|Hlow].
  { eexists. split; [reflexivity|]. left. split; [lia|done]. }
  destruct (Z.ltb_spec (maxWindows st) window) as [Hhigh|Hhigh].
  { eexists. split; [reflexivity|]. left. split; [lia|done]. }
  cbn [orb]. destruct Hbad as [?|[?|Hreq]]; [lia|lia|].
  destruct (sellEdit_first_invalid st reqs 0 Hreq)
    as (k & r & Hk & Hr & Hbefore & Hedit).
  rewrite Hedit. eexists. split; [reflexivity|]. right. split; [lia|].
  exists k, r. by rewrite Z.add_0_l.
Qed.

Lemma C3_invalid_Sell_consumes_nothing_witness :
  exists e,
    Sell 1 [(0, 1); (0, 2)] [] None smallTheatre
    = Returns ([zeroTicket; zeroTicket], mkReceipt None 1 [] 0, Some e)
        smallTheatre
    /\ Error e
       = "Sell failed:  ticket request 2:  showing 2 not between 0 and 2".
Proof.
  destruct (C3_invalid_Sell_consumes_nothing smallTheatre 1
              [(0, 1); (0, 2)] [] None) as (e & Hsell & Herr).
  - reflexivity.
  - right. right. exists (0, 2). split; [|reflexivity].
    apply list_elem_of_further, list_elem_of_here.
  - exists e. split; [exact Hsell|].
    vm_compute in Hsell. injection Hsell as <-. reflexivity.
Defined.

(** ** Sell: issuing tickets *)

Lemma checkAvailabilityAndPrice_inv m s st p so st' :
  checkAvailabilityAndPrice m s st = Returns (p, so) st' ->
  p = 1000
  /\ ticketRqstDB st' = ticketRqstDB st
  /\ ticketRoll st' = ticketRoll st.
Proof.
  unfold checkAvailabilityAndPrice.
  destruct (index (seatsSold st) m) as [row|]; [|done].
  destruct (index row s) as [sold|]; [|done].
  by intros [= <- <- <-].
Qed.

Lemma nextTicket_inv st t st' :
  nextTicket st = Returns (t, None) st' ->
  exists n row,
    ticketRoll st = OpenChan n
    /\ index (ticketRqstDB st) n = Some row
    /\ t = stamp n row
    /\ st' = set_ticketRqstDB (store (ticketRqstDB st) n (stamp n row))
               (set_ticketRoll (OpenChan (wrapInt (n + 1))) st).
Proof.
  unfold nextTicket. destruct (ticketRoll st) as [| |n] eqn:Hroll; try done.
  cbn. destruct (len (ticketRqstDB st) <=? n); [done|].
  destruct (index (ticketRqstDB st) n) as [row|] eqn:Hrow; [|done].
  intros [= <- <-]. by exists n, row.
Qed.

Lemma updateTicketSale_inv t st st' :
  updateTicketSale t st = Returns None st' ->
  exists row,
    1 <= TicketNum t
    /\ index (ticketRqstDB st) (TicketNum t) = Some row
    /\ st' = set_ticketRqstDB
               (store (ticketRqstDB st) (TicketNum t)
                  (mkTicket (TicketNum row) (Movie t) (Showing t) (Price t)
                     (SoldOut t) (Goodies t) (Exchanged row) (XchOld row)
                     (XchNew row) (Window t))) st.
Proof.
  unfold updateTicketSale.
  destruct (Z.ltb_spec (TicketNum t) 1); [done|].
  destruct (len (ticketRqstDB st) <=? TicketNum t); [done|]. cbn.
  destruct (index (ticketRqstDB st) (TicketNum t)) as [row|] eqn:Hrow; [|done].
  intros [= <-]. by exists row.
Qed.

(** One request served without error: what the body of the loop hands
    on. *)
Lemma sellStep_ok window i trqst tickets receipt total st r st' :
  sellStep window i trqst tickets receipt total st = Returns r st' ->
  sl_err r = None ->
  exists t,
    is_Some (index tickets i)
    /\ sl_tickets r = store tickets i t
    /\ Movie t = TRMovie trqst /\ Showing t = TRShowing trqst
    /\ Price t = 1000 /\ Window t = window
    /\ sl_receipt r
       = (if SoldOut t then receipt else appendItem (itemFor t) receipt)
    /\ sl_totalprice r
       = (if SoldOut t then total else wrapInt (total + 1000)).
Proof.
  unfold sellStep, bind.
  destruct (nextTicket st) as [[t0 [e|]] st1| | |]; try done.
  { intros [= <- <-]. done. }
  destruct (checkAvailabilityAndPrice (TRMovie trqst) (TRShowing trqst) st1)
    as [[p so] st2| | |] eqn:Hcheck; try done.
  apply checkAvailabilityAndPrice_inv in Hcheck as (-> & _).
  destruct (index tickets i) as [old|] eqn:Hold; [|done].
  match goal with |- context [updateTicketSale ?x st2] => set (t := x) end.
  destruct (updateTicketSale t st2) as [[e|] st3| | |]; try done.
  { intros [= <- <-]. done. }
  intros [= <- <-] _. exists t. subst t. cbn.
  repeat split; eauto; by destruct so.
Qed.

Lemma sellIssue_ok window reqs : forall (i : nat) tickets receipt total st r st',
  sellIssue window (Z.of_nat i) reqs tickets receipt total st
    = Returns r st' ->
  sl_err r = None ->
  isInt total ->
  exists issued,
    Forall2 (fun rq t => Movie t = TRMovie rq /\ Showing t = TRShowing rq
                         /\ Price t = 1000 /\ Window t = window)
            reqs issued
    /\ length (sl_tickets r) = length tickets
    /\ (forall j, (j < i)%nat -> sl_tickets r !! j = tickets !! j)
    /\ (forall k t, issued !! k = Some t ->
          sl_tickets r !! (i + k)%nat = Some t)
    /\ sl_receipt r
       = mkReceipt (Time receipt) (RWindow receipt)
           (ItemsSold receipt ++ (itemFor <$> filter sold issued))
           (Total receipt)
    /\ sl_totalprice r
       = wrapInt (total + 1000 * Z.of_nat (length (filter sold issued))).
Proof.
  induction reqs as [|rq rest IH];
    intros i tickets receipt total st r st' Hrun Herr Htot.
  - cbn in Hrun. injection Hrun as <- <-. exists []. cbn.
    repeat split; try done.
    + by rewrite app_nil_r; destruct receipt.
    + by rewrite Z.add_0_r, wrapInt_small.
  - cbn [sellIssue] in Hrun. unfold bind in Hrun.
    destruct (sellStep window (Z.of_nat i) rq tickets receipt total st)
      as [r1 st1| | |] eqn:Hstep; try done.
    destruct (sl_err r1) as [e|] eqn:Herr1.
    { injection Hrun as <- <-. congruence. }
    destruct (sellStep_ok _ _ _ _ _ _ _ _ _ Hstep Herr1)
      as (t & Hslot & Htk & Hmv & Hsh & Hpr & Hwin & Hrc & Htt).
    replace (Z.of_nat i + 1) with (Z.of_nat (S i)) in Hrun by lia.
    apply IH in Hrun as (issued & Hall & Hlen & Hbelow & Hat & Hrcp & Htotal);
      [|done|rewrite Htt; destruct (SoldOut t); [done|apply wrapInt_isInt]].
    assert (Hi : (i < length tickets)%nat).
    { destruct Hslot as [old Hold]. apply index_Some in Hold.
      unfold len in Hold. lia. }
    assert (Hstore : sl_tickets r1 = <[i:=t]> tickets).
    { rewrite Htk. unfold store. by rewrite Nat2Z.id. }
    exists (t :: issued). split; [by constructor|].
    split; [by rewrite Hlen, Hstore, length_insert|].
    split; [|split; [|split]].
    + intros j Hj. rewrite Hbelow by lia.
      rewrite Hstore. apply list_lookup_insert_ne. lia.
    + intros [|k] t' Hk; cbn in Hk.
      * injection Hk as <-. rewrite Nat.add_0_r, Hbelow by lia.
        rewrite Hstore. by apply list_lookup_insert_eq.
      * replace (i + S k)%nat with (S i + k)%nat by lia. by apply Hat.
    + rewrite Hrcp, Hrc, filter_cons.
      destruct (decide (sold t)) as [Hs|Hs]; unfold sold in Hs.
      * rewrite Hs. cbn. by rewrite <- app_assoc.
      * by destruct (SoldOut t).
    + rewrite Htotal, Htt, filter_cons.
      destruct (decide (sold t)) as [Hs|Hs]; unfold sold in Hs.
      * rewrite Hs. unfold wrapInt. rewrite wrap_add_l. f_equal.
        cbn [length]. lia.
      * by destruct (SoldOut t).
Qed.

(** A [Sell] that returns without error went through both loops. *)
Lemma Sell_ok st window reqs pay time tickets receipt st' :
  Sell window reqs pay time st = Returns (tickets, receipt, None) st' ->
  exists r st1,
    sellIssue window 0 reqs (replicate (length reqs) zeroTicket)
      (mkReceipt time window [] 0) 0 st = Returns r st1
    /\ sl_err r = None
    /\ tickets = sl_tickets r
    /\ receipt = set_Total (sl_totalprice r) (sl_receipt r)
    /\ st' = Printf (LogSell window tickets receipt) st1
    /\ salesOpen st = true
    /\ 1 <= window <= maxWindows st
    /\ sellEdit st 0 reqs = None.
Proof.
  unfold Sell. destruct (salesOpen st); [|done]. cbn [negb].
  destruct (Z.ltb_spec window 1); [done|].
  destruct (Z.ltb_spec (maxWindows st) window); [done|]. cbn [orb].
  destruct (sellEdit st 0 reqs); [done|]. unfold bind.
  destruct (sellIssue _ _ _ _ _ _ st) as [r st1| | |]; try done.
  destruct (sl_err r) eqn:Herr; [done|].
  intros [= <- <- <-]. exists r, st1. repeat split; done || lia.
Qed.

Lemma same_lookups {A} (l k : list A) :
  length l = length k ->
  (forall i x, k !! i = Some x -> l !! i = Some x) ->
  l = k.
Proof.
  intros Hlen Hsame. apply list_eq. intros i.
  destruct (k !! i) as [x|] eqn:Hk; [by apply Hsame|].
  apply lookup_ge_None. apply lookup_ge_None in Hk. lia.
Qed.

Lemma sumPennies_flat (ts : list Ticket) :
  Forall (fun t => Price t = 1000) ts ->
  sumPennies (itemFor <$> ts) = 1000 * Z.of_nat (length ts).
Proof.
  induction 1 as [|t ts Hp _ IH]; [done|].
  cbn [fmap list_fmap length sumPennies foldr] in *.
  fold (sumPennies (itemFor <$> ts)). rewrite IH. cbn [itemFor Pennies]. lia.
Qed.

(** C5: after a [Sell] that succeeds, the tickets come back in request
    order, one per request with its movie and showing, every one priced
    1000 whatever the movie and showing; the receipt has exactly one line
    item per ticket that is not sold out, in the same order; its total is
    the sum of those line-item prices, 1000 per sold ticket; the sold-out
    placeholders are in the ticket list at their request position and
    add nothing to line items or total.  (The request list is short
    enough for 1000 per request not to overflow an [int], as any slice
    that fits in memory is.) *)
Theorem C5_receipt_of_successful_Sell
    st window reqs pay time tickets receipt st' :
  Sell window reqs pay time st = Returns (tickets, receipt, None) st' ->
  1000 * len reqs <= maxInt ->
  Forall2 (fun rq t => Movie t = TRMovie rq /\ Showing t = TRShowing rq
                       /\ Price t = 1000 /\ Window t = window)
          reqs tickets
  /\ ItemsSold receipt = itemFor <$> filter sold tickets
  /\ Total receipt = sumPennies (ItemsSold receipt)
  /\ Total receipt = 1000 * Z.of_nat (length (filter sold tickets))
  /\ RWindow receipt = window /\ Time receipt = time.
Proof.
  intros Hsell Hsize.
  destruct (Sell_ok _ _ _ _ _ _ _ _ Hsell)
    as (r & st1 & Hrun & Herr & -> & -> & _).
  apply (sellIssue_ok window reqs 0) in Hrun
    as (issued & Hall & Hlen & _ & Hat & Hrcp & Htotal); try done.
  assert (Hiss : sl_tickets r = issued).
  { apply same_lookups; [|exact Hat].
    rewrite Hlen, length_replicate. by apply Forall2_length in Hall. }
  rewrite Hiss in *. clear Hiss.
  assert (Hcount : (length (filter sold issued) <= length reqs)%nat).
  { rewrite (Forall2_length _ _ _ Hall). apply length_filter. }
  assert (Hsum : sl_totalprice r
                 = 1000 * Z.of_nat (length (filter sold issued))).
  { rewrite Htotal. apply wrapInt_small.
    unfold isInt, minInt, maxInt, len in *. lia. }
  split; [done|]. rewrite Hrcp. cbn. repeat split; try done.
  rewrite Hsum. symmetry. apply sumPennies_flat.
  apply Forall_forall. intros t Ht%list_elem_of_filter.
  destruct Ht as [_ Ht]. apply list_elem_of_lookup in Ht as [k Hk].
  by destruct (Forall2_lookup_r _ _ _ _ _ Hall Hk) as (rq & _ & _ & _ & Hp & _).
Qed.

Lemma C5_receipt_of_successful_Sell_witness :
  Sell 1 [(0, 0); (0, 0); (0, 0)] [] None smallTheatre
  = Returns (saleTickets, saleReceipt, None) afterSale
  /\ ItemsSold saleReceipt = itemFor <$> filter sold saleTickets
  /\ Total saleReceipt = sumPennies (ItemsSold saleReceipt).
Proof.
  assert (Hsell : Sell 1 [(0, 0); (0, 0); (0, 0)] [] None smallTheatre
                  = Returns (saleTickets, saleReceipt, None) afterSale)
    by reflexivity.
  split; [exact Hsell|].
  destruct (C5_receipt_of_successful_Sell _ _ _ _ _ _ _ _ Hsell)
    as (_ & Hitems & Htotal & _).
  - vm_compute. discriminate.
  - split; assumption.
Defined.

(** ** The table ahead of the roll *)

Lemma storeOK_initOnce lg E M S N W st st' :
  initOnce (Some lg) E M S N W st = Returns None st' -> storeOK st'.
Proof.
  intros Hinit.
  destruct (initOnce_ok _ _ _ _ _ _ _ _ Hinit)
    as (_ & _ & _ & _ & _ & Hcap & ->).
  split; cbn.
  - rewrite len_replicate. lia.
  - intros n [= <-]. lia.
  - intros n j row _ _ Hrow. by apply index_replicate in Hrow.
Qed.

(** Moving the roll one step on and rewriting only the row it stood at
    keeps the table in order. *)
Lemma storeOK_advance st st' n :
  storeOK st ->
  ticketRoll st = OpenChan n ->
  n < len (ticketRqstDB st) ->
  ticketRoll st' = OpenChan (n + 1) ->
  len (ticketRqstDB st') = len (ticketRqstDB st) ->
  (forall j, n < j -> index (ticketRqstDB st') j = index (ticketRqstDB st) j) ->
  storeOK st'.
Proof.
  intros [Hlen Hroll Hfresh] Hn Hroom Hn' Hlen' Hsame. split.
  - lia.
  - intros m Hm. rewrite Hn' in Hm. injection Hm as <-.
    specialize (Hroll n Hn). lia.
  - intros m j row Hm Hj Hrow. rewrite Hn' in Hm. injection Hm as <-.
    rewrite Hsame in Hrow by lia. apply (Hfresh n j); [done|lia|done].
Qed.

(** Rewriting a row below the roll keeps the table in order. *)
Lemma storeOK_rewrite st db k row :
  storeOK st ->
  (forall n, ticketRoll st = OpenChan n -> k < n) ->
  0 <= k ->
  db = store (ticketRqstDB st) k row ->
  storeOK (set_ticketRqstDB db st).
Proof.
  intros [Hlen Hroll Hfresh] Hbelow Hk ->. split; cbn.
  - by rewrite len_store.
  - done.
  - intros n j row' Hn Hj Hrow'. specialize (Hbelow n Hn).
    rewrite index_store_ne in Hrow' by lia. by apply (Hfresh n j).
Qed.

Lemma nextTicket_err_inv st t e st' :
  nextTicket st = Returns (t, Some e) st' -> st' = st /\ t = zeroTicket.
Proof.
  unfold nextTicket. destruct (ticketRoll st) as [| |n]; try done.
  - by intros [= <- _ <-].
  - cbn. destruct (len (ticketRqstDB st) <=? n); [done|].
    by destruct (index (ticketRqstDB st) n).
Qed.

Lemma updateTicketSale_err_inv t e st st' :
  updateTicketSale t st = Returns (Some e) st' -> st' = st.
Proof.
  unfold updateTicketSale.
  destruct ((TicketNum t <? 1) || (len (ticketRqstDB st) <=? TicketNum t)).
  - by intros [= _ <-].
  - by destruct (index (ticketRqstDB st) (TicketNum t)).
Qed.

Lemma sellStep_gated window i trqst tickets receipt total st r st' :
  storeOK st ->
  Forall (gated window) tickets ->
  sellStep window i trqst tickets receipt total st = Returns r st' ->
  storeOK st' /\ Forall (gated window) (sl_tickets r).
Proof.
  intros Hok Hall. unfold sellStep, bind.
  destruct (nextTicket st) as [[t0 [e|]] st1| | |] eqn:Hnext; try done.
  { apply nextTicket_err_inv in Hnext as [-> _]. by intros [= <- <-]. }
  apply nextTicket_inv in Hnext as (n & row & Hn & Hrow & -> & ->).
  assert (Hzero : row = zeroTicket) by (by apply (ok_fresh _ Hok n n)).
  pose proof (ok_roll _ Hok n Hn) as Hpos.
  pose proof (ok_len _ Hok) as Hlen.
  pose proof (index_Some _ _ _ Hrow) as Hroom.
  subst row.
  rewrite wrapInt_small by (unfold isInt, minInt, maxInt in *; lia).
  match goal with |- context [checkAvailabilityAndPrice _ _ ?s] =>
    set (st1 := s) end.
  destruct (checkAvailabilityAndPrice (TRMovie trqst) (TRShowing trqst) st1)
    as [[p so] st2| | |] eqn:Hcheck; try done.
  apply checkAvailabilityAndPrice_inv in Hcheck as (-> & Hdb2 & Hroll2).
  destruct (index tickets i) as [old|] eqn:Hold; [|done].
  match goal with |- context [updateTicketSale ?x st2] => set (t := x) end.
  assert (Hgated : gated window t).
  { right. subst t. split; [|split; [done|cbn; by destruct so, (window =? 1)]].
    intros Hz. apply (f_equal Price) in Hz. discriminate. }
  assert (Htickets : Forall (gated window) (store tickets i t)).
  { unfold store. by apply Forall_insert. }
  assert (Hok2 : storeOK st2).
  { apply (storeOK_advance st st2 n Hok Hn); [lia| | |].
    - by rewrite Hroll2.
    - rewrite Hdb2. subst st1. cbn. apply len_store.
    - intros j Hj. rewrite Hdb2. subst st1. cbn.
      apply index_store_ne; lia. }
  destruct (updateTicketSale t st2) as [[e|] st3| | |] eqn:Hupd; try done.
  { apply updateTicketSale_err_inv in Hupd as ->. by intros [= <- <-]. }
  apply updateTicketSale_inv in Hupd as (row & _ & _ & ->).
  intros [= <- <-]. split; [|done].
  eapply storeOK_rewrite; [exact Hok2| |shelve|reflexivity].
  - intros m Hm. rewrite Hroll2 in Hm. subst st1 t. cbn in *.
    injection Hm as <-. lia.
  Unshelve. subst t. cbn. lia.
Qed.

Lemma sellIssue_gated window reqs : forall i tickets receipt total st r st',
  storeOK st ->
  Forall (gated window) tickets ->
  sellIssue window i reqs tickets receipt total st = Returns r st' ->
  storeOK st' /\ Forall (gated window) (sl_tickets r).
Proof.
  induction reqs as [|rq rest IH];
    intros i tickets receipt total st r st' Hok Hall Hrun.
  - cbn in Hrun. by injection Hrun as <- <-.
  - cbn [sellIssue] in Hrun. unfold bind in Hrun.
    destruct (sellStep window i rq tickets receipt total st)
      as [r1 st1| | |] eqn:Hstep; try done.
    destruct (sellStep_gated _ _ _ _ _ _ _ _ _ Hok Hall Hstep) as [Hok1 Hall1].
    destruct (sl_err r1).
    + by injection Hrun as <- <-.
    + by apply IH in Hrun.
Qed.

Lemma gated_zero window n : Forall (gated window) (replicate n zeroTicket).
Proof. apply Forall_replicate. by left. Qed.

Lemma storeOK_Printf e st : storeOK st -> storeOK (Printf e st).
Proof. intros [Hlen Hroll Hfresh]. by split. Qed.

(** Whatever way [Sell] returns, the table stays in order and every ticket
    handed back is either untouched or gated. *)
Lemma Sell_gated st window reqs pay time tickets receipt err st' :
  storeOK st ->
  Sell window reqs pay time st = Returns (tickets, receipt, err) st' ->
  storeOK st' /\ Forall (gated window) tickets.
Proof.
  intros Hok. unfold Sell. destruct (salesOpen st); cbn [negb].
  2:{ intros [= <- _ _ <-]. split; [done|constructor]. }
  destruct ((window <? 1) || (maxWindows st <? window)).
  { intros [= <- _ _ <-]. split; [done|apply gated_zero]. }
  destruct (sellEdit st 0 reqs).
  { intros [= <- _ _ <-]. split; [done|apply gated_zero]. }
  unfold bind.
  destruct (sellIssue _ _ _ _ _ _ st) as [r st1| | |] eqn:Hrun; try done.
  apply sellIssue_gated in Hrun as [Hok1 Hall]; [|done|apply gated_zero].
  destruct (sl_err r).
  - by intros [= <- _ _ <-].
  - intros [= <- _ _ <-]. split; [by apply storeOK_Printf|done].
Qed.

Lemma readTicket_state tickNum st r st' :
  readTicket tickNum st = Returns r st' -> st' = st.
Proof.
  unfold readTicket.
  destruct ((tickNum <? 1) || (len (ticketRqstDB st) <=? tickNum));
    [by intros [= _ <-]|].
  destruct (tickNum =? 0); [by intros [= _ <-]|].
  destruct (index (ticketRqstDB st) tickNum) as [row|]; [|done].
  destruct (tickNum =? TicketNum row); [by intros [= _ <-]|done].
Qed.

(** [Exchange] keeps the table in order as well: it only rewrites a row
    that carries its own number, hence one below the roll. *)
Lemma Exchange_storeOK st tickNum old new e st' :
  storeOK st ->
  Exchange tickNum old new st = Returns e st' ->
  storeOK st'.
Proof.
  intros Hok. destruct (salesOpen st) eqn:Hopen.
  2:{ unfold Exchange. rewrite Hopen. by intros [= _ <-]. }
  destruct (readTicket tickNum st) as [[t [e0|]] st1| | |] eqn:Hread.
  - unfold Exchange, bind. rewrite Hopen, Hread. cbn.
    apply readTicket_state in Hread as ->. by intros [= _ <-].
  - rewrite (Exchange_after_read _ _ old new _ _ Hopen Hread).
    destruct (readTicket_ok _ _ _ _ Hread) as (_ & Hrange & Hrow & Hnum).
    destruct (SoldOut t); [by intros [= _ <-]|].
    destruct (negb (Goodies t)); [by intros [= _ <-]|].
    destruct (Exchanged t); [by intros [= _ <-]|].
    destruct (maxExchanges st <=? totExchanges st); [by intros [= _ <-]|].
    intros [= _ <-].
    apply (storeOK_rewrite
             (set_totExchanges (wrapInt (totExchanges st + 1)) st) _
             tickNum (set_exchange old new t)); [|cbn|lia|done].
    + destruct Hok as [Hlen Hroll Hfresh]. by split.
    + intros n Hn. destruct (Z.lt_ge_cases tickNum n) as [|Hge]; [done|].
      pose proof (ok_fresh _ Hok n tickNum t Hn Hge Hrow) as ->.
      cbn in Hnum. lia.
  - unfold Exchange, bind. by rewrite Hopen, Hread.
  - unfold Exchange, bind. by rewrite Hopen, Hread.
  - unfold Exchange, bind. by rewrite Hopen, Hread.
Qed.

(** C9: in a theatre whose table is in order (as [initOnce] leaves it and
    [Sell] and [Exchange] keep it), every ticket that [Sell] hands back
    for a window other than 1 has [Goodies = false], sold out or not, and
    a ticket has [Goodies = true] only if it was sold, not sold out,
    through window 1; after a [Sell] without error every ticket sold
    through window 1 does have its goodies. *)
Theorem C9_goodie_gating st window reqs pay time tickets receipt err st' :
  storeOK st ->
  Sell window reqs pay time st = Returns (tickets, receipt, err) st' ->
  forall t, t ∈ tickets ->
    (window <> 1 -> Goodies t = false)
    /\ (Goodies t = true -> window = 1 /\ SoldOut t = false)
    /\ (err = None -> window = 1 -> SoldOut t = false -> Goodies t = true).
Proof.
  intros Hok Hsell t Ht.
  destruct (Sell_gated _ _ _ _ _ _ _ _ _ Hok Hsell) as [_ Hall].
  rewrite Forall_forall in Hall. specialize (Hall t Ht).
  split; [|split].
  - intros Hw. destruct Hall as [->|(_ & _ & ->)]; [done|].
    destruct (Z.eqb_spec window 1); [done|]. by rewrite andb_false_r.
  - intros Hg. destruct Hall as [->|(_ & _ & Hgood)]; [done|].
    rewrite Hg in Hgood. symmetry in Hgood.
    apply andb_true_iff in Hgood as [Hs Hw].
    split; [lia|by destruct (SoldOut t)].
  - intros -> -> Hs.
    destruct (Sell_ok _ _ _ _ _ _ _ _ Hsell)
      as (r & st1 & Hrun & Herr & -> & _).
    apply (sellIssue_ok 1 reqs 0) in Hrun
      as (issued & Hreqs & Hlen & _ & Hat & _); try done.
    assert (Hiss : sl_tickets r = issued).
    { apply same_lookups; [|exact Hat].
      rewrite Hlen, length_replicate. by apply Forall2_length in Hreqs. }
    rewrite Hiss in Ht. apply list_elem_of_lookup in Ht as [k Hk].
    destruct (Forall2_lookup_r _ _ _ _ _ Hreqs Hk)
      as (rq & _ & _ & _ & Hp & _).
    destruct Hall as [->|(_ & _ & ->)]; [done|]. by rewrite Hs.
Qed.

Lemma C9_goodie_gating_witness :
  storeOK smallTheatre
  /\ forall t, t ∈ saleTickets ->
       (Goodies t = true -> 1 = 1 /\ SoldOut t = false)
       /\ (SoldOut t = false -> Goodies t = true).
Proof.
  assert (Hok : storeOK smallTheatre).
  { apply (storeOK_initOnce (mkLogger "small" 0) 5 1 2 2 1 zeroState).
    reflexivity. }
  split; [exact Hok|]. intros t Ht.
  destruct (C9_goodie_gating smallTheatre 1 [(0, 0); (0, 0); (0, 0)] [] None
              saleTickets saleReceipt None afterSale Hok eq_refl t Ht)
    as (_ & Honly & Hhas).
  split; [exact Honly|]. intros Hs. by apply Hhas.
Defined.

(** * Further properties of the library *)

(** ** The seat ledger under [Sell] *)

Lemma ledgerOK_seatCount st r :
  ledgerOK st -> validRequest st r = true ->
  exists row c,
    index (seatsSold st) (TRMovie r) = Some row
    /\ index row (TRShowing r) = Some c
    /\ isInt32 c.
Proof.
  intros [Hrows Hshape] Hvalid.
  unfold validRequest, movieInRange, showingInRange in Hvalid.
  apply andb_true_iff in Hvalid as [Hm Hs].
  apply andb_true_iff in Hm as [Hm0 Hm1]. apply andb_true_iff in Hs as [Hs0 Hs1].
  destruct (index_in_range (seatsSold st) (TRMovie r)) as [row Hrow]; [lia|].
  assert (Hin : row ∈ seatsSold st).
  { unfold index in Hrow. destruct (TRMovie r <? 0); [done|].
    by apply list_elem_of_lookup_2 in Hrow. }
  rewrite Forall_forall in Hshape. destruct (Hshape row Hin) as [Hlen Hints].
  destruct (index_in_range row (TRShowing r)) as [c Hc]; [lia|].
  exists row, c. split; [done|]. split; [done|].
  rewrite Forall_forall in Hints. apply Hints.
  unfold index in Hc. destruct (TRShowing r <? 0); [done|].
  by apply list_elem_of_lookup_2 in Hc.
Qed.

Lemma checkAvailabilityAndPrice_exact st m s row c :
  index (seatsSold st) m = Some row ->
  index row s = Some c ->
  checkAvailabilityAndPrice m s st
  = Returns (1000, maxSeats st <? wrapInt32 (c + 1))
      (set_seatsSold
         (store (seatsSold st) m (store row s (wrapInt32 (c + 1)))) st).
Proof. unfold checkAvailabilityAndPrice. by intros -> ->. Qed.

Lemma ledgerOK_bump st m s row c :
  ledgerOK st ->
  index (seatsSold st) m = Some row ->
  ledgerOK (set_seatsSold
              (store (seatsSold st) m (store row s (wrapInt32 (c + 1)))) st).
Proof.
  intros [Hrows Hshape] Hrow. split; cbn.
  - by rewrite len_store.
  - unfold store. apply Forall_insert; [done|].
    assert (Hin : row ∈ seatsSold st).
    { unfold index in Hrow. destruct (m <? 0); [done|].
      by apply list_elem_of_lookup_2 in Hrow. }
    rewrite Forall_forall in Hshape. destruct (Hshape row Hin) as [Hlen Hints].
    split.
    + by rewrite <- Hlen; apply len_store.
    + apply Forall_insert; [done|apply wrapInt32_isInt32].
Qed.

Lemma seatCount_bump_other st m s row c m' s' :
  index (seatsSold st) m = Some row ->
  index row s = Some c ->
  0 <= m' -> 0 <= s' -> (m', s') <> (m, s) ->
  seatCount (set_seatsSold
               (store (seatsSold st) m (store row s (wrapInt32 (c + 1)))) st)
            m' s'
  = seatCount st m' s'.
Proof.
  intros Hrow Hc Hm' Hs' Hne. unfold seatCount. cbn.
  pose proof (index_Some _ _ _ Hrow) as Hm.
  pose proof (index_Some _ _ _ Hc) as Hs.
  destruct (Z.eq_dec m' m) as [->|Hmne].
  - rewrite index_store_eq, Hrow by done.
    destruct (Z.eq_dec s' s) as [->|Hsne]; [congruence|].
    by rewrite index_store_ne by lia.
  - by rewrite index_store_ne by lia.
Qed.

(** ** One request served *)

Lemma store_store {A} (l : list A) i x y :
  store (store l i x) i y = store l i y.
Proof. unfold store. apply list_insert_insert_eq. Qed.

(** The body of the loop of [Sell], run in a theatre in order with room
    left in the table, on a request in range. *)
Lemma sellStep_exact window i rq tickets receipt total st n row c :
  theatreOK st n ->
  n < len (ticketRqstDB st) ->
  is_Some (index tickets i) ->
  index (seatsSold st) (TRMovie rq) = Some row ->
  index row (TRShowing rq) = Some c ->
  let t := issuedTicket st n window rq c in
  sellStep window i rq tickets receipt total st
  = Returns
      (mkSellLoop (store tickets i t)
         (if SoldOut t then receipt else appendItem (itemFor t) receipt)
         (if SoldOut t then total else wrapInt (total + 1000))
         None)
      (set_ticketRqstDB (store (ticketRqstDB st) n t)
         (set_seatsSold (consumeSeat (seatsSold st) rq row c)
            (set_ticketRoll (OpenChan (n + 1)) st))).
Proof.
  intros [Hok Hroll _ _ _] Hroom [old Hold] Hrow Hc t.
  pose proof (ok_roll _ Hok n Hroll) as Hpos.
  pose proof (ok_len _ Hok) as Hlen.
  destruct (nextTicket_issues st n Hroll) as (r0 & Hr0 & Hnext); [lia|].
  assert (Hzero : r0 = zeroTicket) by (by apply (ok_fresh _ Hok n n)).
  subst r0. rewrite wrapInt_small in Hnext
    by (unfold isInt, minInt, maxInt in *; lia).
  unfold sellStep. unfold bind at 1. rewrite Hnext. cbn [stamp zeroTicket].
  unfold bind at 1.
  erewrite checkAvailabilityAndPrice_exact by (cbn; eassumption).
  rewrite Hold. unfold bind, updateTicketSale. cbn.
  rewrite len_store.
  destruct (Z.ltb_spec n 1); [lia|].
  destruct (Z.leb_spec (len (ticketRqstDB st)) n); [lia|]. cbn.
  rewrite index_store_eq by lia. unfold ret. cbn.
  rewrite store_store. subst t. unfold issuedTicket, consumeSeat.
  by destruct (maxSeats st <? wrapInt32 (c + 1)), (window =? 1).
Qed.

Lemma ledgerOK_ext st st' :
  seatsSold st' = seatsSold st ->
  maxMovies st' = maxMovies st ->
  maxShowings st' = maxShowings st ->
  ledgerOK st -> ledgerOK st'.
Proof. unfold ledgerOK. by intros -> -> ->. Qed.

(** Serving one request keeps the theatre in order and moves the roll one
    step on. *)
Lemma theatreOK_step st n window rq row c :
  theatreOK st n ->
  n < len (ticketRqstDB st) ->
  index (seatsSold st) (TRMovie rq) = Some row ->
  index row (TRShowing rq) = Some c ->
  theatreOK
    (set_ticketRqstDB
       (store (ticketRqstDB st) n (issuedTicket st n window rq c))
       (set_seatsSold (consumeSeat (seatsSold st) rq row c)
          (set_ticketRoll (OpenChan (n + 1)) st)))
    (n + 1).
Proof.
  intros [Hok Hroll Hstamped Hledger Hopen] Hroom Hrow Hc.
  pose proof (ok_roll _ Hok n Hroll) as Hpos.
  split; cbn; try done.
  - apply (storeOK_advance st _ n Hok Hroll Hroom); cbn; try done.
    + apply len_store.
    + intros j Hj. apply index_store_ne; lia.
  - intros j r Hj Hr. destruct (Z.eq_dec j n) as [->|Hne].
    + rewrite index_store_eq in Hr by lia. by injection Hr as <-.
    + rewrite index_store_ne in Hr by lia. apply Hstamped; [lia|done].
  - eapply ledgerOK_ext;
      [..|exact (ledgerOK_bump st (TRMovie rq) (TRShowing rq) row c
                   Hledger Hrow)]; done.
Qed.

Lemma requestsFor_cons m s rq rest :
  requestsFor m s (rq :: rest)
  = (if decide (rq = (m, s)) then 1 else 0) + requestsFor m s rest.
Proof.
  unfold requestsFor, Request in *. rewrite filter_cons.
  repeat case_decide; try congruence; cbn [length]; lia.
Qed.

(** The second loop of [Sell] in a theatre in order, on requests in range
    and with room for all of them in the table. *)
Lemma sellIssue_run window reqs :
  forall (i : nat) tickets receipt total st n,
  theatreOK st n ->
  (forall r, r ∈ reqs -> validRequest st r = true) ->
  (i + length reqs <= length tickets)%nat ->
  n + len reqs <= len (ticketRqstDB st) ->
  isInt total ->
  exists r st',
    sellIssue window (Z.of_nat i) reqs tickets receipt total st
      = Returns r st'
    /\ sl_err r = None
    /\ theatreOK st' (n + len reqs)
    /\ (forall k t, (k < length reqs)%nat ->
          sl_tickets r !! (i + k)%nat = Some t ->
          TicketNum t = n + Z.of_nat k
          /\ index (ticketRqstDB st') (n + Z.of_nat k) = Some t)
    /\ (forall j, 0 <= j < n ->
          index (ticketRqstDB st') j = index (ticketRqstDB st) j)
    /\ len (ticketRqstDB st') = len (ticketRqstDB st)
    /\ (forall m s c, 0 <= m -> 0 <= s ->
          seatCount st m s = Some c -> isInt32 c ->
          seatCount st' m s = Some (wrapInt32 (c + requestsFor m s reqs)))
    /\ st' = set_ticketRqstDB (ticketRqstDB st')
               (set_seatsSold (seatsSold st')
                  (set_ticketRoll (ticketRoll st') st)).
Proof.
  induction reqs as [|rq rest IH];
    intros i tickets receipt total st n Hth Hvalid Hfit Hroom Htot.
  - exists (mkSellLoop tickets receipt total None), st.
    cbn [sellIssue ret]. unfold len in *. cbn [length] in *.
    rewrite Z.add_0_r.
    split; [done|]. split; [done|]. split; [done|].
    split; [intros k t Hk; lia|]. split; [done|]. split; [done|]. split.
    + intros m s c _ _ Hc Hint. unfold requestsFor. cbn.
      by rewrite Z.add_0_r, wrapInt32_small.
    + by destruct st.
  - assert (Hrq : validRequest st rq = true)
      by apply Hvalid, list_elem_of_here.
    destruct (ledgerOK_seatCount st rq (th_ledger _ _ Hth) Hrq)
      as (row & c & Hrow & Hc & Hcint).
    unfold len in Hroom. cbn [length] in Hroom, Hfit.
    assert (Hn : n < len (ticketRqstDB st)) by (unfold len; lia).
    assert (Hslot : is_Some (index tickets (Z.of_nat i))).
    { destruct (index_in_range tickets (Z.of_nat i)) as [x Hx];
        [unfold len; lia|eauto]. }
    pose proof (sellStep_exact window (Z.of_nat i) rq tickets receipt total
                  st n row c Hth Hn Hslot Hrow Hc) as Hstep.
    cbn zeta in Hstep.
    pose proof (theatreOK_step st n window rq row c Hth Hn Hrow Hc) as Hth1.
    pose proof (ok_roll _ (th_store _ _ Hth) n (th_roll _ _ Hth)) as Hpos.
    set (t := issuedTicket st n window rq c) in *.
    match type of Hstep with _ = Returns ?x ?y =>
      set (r1 := x) in *; set (st1 := y) in * end.
    destruct (IH (S i) (sl_tickets r1) (sl_receipt r1) (sl_totalprice r1)
                st1 (n + 1) Hth1)
      as (r & st' & Hrun & Herr & Hth' & Hticks & Hbelow & Hlen & Hseats
          & Hframe).
    { intros r Hr. rewrite <- (Hvalid r) by by apply list_elem_of_further.
      done. }
    { subst r1. cbn. unfold store. rewrite length_insert. lia. }
    { subst st1. cbn. rewrite len_store. unfold len. lia. }
    { subst r1 t. cbn.
      destruct (maxSeats st <? wrapInt32 (c + 1));
        [exact Htot|apply wrapInt_isInt]. }
    exists r, st'.
    destruct (sellIssue_ok window rest (S i) _ _ _ _ _ _ Hrun Herr)
      as (_ & _ & _ & Hkeep & _).
    { subst r1 t. cbn.
      destruct (maxSeats st <? wrapInt32 (c + 1));
        [exact Htot|apply wrapInt_isInt]. }
    split.
    { cbn [sellIssue]. unfold bind at 1. rewrite Hstep.
      replace (Z.of_nat i + 1) with (Z.of_nat (S i)) by lia. done. }
    split; [done|]. split.
    { replace (n + len (rq :: rest)) with (n + 1 + len rest)
        by (unfold len; cbn [length]; lia). done. }
    split.
    { intros [|k] t' Hk Ht'.
      - rewrite Nat.add_0_r, Hkeep in Ht' by lia.
        subst r1. cbn in Ht'. unfold store in Ht'. rewrite Nat2Z.id in Ht'.
        rewrite list_lookup_insert_eq in Ht' by lia.
        injection Ht' as <-. rewrite Z.add_0_r. split; [done|].
        rewrite Hbelow by lia. subst st1. cbn.
        apply index_store_eq. lia.
      - replace (i + S k)%nat with (S i + k)%nat in Ht' by lia.
        destruct (Hticks k t' ltac:(cbn [length] in Hk; lia) Ht') as [H1 H2].
        replace (n + Z.of_nat (S k)) with (n + 1 + Z.of_nat k) by lia.
        done. }
    split.
    { intros j Hj. rewrite Hbelow by lia. subst st1. cbn.
      apply index_store_ne; lia. }
    split.
    { rewrite Hlen. subst st1. cbn. apply len_store. }
    split.
    { intros m s c0 Hm Hs Hc0 Hint. rewrite requestsFor_cons.
      destruct (decide (rq = (m, s))) as [->|Hne].
      - cbn in Hrow, Hc. unfold seatCount in Hc0. rewrite Hrow, Hc in Hc0.
        injection Hc0 as ->.
        rewrite (Hseats m s (wrapInt32 (c0 + 1))); try done.
        + rewrite wrapInt32_add_l. do 2 f_equal. lia.
        + subst st1. unfold seatCount, consumeSeat. cbn.
          rewrite index_store_eq by eauto using index_Some.
          apply index_store_eq. eauto using index_Some.
        + apply wrapInt32_isInt32.
      - rewrite (Hseats m s c0); try done.
        subst st1. unfold consumeSeat.
        rewrite <- Hc0.
        apply (seatCount_bump_other
                 (set_ticketRqstDB (store (ticketRqstDB st) n t)
                    (set_ticketRoll (OpenChan (n + 1)) st))
                 (TRMovie rq) (TRShowing rq) row c m s); try done.
        destruct rq. cbn. congruence. }
    rewrite Hframe. subst st1. by destruct st.
Qed.

(** The second loop of [Sell] when the table has no room for all of the
    requests: the draw that finds the roll at the end of the table ends
    the program. *)
Lemma sellIssue_exhausts window reqs :
  forall (i : nat) tickets receipt total st n,
  theatreOK st n ->
  (forall r, r ∈ reqs -> validRequest st r = true) ->
  (i + length reqs <= length tickets)%nat ->
  reqs <> [] ->
  len (ticketRqstDB st) < n + len reqs ->
  exists stx,
    sellIssue window (Z.of_nat i) reqs tickets receipt total st
    = Exits 1 stx.
Proof.
  induction reqs as [|rq rest IH];
    intros i tickets receipt total st n Hth Hvalid Hfit Hne Hroom; [done|].
  unfold len in Hroom. cbn [length] in Hroom, Hfit.
  destruct (Z_le_gt_dec (len (ticketRqstDB st)) n) as [Hfull|Hnot].
  - destruct (nextTicket_exhausted st n (th_roll _ _ Hth)) as [stx Hexit];
      [lia|].
    exists stx. cbn [sellIssue]. unfold bind at 1, sellStep, bind at 1.
    by rewrite Hexit.
  - assert (Hn : n < len (ticketRqstDB st)) by lia.
    assert (Hrq : validRequest st rq = true)
      by apply Hvalid, list_elem_of_here.
    destruct (ledgerOK_seatCount st rq (th_ledger _ _ Hth) Hrq)
      as (row & c & Hrow & Hc & Hcint).
    assert (Hslot : is_Some (index tickets (Z.of_nat i))).
    { destruct (index_in_range tickets (Z.of_nat i)) as [x Hx];
        [unfold len; lia|eauto]. }
    pose proof (sellStep_exact window (Z.of_nat i) rq tickets receipt total
                  st n row c Hth Hn Hslot Hrow Hc) as Hstep.
    cbn zeta in Hstep.
    pose proof (theatreOK_step st n window rq row c Hth Hn Hrow Hc) as Hth1.
    match type of Hstep with _ = Returns ?x ?y =>
      set (r1 := x) in *; set (st1 := y) in * end.
    destruct (IH (S i) (sl_tickets r1) (sl_receipt r1) (sl_totalprice r1)
                st1 (n + 1) Hth1) as [stx Hexit].
    { intros r Hr. rewrite <- (Hvalid r) by by apply list_elem_of_further.
      done. }
    { subst r1. cbn. unfold store. rewrite length_insert. lia. }
    { intros ->. unfold len in *. cbn in Hroom. lia. }
    { subst st1. cbn. rewrite len_store. unfold len in *. lia. }
    exists stx. cbn [sellIssue]. unfold bind at 1. rewrite Hstep.
    replace (Z.of_nat i + 1) with (Z.of_nat (S i)) by lia. done.
Qed.

(** ** The theatre after initialization *)

Lemma theatreOK_initOnce lg E M S N W st st' :
  initOnce (Some lg) E M S N W st = Returns None st' -> theatreOK st' 1.
Proof.
  intros Hinit. pose proof (storeOK_initOnce _ _ _ _ _ _ _ _ Hinit) as Hok.
  destruct (initOnce_ok _ _ _ _ _ _ _ _ Hinit)
    as (_ & HM & HS & _ & _ & _ & ->).
  split; cbn; try done.
  - intros j row Hj. lia.
  - split; cbn.
    + rewrite len_replicate. lia.
    + apply Forall_replicate. split.
      * rewrite len_replicate. lia.
      * apply Forall_replicate. unfold isInt32, minInt32, maxInt32. lia.
Qed.

(** [Sell] past its gates, in a theatre in order. *)
Lemma Sell_enters_loop st n window reqs pay time :
  theatreOK st n ->
  1 <= window <= maxWindows st ->
  (forall r, r ∈ reqs -> validRequest st r = true) ->
  Sell window reqs pay time st
  = (r <- sellIssue window 0 reqs (replicate (length reqs) zeroTicket)
            (mkReceipt time window [] 0) 0 ;;
     match sl_err r with
     | Some e => ret (sl_tickets r, sl_receipt r, Some e)
     | None =>
         let receipt := set_Total (sl_totalprice r) (sl_receipt r) in
         fun st =>
           Returns (sl_tickets r, receipt, None)
                   (Printf (LogSell window (sl_tickets r) receipt) st)
     end) st.
Proof.
  intros Hth Hwin Hvalid. unfold Sell. rewrite (th_open _ _ Hth). cbn [negb].
  destruct (Z.ltb_spec window 1); [lia|].
  destruct (Z.ltb_spec (maxWindows st) window); [lia|]. cbn [orb].
  by rewrite sellEdit_all_valid.
Qed.

Lemma theatreOK_Printf e st n : theatreOK st n -> theatreOK (Printf e st) n.
Proof.
  intros [Hok Hroll Hstamped Hledger Hopen].
  split; try done. by apply storeOK_Printf.
Qed.

(** What a [Sell] with room in the table does, all at once. *)
Lemma Sell_run st n window reqs pay time :
  theatreOK st n ->
  1 <= window <= maxWindows st ->
  (forall r, r ∈ reqs -> validRequest st r = true) ->
  n + len reqs <= len (ticketRqstDB st) ->
  exists tickets receipt st',
    Sell window reqs pay time st = Returns (tickets, receipt, None) st'
    /\ theatreOK st' (n + len reqs)
    /\ length tickets = length reqs
    /\ (forall k t, tickets !! k = Some t ->
          TicketNum t = n + Z.of_nat k
          /\ index (ticketRqstDB st') (n + Z.of_nat k) = Some t)
    /\ (forall j, 0 <= j < n ->
          index (ticketRqstDB st') j = index (ticketRqstDB st) j)
    /\ len (ticketRqstDB st') = len (ticketRqstDB st)
    /\ (forall m s c, 0 <= m -> 0 <= s ->
          seatCount st m s = Some c -> isInt32 c ->
          seatCount st' m s = Some (wrapInt32 (c + requestsFor m s reqs)))
    /\ st' = Printf (LogSell window tickets receipt)
               (set_ticketRqstDB (ticketRqstDB st')
                  (set_seatsSold (seatsSold st')
                     (set_ticketRoll (ticketRoll st') st))).
Proof.
  intros Hth Hwin Hvalid Hroom.
  rewrite (Sell_enters_loop st n) by done.
  destruct (sellIssue_run window reqs 0 (replicate (length reqs) zeroTicket)
              (mkReceipt time window [] 0) 0 st n Hth Hvalid)
    as (r & st1 & Hrun & Herr & Hth1 & Hticks & Hbelow & Hlen & Hseats
        & Hframe).
  { rewrite length_replicate. lia. }
  { done. }
  { unfold isInt, minInt, maxInt. lia. }
  change (Z.of_nat 0) with 0 in Hrun. unfold bind. rewrite Hrun, Herr.
  destruct (sellIssue_ok window reqs 0 _ _ _ _ _ _ Hrun Herr)
    as (issued & Hall & Htl & _); [unfold isInt, minInt, maxInt; lia|].
  rewrite length_replicate in Htl.
  do 3 eexists. split; [reflexivity|].
  split; [by apply theatreOK_Printf|]. split; [done|].
  split; [|split; [done|split; [done|split; [done|]]]].
  - intros k t Hk. apply (Hticks k t); [|done].
    apply lookup_lt_Some in Hk. lia.
  - rewrite Hframe at 1. cbn. by destruct st.
Qed.

Lemma theatreOK_smallTheatre : theatreOK smallTheatre 1.
Proof.
  apply (theatreOK_initOnce (mkLogger "small" 0) 5 1 2 2 1 zeroState).
  reflexivity.
Qed.

Lemma smallTheatre_requests_valid r :
  r ∈ [(0, 0); (0, 0); (0, 0)] -> validRequest smallTheatre r = true.
Proof. intros Hr. repeat (apply elem_of_cons in Hr as [->|Hr]; [done|]).
  by apply elem_of_nil in Hr. Qed.

(** ** Sell in a theatre in order *)

(** X1: in a theatre in order whose roll stands at n, a [Sell] from a
    valid window with requests in range and room in the table for all of
    them succeeds; its tickets carry the numbers n, n+1, ... in request
    order, so no number is handed out twice, the roll ends at n plus the
    number of requests, and the theatre is in order again. *)
Theorem Sell_issues_consecutive_numbers st n window reqs pay time :
  theatreOK st n ->
  1 <= window <= maxWindows st ->
  (forall r, r ∈ reqs -> validRequest st r = true) ->
  n + len reqs <= len (ticketRqstDB st) ->
  exists tickets receipt st',
    Sell window reqs pay time st = Returns (tickets, receipt, None) st'
    /\ length tickets = length reqs
    /\ (forall k t, tickets !! k = Some t -> TicketNum t = n + Z.of_nat k)
    /\ ticketRoll st' = OpenChan (n + len reqs)
    /\ theatreOK st' (n + len reqs).
Proof.
  intros Hth Hwin Hvalid Hroom.
  destruct (Sell_run st n window reqs pay time Hth Hwin Hvalid Hroom)
    as (tickets & receipt & st' & Hsell & Hth' & Hlen & Hticks & _).
  exists tickets, receipt, st'.
  split; [done|]. split; [done|]. split; [|split; [|done]].
  - intros k t Hk. by apply Hticks.
  - apply (th_roll _ _ Hth').
Qed.

Lemma Sell_issues_consecutive_numbers_witness :
  exists tickets receipt st',
    Sell 1 [(0, 0); (0, 0); (0, 0)] [] None smallTheatre
    = Returns (tickets, receipt, None) st'
    /\ TicketNum <$> tickets = [1; 2; 3]
    /\ ticketRoll st' = OpenChan 4.
Proof.
  destruct (Sell_issues_consecutive_numbers smallTheatre 1 1
              [(0, 0); (0, 0); (0, 0)] [] None theatreOK_smallTheatre)
    as (tickets & receipt & st' & Hsell & _ & _ & Hroll & _).
  - vm_compute. split; discriminate.
  - apply smallTheatre_requests_valid.
  - vm_compute. discriminate.
  - exists tickets, receipt, st'. split; [exact Hsell|]. split; [|exact Hroll].
    vm_compute in Hsell. injection Hsell as <- _ _. reflexivity.
Defined.

(** X2: every ticket such a [Sell] hands back has been committed to the
    table as it is: reading its number back with [readTicket] returns the
    very same ticket. *)
Theorem Sell_then_readTicket st n window reqs pay time :
  theatreOK st n ->
  1 <= window <= maxWindows st ->
  (forall r, r ∈ reqs -> validRequest st r = true) ->
  n + len reqs <= len (ticketRqstDB st) ->
  exists tickets receipt st',
    Sell window reqs pay time st = Returns (tickets, receipt, None) st'
    /\ forall t, t ∈ tickets ->
         readTicket (TicketNum t) st' = Returns (t, None) st'.
Proof.
  intros Hth Hwin Hvalid Hroom.
  destruct (Sell_run st n window reqs pay time Hth Hwin Hvalid Hroom)
    as (tickets & receipt & st' & Hsell & Hth' & Hlen & Hticks & _).
  exists tickets, receipt, st'. split; [done|].
  intros t [k Hk]%list_elem_of_lookup.
  destruct (Hticks k t Hk) as [Hnum Hrow].
  pose proof (ok_roll _ (th_store _ _ Hth) n (th_roll _ _ Hth)) as Hpos.
  pose proof (index_Some _ _ _ Hrow) as Hrange.
  destruct (readTicket_cases st' (TicketNum t)) as [_ Hin].
  destruct Hin as (row & Hrow' & Hsame & _); [lia|].
  rewrite Hnum in Hrow'. rewrite Hrow in Hrow'. injection Hrow' as <-.
  by apply Hsame.
Qed.

Lemma Sell_then_readTicket_witness :
  exists tickets receipt st',
    Sell 1 [(0, 0); (0, 0); (0, 0)] [] None smallTheatre
    = Returns (tickets, receipt, None) st'
    /\ readTicket 3 st'
       = Returns (mkTicket 3 0 0 1000 true false false "" "" 1, None) st'.
Proof.
  destruct (Sell_then_readTicket smallTheatre 1 1
              [(0, 0); (0, 0); (0, 0)] [] None theatreOK_smallTheatre)
    as (tickets & receipt & st' & Hsell & Hread).
  - vm_compute. split; discriminate.
  - apply smallTheatre_requests_valid.
  - vm_compute. discriminate.
  - exists tickets, receipt, st'. split; [exact Hsell|].
    apply (Hread (mkTicket 3 0 0 1000 true false false "" "" 1)).
    vm_compute in Hsell. injection Hsell as <- _ _.
    do 2 apply list_elem_of_further. apply list_elem_of_here.
Defined.

(** X3: such a [Sell] consumes exactly one seat per request, sold out or
    not: the counter of each showing goes up by the number of requests
    for that showing (as an [int32]), and the other counters stay. *)
Theorem Sell_consumes_one_seat_per_request st n window reqs pay time :
  theatreOK st n ->
  1 <= window <= maxWindows st ->
  (forall r, r ∈ reqs -> validRequest st r = true) ->
  n + len reqs <= len (ticketRqstDB st) ->
  exists tickets receipt st',
    Sell window reqs pay time st = Returns (tickets, receipt, None) st'
    /\ forall m s c, 0 <= m -> 0 <= s ->
         seatCount st m s = Some c -> isInt32 c ->
         seatCount st' m s = Some (wrapInt32 (c + requestsFor m s reqs)).
Proof.
  intros Hth Hwin Hvalid Hroom.
  destruct (Sell_run st n window reqs pay time Hth Hwin Hvalid Hroom)
    as (tickets & receipt & st' & Hsell & _ & _ & _ & _ & _ & Hseats & _).
  by exists tickets, receipt, st'.
Qed.

Lemma Sell_consumes_one_seat_per_request_witness :
  exists tickets receipt st',
    Sell 1 [(0, 0); (0, 0); (0, 0)] [] None smallTheatre
    = Returns (tickets, receipt, None) st'
    /\ seatCount st' 0 0 = Some 3 /\ seatCount st' 0 1 = Some 0.
Proof.
  destruct (Sell_consumes_one_seat_per_request smallTheatre 1 1
              [(0, 0); (0, 0); (0, 0)] [] None theatreOK_smallTheatre)
    as (tickets & receipt & st' & Hsell & Hseats).
  - vm_compute. split; discriminate.
  - apply smallTheatre_requests_valid.
  - vm_compute. discriminate.
  - exists tickets, receipt, st'. split; [exact Hsell|]. split.
    + apply (Hseats 0 0 0); try reflexivity; vm_compute;
        (discriminate || split; discriminate).
    + apply (Hseats 0 1 0); try reflexivity; vm_compute;
        (discriminate || split; discriminate).
Defined.

(** X4: such a [Sell] leaves the tickets issued before it alone: whatever
    [readTicket] returned for a number below the roll it returns
    afterwards, and the limits and the exchange counter are as before. *)
Theorem Sell_keeps_earlier_tickets st n window reqs pay time :
  theatreOK st n ->
  1 <= window <= maxWindows st ->
  (forall r, r ∈ reqs -> validRequest st r = true) ->
  n + len reqs <= len (ticketRqstDB st) ->
  exists tickets receipt st',
    Sell window reqs pay time st = Returns (tickets, receipt, None) st'
    /\ (forall j t, readTicket j st = Returns (t, None) st ->
          readTicket j st' = Returns (t, None) st')
    /\ totExchanges st' = totExchanges st
    /\ maxExchanges st' = maxExchanges st
    /\ maxMovies st' = maxMovies st /\ maxShowings st' = maxShowings st
    /\ maxSeats st' = maxSeats st /\ maxWindows st' = maxWindows st.
Proof.
  intros Hth Hwin Hvalid Hroom.
  destruct (Sell_run st n window reqs pay time Hth Hwin Hvalid Hroom)
    as (tickets & receipt & st' & Hsell & Hth' & _ & _ & Hbelow & Hlen & _
        & Hframe).
  exists tickets, receipt, st'. split; [done|]. split.
  - intros j t Hread.
    destruct (readTicket_ok _ _ _ _ Hread) as (_ & Hrange & Hrow & Hnum).
    assert (Hj : j < n).
    { destruct (Z.lt_ge_cases j n) as [|Hge]; [done|].
      pose proof (ok_fresh _ (th_store _ _ Hth) n j t (th_roll _ _ Hth)
                    Hge Hrow) as ->.
      cbn in Hnum. lia. }
    destruct (readTicket_cases st' j) as [_ Hin].
    destruct Hin as (row & Hrow' & Hsame & _); [lia|].
    rewrite Hbelow, Hrow in Hrow' by lia. injection Hrow' as <-.
    by apply Hsame.
  - rewrite Hframe. by cbn.
Qed.

Lemma Sell_keeps_earlier_tickets_witness :
  exists tickets receipt st',
    Sell 1 [(0, 1)] [] None afterSale = Returns (tickets, receipt, None) st'
    /\ readTicket 2 st'
       = Returns (mkTicket 2 0 0 1000 false true false "" "" 1, None) st'.
Proof.
  assert (Hth : theatreOK afterSale 4).
  { destruct (Sell_run smallTheatre 1 1 [(0, 0); (0, 0); (0, 0)] [] None
                theatreOK_smallTheatre)
      as (tickets & receipt & st' & Hsell & Hth' & _).
    - vm_compute. split; discriminate.
    - apply smallTheatre_requests_valid.
    - vm_compute. discriminate.
    - vm_compute in Hsell. injection Hsell as _ _ <-. exact Hth'. }
  destruct (Sell_keeps_earlier_tickets afterSale 4 1 [(0, 1)] [] None Hth)
    as (tickets & receipt & st' & Hsell & Hkeep & _).
  - vm_compute. split; discriminate.
  - intros r Hr. apply elem_of_cons in Hr as [->|Hr]; [done|].
    by apply elem_of_nil in Hr.
  - vm_compute. discriminate.
  - exists tickets, receipt, st'. split; [exact Hsell|].
    apply Hkeep. reflexivity.
Defined.

(** A [Sell] that runs out of table does not return. *)
Lemma Sell_runs_out st n window reqs pay time :
  theatreOK st n ->
  1 <= window <= maxWindows st ->
  (forall r, r ∈ reqs -> validRequest st r = true) ->
  reqs <> [] ->
  len (ticketRqstDB st) < n + len reqs ->
  exists stx, Sell window reqs pay time st = Exits 1 stx.
Proof.
  intros Hth Hwin Hvalid Hne Hroom.
  rewrite (Sell_enters_loop st n) by done.
  destruct (sellIssue_exhausts window reqs 0
              (replicate (length reqs) zeroTicket)
              (mkReceipt time window [] 0) 0 st n Hth Hvalid)
    as [stx Hexit]; try done.
  { rewrite length_replicate. lia. }
  exists stx. unfold bind. change (Z.of_nat 0) with 0 in Hexit.
  by rewrite Hexit.
Qed.

(** X5: when the table has no room left for all the requests of an
    otherwise valid [Sell], the call does not return: the draw that
    finds the roll at the end of the table ends the program with
    [os.Exit(1)], after the earlier requests of the call have been
    served. *)
Theorem Sell_exhausts_table st n window reqs pay time :
  theatreOK st n ->
  1 <= window <= maxWindows st ->
  (forall r, r ∈ reqs -> validRequest st r = true) ->
  reqs <> [] ->
  len (ticketRqstDB st) < n + len reqs ->
  exists stx, Sell window reqs pay time st = Exits 1 stx.
Proof. apply Sell_runs_out. Qed.

Lemma Sell_exhausts_table_witness :
  exists stx, Sell 1 [(0, 1); (0, 1)] [] None afterSale = Exits 1 stx.
Proof.
  assert (Hth : theatreOK afterSale 4).
  { destruct (Sell_run smallTheatre 1 1 [(0, 0); (0, 0); (0, 0)] [] None
                theatreOK_smallTheatre)
      as (tickets & receipt & st' & Hsell & Hth' & _).
    - vm_compute. split; discriminate.
    - apply smallTheatre_requests_valid.
    - vm_compute. discriminate.
    - vm_compute in Hsell. injection Hsell as _ _ <-. exact Hth'. }
  apply (Sell_exhausts_table afterSale 4 1 [(0, 1); (0, 1)] [] None Hth).
  - vm_compute. split; discriminate.
  - intros r Hr. repeat (apply elem_of_cons in Hr as [->|Hr]; [done|]).
    by apply elem_of_nil in Hr.
  - discriminate.
  - vm_compute. reflexivity.
Defined.

(** ** Initialization, seen from outside *)

Lemma theatreOK_set_initGate b st n :
  theatreOK st n -> theatreOK (set_initGate b st) n.
Proof.
  intros [[Hlen Hroll Hfresh] Hr Hstamped Hledger Hopen].
  by split.
Qed.

Lemma Init_returns_inv parmL E M S N W st e st' :
  initGate st = false ->
  Init parmL E M S N W st = Returns e st' ->
  exists st1,
    initOnce parmL E M S N W st = Returns e st1
    /\ st' = set_initGate true st1.
Proof.
  unfold Init. intros ->.
  destruct (initOnce parmL E M S N W st) as [e1 st1| | |]; try done.
  intros [= <- <-]. by exists st1.
Qed.

Lemma seatCount_replicate st rows cols m s :
  seatsSold st = replicate rows (replicate cols 0) ->
  0 <= m < Z.of_nat rows -> 0 <= s < Z.of_nat cols ->
  seatCount st m s = Some 0.
Proof.
  intros Hseats Hm Hs. unfold seatCount, index. rewrite Hseats.
  destruct (Z.ltb_spec m 0); [lia|].
  rewrite lookup_replicate_2 by lia.
  destruct (Z.ltb_spec s 0); [lia|].
  apply lookup_replicate_2. lia.
Qed.

(** X6: a first [Init] that returns nil leaves a theatre in order and open
    for sales: the five limits are the arguments, the roll stands at 1,
    the table has one zero row per ticket plus the unused row 0, every
    showing of every movie has its counter at 0, and the gate is shut.
    The exchange counter is not touched. *)
Theorem Init_opens_theatre parmL E M S N W st st' :
  initGate st = false ->
  Init parmL E M S N W st = Returns None st' ->
  theatreOK st' 1
  /\ initGate st' = true
  /\ maxExchanges st' = E /\ maxMovies st' = M /\ maxShowings st' = S
  /\ maxSeats st' = N /\ maxWindows st' = W
  /\ ticketRqstDB st'
     = replicate (Z.to_nat (capacity M S N + 1)) zeroTicket
  /\ (forall m s, 0 <= m < M -> 0 <= s < S -> seatCount st' m s = Some 0)
  /\ totExchanges st' = totExchanges st.
Proof.
  intros Hgate Hinit.
  destruct (Init_returns_inv _ _ _ _ _ _ _ _ _ Hgate Hinit)
    as (st1 & Honce & ->).
  destruct parmL as [lg|]; [|done].
  pose proof (theatreOK_initOnce _ _ _ _ _ _ _ _ Honce) as Hth.
  destruct (initOnce_ok _ _ _ _ _ _ _ _ Honce)
    as (_ & HM & HS & _ & _ & _ & Hst1).
  split; [by apply theatreOK_set_initGate|].
  rewrite Hst1. cbn. repeat split.
  intros m s Hm Hs.
  apply (seatCount_replicate _ (Z.to_nat M) (Z.to_nat S)); [done|lia|lia].
Qed.

Lemma Init_opens_theatre_witness :
  exists st',
    Init (Some (mkLogger "small" 0)) 5 1 2 2 1 zeroState = Returns None st'
    /\ theatreOK st' 1 /\ len (ticketRqstDB st') = 5
    /\ seatCount st' 0 1 = Some 0.
Proof.
  eexists. split; [reflexivity|].
  destruct (Init_opens_theatre (Some (mkLogger "small" 0)) 5 1 2 2 1
              zeroState _ eq_refl eq_refl)
    as (Hth & _ & _ & _ & _ & _ & _ & _ & Hseats & _).
  split; [exact Hth|]. split; [reflexivity|]. apply Hseats; lia.
Defined.

(** ** The theatre stays in order *)

Lemma sellEdit_None_valid st reqs i :
  sellEdit st i reqs = None ->
  forall r, r ∈ reqs -> validRequest st r = true.
Proof.
  intros Hedit r Hr. destruct (validRequest st r) eqn:Hv; [done|].
  destruct (sellEdit_first_invalid st reqs i) as (k & r' & _ & _ & _ & Hsome);
    [eauto|congruence].
Qed.

(** X7: [Sell] and [Exchange] keep a theatre in order, however they
    return; the roll never moves back. *)
Theorem theatre_stays_in_order st n :
  theatreOK st n ->
  (forall window reqs pay time tickets receipt err st',
     Sell window reqs pay time st = Returns (tickets, receipt, err) st' ->
     exists n', n <= n' /\ theatreOK st' n')
  /\ (forall tickNum old new e st',
        Exchange tickNum old new st = Returns e st' -> theatreOK st' n).
Proof.
  intros Hth. split.
  - intros window reqs pay time tickets receipt err st' Hsell.
    destruct (Z_lt_le_dec window 1) as [Hlow|Hlow].
    { exists n. split; [lia|].
      unfold Sell in Hsell. rewrite (th_open _ _ Hth) in Hsell.
      destruct (Z.ltb_spec window 1); [|lia]. cbn in Hsell.
      by injection Hsell as _ _ _ <-. }
    destruct (Z_lt_le_dec (maxWindows st) window) as [Hhigh|Hhigh].
    { exists n. split; [lia|].
      unfold Sell in Hsell. rewrite (th_open _ _ Hth) in Hsell.
      destruct (Z.ltb_spec window 1); [lia|].
      destruct (Z.ltb_spec (maxWindows st) window); [|lia]. cbn in Hsell.
      by injection Hsell as _ _ _ <-. }
    destruct (sellEdit st 0 reqs) as [e|] eqn:Hedit.
    { exists n. split; [lia|].
      unfold Sell in Hsell. rewrite (th_open _ _ Hth) in Hsell.
      destruct (Z.ltb_spec window 1); [lia|].
      destruct (Z.ltb_spec (maxWindows st) window); [lia|]. cbn in Hsell.
      rewrite Hedit in Hsell. by injection Hsell as _ _ _ <-. }
    pose proof (sellEdit_None_valid _ _ _ Hedit) as Hvalid.
    destruct reqs as [|rq rest].
    { exists n. split; [lia|].
      rewrite (Sell_enters_loop st n) in Hsell by (done || lia).
      cbn in Hsell. injection Hsell as _ _ _ <-.
      by apply theatreOK_Printf. }
    destruct (Z_le_gt_dec (n + len (rq :: rest)) (len (ticketRqstDB st)))
      as [Hroom|Hfull].
    + destruct (Sell_run st n window (rq :: rest) pay time Hth
                  ltac:(lia) Hvalid Hroom)
        as (tk & rc & st2 & Hsell2 & Hth2 & _).
      rewrite Hsell2 in Hsell. injection Hsell as _ _ _ <-.
      exists (n + len (rq :: rest)). split; [unfold len; lia|done].
    + destruct (Sell_runs_out st n window (rq :: rest) pay time Hth
                  ltac:(lia) Hvalid ltac:(done) ltac:(lia)) as [stx Hexit].
      congruence.
  - intros tickNum old new e st' Hex.
    destruct Hth as [Hok Hroll Hstamped Hledger Hopen].
    pose proof (Exchange_storeOK _ _ _ _ _ _ Hok Hex) as Hok'.
    destruct (readTicket tickNum st) as [[t [e0|]] st1| | |] eqn:Hread.
    + unfold Exchange, bind in Hex. rewrite Hopen, Hread in Hex. cbn in Hex.
      apply readTicket_state in Hread as ->. injection Hex as _ <-.
      by split.
    + rewrite (Exchange_after_read _ _ old new _ _ Hopen Hread) in Hex.
      destruct (readTicket_ok _ _ _ _ Hread) as (_ & Hrange & Hrow & Hnum).
      assert (Hsame : forall x, Returns x st = Returns e st' ->
                theatreOK st' n).
      { intros x [= _ <-]. by split. }
      destruct (SoldOut t); [by eapply Hsame|].
      destruct (negb (Goodies t)); [by eapply Hsame|].
      destruct (Exchanged t); [by eapply Hsame|].
      destruct (maxExchanges st <=? totExchanges st); [by eapply Hsame|].
      injection Hex as _ <-. split; cbn; try done.
      intros j row Hj Hrow'.
      destruct (Z.eq_dec j tickNum) as [->|Hne].
      * rewrite index_store_eq in Hrow' by lia.
        injection Hrow' as <-. done.
      * rewrite index_store_ne in Hrow' by lia. by apply Hstamped.
    + unfold Exchange, bind in Hex. by rewrite Hopen, Hread in Hex.
    + unfold Exchange, bind in Hex. by rewrite Hopen, Hread in Hex.
    + unfold Exchange, bind in Hex. by rewrite Hopen, Hread in Hex.
Qed.

Lemma theatre_stays_in_order_witness :
  exists n', 1 <= n' /\ theatreOK afterSale n'.
Proof.
  destruct (theatre_stays_in_order smallTheatre 1 theatreOK_smallTheatre)
    as [Hsell _].
  apply (Hsell 1 [(0, 0); (0, 0); (0, 0)] [] None saleTickets saleReceipt
           None afterSale).
  reflexivity.
Defined.

(** ** Exchanges *)

(** The only way [Exchange] returns nil. *)
Lemma Exchange_nil_inv st tickNum old new st' :
  Exchange tickNum old new st = Returns None st' ->
  exists t,
    salesOpen st = true
    /\ readTicket tickNum st = Returns (t, None) st
    /\ SoldOut t = false /\ Goodies t = true /\ Exchanged t = false
    /\ totExchanges st < maxExchanges st
    /\ st' = set_ticketRqstDB
               (store (ticketRqstDB st) tickNum (set_exchange old new t))
               (set_totExchanges (wrapInt (totExchanges st + 1)) st).
Proof.
  intros Hex. destruct (salesOpen st) eqn:Hopen.
  2:{ unfold Exchange in Hex. by rewrite Hopen in Hex. }
  destruct (readTicket tickNum st) as [[t [e0|]] st1| | |] eqn:Hread;
    try (unfold Exchange, bind in Hex; by rewrite Hopen, Hread in Hex).
  pose proof (readTicket_state _ _ _ _ Hread) as ->.
  rewrite (Exchange_after_read _ _ old new _ _ Hopen Hread) in Hex.
  exists t. destruct (SoldOut t); [done|].
  destruct (Goodies t); [|done]. destruct (Exchanged t); [done|]. cbn in Hex.
  destruct (Z.leb_spec (maxExchanges st) (totExchanges st)); [done|].
  injection Hex as <-. done.
Qed.

(** Every other return of [Exchange] is a refusal that changes nothing. *)
Lemma Exchange_refusal_inv st tickNum old new e st' :
  Exchange tickNum old new st = Returns (Some e) st' -> st' = st.
Proof.
  intros Hex. destruct (salesOpen st) eqn:Hopen.
  2:{ unfold Exchange in Hex. rewrite Hopen in Hex. by injection Hex. }
  destruct (readTicket tickNum st) as [[t [e0|]] st1| | |] eqn:Hread;
    try (unfold Exchange, bind in Hex; by rewrite Hopen, Hread in Hex).
  - unfold Exchange, bind in Hex. rewrite Hopen, Hread in Hex. cbn in Hex.
    apply readTicket_state in Hread as ->. by injection Hex.
  - rewrite (Exchange_after_read _ _ old new _ _ Hopen Hread) in Hex.
    destruct (SoldOut t); [by injection Hex|].
    destruct (negb (Goodies t)); [by injection Hex|].
    destruct (Exchanged t); [by injection Hex|].
    destruct (maxExchanges st <=? totExchanges st); [by injection Hex|done].
Qed.

(** X8: once an [Exchange] has succeeded for a ticket, every further
    [Exchange] for that ticket, whatever the goodies named, is refused with
    [ErrXchAlreadyDone] and changes nothing: the row keeps the goodies of
    the first exchange. *)
Theorem Exchange_only_once st tickNum old new st1 :
  Exchange tickNum old new st = Returns None st1 ->
  forall old' new',
    Exchange tickNum old' new' st1 = Returns (Some ErrXchAlreadyDone) st1
    /\ exists row,
         index (ticketRqstDB st1) tickNum = Some row
         /\ Exchanged row = true /\ XchOld row = old /\ XchNew row = new.
Proof.
  intros Hex old' new'.
  destruct (Exchange_nil_inv _ _ _ _ _ Hex)
    as (t & Hopen & Hread & Hsold & Hgood & Hx & Hstock & ->).
  destruct (readTicket_ok _ _ _ _ Hread) as (_ & Hrange & Hrow & Hnum).
  set (st1 := set_ticketRqstDB _ _).
  assert (Hread1 : readTicket tickNum st1
                   = Returns (set_exchange old new t, None) st1).
  { destruct (readTicket_cases st1 tickNum) as [_ Hin].
    destruct Hin as (row & Hrow1 & Hsame & _).
    { subst st1. cbn. rewrite len_store. lia. }
    subst st1. cbn in Hrow1. rewrite index_store_eq in Hrow1 by lia.
    injection Hrow1 as <-. by apply Hsame. }
  split.
  - rewrite (Exchange_after_read st1 tickNum old' new' _ _ Hopen Hread1).
    cbn. by rewrite Hsold, Hgood.
  - exists (set_exchange old new t). subst st1. cbn.
    by rewrite index_store_eq by lia.
Qed.

Lemma Exchange_only_once_witness :
  Exchange 1 "water" "soda" afterSale = Returns None afterExchange
  /\ Exchange 1 "water" "beer" afterExchange
     = Returns (Some ErrXchAlreadyDone) afterExchange.
Proof.
  split; [reflexivity|].
  apply (Exchange_only_once afterSale 1 "water" "soda" afterExchange eq_refl
           "water" "beer").
Defined.

(** X9: [Exchange] never lets the exchange counter pass [maxExchanges]:
    a counter within the stock stays within it, goes up by exactly one on
    a successful exchange and stays put on a refusal; and once the stock
    is used up no exchange succeeds. *)
Theorem Exchange_respects_stock st tickNum old new e st' :
  totExchanges st <= maxExchanges st ->
  isInt (totExchanges st) -> isInt (maxExchanges st) ->
  Exchange tickNum old new st = Returns e st' ->
  maxExchanges st' = maxExchanges st
  /\ totExchanges st' <= maxExchanges st'
  /\ (e = None -> totExchanges st' = totExchanges st + 1)
  /\ (e <> None -> totExchanges st' = totExchanges st)
  /\ (maxExchanges st <= totExchanges st -> e <> None).
Proof.
  intros Hle Htot Hmax Hex. destruct e as [e|].
  - apply Exchange_refusal_inv in Hex as ->. repeat split; done.
  - destruct (Exchange_nil_inv _ _ _ _ _ Hex)
      as (t & _ & _ & _ & _ & _ & Hstock & ->). cbn.
    rewrite wrapInt_small by (unfold isInt, minInt, maxInt in *; lia).
    repeat split; try done; lia.
Qed.

Lemma Exchange_respects_stock_witness :
  Exchange 1 "water" "soda" afterSale = Returns None afterExchange
  /\ totExchanges afterExchange = totExchanges afterSale + 1
  /\ totExchanges afterExchange <= maxExchanges afterExchange.
Proof.
  split; [reflexivity|].
  destruct (Exchange_respects_stock afterSale 1 "water" "soda" None
              afterExchange)
    as (_ & Hle & Hup & _); try reflexivity;
    try (vm_compute; (discriminate || split; discriminate)).
  split; [by apply Hup|exact Hle].
Defined.

(** X10: [Exchange] touches nothing but the exchange counter and the
    three exchange fields of the one row it is asked about: the seat
    ledger, the roll, the limits and the length of the table are as
    before, every other row is as before, and that row keeps its number
    and its sale fields. *)
Theorem Exchange_frame st tickNum old new e st' :
  Exchange tickNum old new st = Returns e st' ->
  seatsSold st' = seatsSold st /\ ticketRoll st' = ticketRoll st
  /\ maxExchanges st' = maxExchanges st /\ maxMovies st' = maxMovies st
  /\ maxShowings st' = maxShowings st /\ maxSeats st' = maxSeats st
  /\ maxWindows st' = maxWindows st /\ salesOpen st' = salesOpen st
  /\ len (ticketRqstDB st') = len (ticketRqstDB st)
  /\ forall j row,
       index (ticketRqstDB st) j = Some row ->
       exists row',
         index (ticketRqstDB st') j = Some row'
         /\ (j <> tickNum -> row' = row)
         /\ TicketNum row' = TicketNum row /\ Movie row' = Movie row
         /\ Showing row' = Showing row /\ Price row' = Price row
         /\ SoldOut row' = SoldOut row /\ Goodies row' = Goodies row
         /\ Window row' = Window row.
Proof.
  intros Hex. destruct e as [e|].
  - apply Exchange_refusal_inv in Hex as ->. repeat split; try done.
    intros j row Hrow. exists row. by repeat split.
  - destruct (Exchange_nil_inv _ _ _ _ _ Hex)
      as (t & _ & Hread & _ & _ & _ & _ & ->). cbn.
    destruct (readTicket_ok _ _ _ _ Hread) as (_ & Hrange & Hrow & Hnum).
    repeat split; try done; [apply len_store|].
    intros j row Hj. pose proof (index_Some _ _ _ Hj) as Hjr.
    destruct (Z.eq_dec j tickNum) as [->|Hne].
    + rewrite Hrow in Hj. injection Hj as <-.
      exists (set_exchange old new t).
      rewrite index_store_eq by lia. by repeat split.
    + exists row. rewrite index_store_ne by lia. by repeat split.
Qed.

Lemma Exchange_frame_witness :
  Exchange 1 "water" "soda" afterSale = Returns None afterExchange
  /\ seatsSold afterExchange = seatsSold afterSale
  /\ len (ticketRqstDB afterExchange) = len (ticketRqstDB afterSale).
Proof.
  split; [reflexivity|].
  destruct (Exchange_frame afterSale 1 "water" "soda" None afterExchange
              eq_refl)
    as (Hseats & _ & _ & _ & _ & _ & _ & _ & Hlen & _).
  split; [exact Hseats|exact Hlen].
Defined.

(** ** The two updates of a row *)

Lemma updateTicketSale_cases t st :
  (TicketNum t < 1 \/ len (ticketRqstDB st) <= TicketNum t ->
     exists e, updateTicketSale t st = Returns (Some e) st)
  /\ (forall row, index (ticketRqstDB st) (TicketNum t) = Some row ->
        1 <= TicketNum t ->
        updateTicketSale t st
        = Returns None
            (set_ticketRqstDB
               (store (ticketRqstDB st) (TicketNum t) (withSale t row)) st)).
Proof.
  unfold updateTicketSale. split.
  - intros Hout. destruct (Z.ltb_spec (TicketNum t) 1); [eauto|].
    destruct (Z.leb_spec (len (ticketRqstDB st)) (TicketNum t)); [eauto|lia].
  - intros row Hrow Hpos. pose proof (index_Some _ _ _ Hrow).
    destruct (Z.ltb_spec (TicketNum t) 1); [lia|].
    destruct (Z.leb_spec (len (ticketRqstDB st)) (TicketNum t)); [lia|].
    cbn. by rewrite Hrow.
Qed.

Lemma updateTicketExchange_cases t st :
  (TicketNum t < 1 \/ len (ticketRqstDB st) <= TicketNum t ->
     exists e, updateTicketExchange t st = Returns (Some e) st)
  /\ (forall row, index (ticketRqstDB st) (TicketNum t) = Some row ->
        1 <= TicketNum t ->
        updateTicketExchange t st
        = Returns None
            (set_ticketRqstDB
               (store (ticketRqstDB st) (TicketNum t) (withExchange t row))
               st)).
Proof.
  unfold updateTicketExchange. split.
  - intros Hout. destruct (Z.ltb_spec (TicketNum t) 1); [eauto|].
    destruct (Z.leb_spec (len (ticketRqstDB st)) (TicketNum t)); [eauto|lia].
  - intros row Hrow Hpos. pose proof (index_Some _ _ _ Hrow).
    destruct (Z.ltb_spec (TicketNum t) 1); [lia|].
    destruct (Z.leb_spec (len (ticketRqstDB st)) (TicketNum t)); [lia|].
    cbn. by rewrite Hrow.
Qed.

Lemma store_commute {A} (l : list A) i j x y :
  0 <= i -> 0 <= j -> i <> j ->
  store (store l i x) j y = store (store l j y) i x.
Proof.
  intros Hi Hj Hne. unfold store. apply list_insert_insert_ne. lia.
Qed.

Lemma in_table {A} (l : list A) (i : Z) :
  (i <? 1) || (len l <=? i) = false ->
  1 <= i < len l /\ exists x, index l i = Some x.
Proof.
  intros H. apply orb_false_iff in H as [H1 H2].
  apply Z.ltb_ge in H1. apply Z.leb_gt in H2.
  split; [lia|]. apply index_in_range. lia.
Qed.

(** X11: the two updates of the table do not get in each other's way:
    [updateTicketSale a] followed by [updateTicketExchange b] returns the
    same two results and leaves the same table as the two calls in the
    other order, for any two tickets, also when both name the same row
    and when either is out of range. *)
Theorem updates_commute (a b : Ticket) (st : State) :
  saleThenExchange a b st = exchangeThenSale a b st.
Proof.
  unfold saleThenExchange, exchangeThenSale, bind, ret.
  destruct ((TicketNum a <? 1) || (len (ticketRqstDB st) <=? TicketNum a))
    eqn:Ha;
  destruct ((TicketNum b <? 1) || (len (ticketRqstDB st) <=? TicketNum b))
    eqn:Hb;
  unfold updateTicketExchange, updateTicketSale.
  - repeat (cbn; rewrite ?Ha, ?Hb). reflexivity.
  - destruct (in_table _ _ Hb) as (Hbr & rb & Hrb).
    repeat (cbn; rewrite ?len_store, ?Ha, ?Hb, ?Hrb). reflexivity.
  - destruct (in_table _ _ Ha) as (Har & ra & Hra).
    repeat (cbn; rewrite ?len_store, ?Ha, ?Hb, ?Hra). reflexivity.
  - destruct (in_table _ _ Ha) as (Har & ra & Hra).
    destruct (in_table _ _ Hb) as (Hbr & rb & Hrb).
    destruct (Z.eq_dec (TicketNum a) (TicketNum b)) as [Heq|Hne].
    + rewrite Heq in *. rewrite Hra in Hrb. injection Hrb as <-.
      repeat (cbn; rewrite ?len_store, ?Hb, ?Hra, ?index_store_eq by lia).
      by rewrite !store_store.
    + repeat (cbn; rewrite ?len_store, ?Ha, ?Hb, ?Hra, ?Hrb,
                ?index_store_ne by lia).
      by rewrite store_commute by lia.
Qed.

(** ** Numbers issued and numbers not yet issued *)

(** X13: in a theatre in order whose roll stands at n, [readTicket]
    returns the ticket of every number below n inside the table; for a
    number inside the table that the roll has not reached yet it panics,
    and so does an [Exchange] asked about such a number. *)
Theorem readTicket_issued_or_not st n :
  theatreOK st n ->
  (forall j, 1 <= j < n -> j < len (ticketRqstDB st) ->
     exists t, readTicket j st = Returns (t, None) st /\ TicketNum t = j)
  /\ (forall j, n <= j < len (ticketRqstDB st) ->
        (exists msg, readTicket j st = Panics msg)
        /\ forall old new, exists msg, Exchange j old new st = Panics msg).
Proof.
  intros [Hok Hroll Hstamped Hledger Hopen]. split.
  - intros j Hj Hlen. destruct (readTicket_cases st j) as [_ Hin].
    destruct Hin as (row & Hrow & Hsame & _); [lia|].
    exists row. pose proof (Hstamped j row Hj Hrow). split; [|done].
    by apply Hsame.
  - intros j Hj. pose proof (ok_roll _ Hok n Hroll) as Hpos.
    destruct (readTicket_cases st j) as [_ Hin].
    destruct Hin as (row & Hrow & _ & Hdiff); [lia|].
    pose proof (ok_fresh _ Hok n j row Hroll ltac:(lia) Hrow) as ->.
    destruct Hdiff as [msg Hmsg]; [cbn; lia|].
    split; [eauto|]. intros old new. exists msg.
    unfold Exchange, bind. by rewrite Hopen, Hmsg.
Qed.

Lemma readTicket_issued_or_not_witness :
  (exists t, readTicket 3 afterSale = Returns (t, None) afterSale)
  /\ exists msg, Exchange 4 "water" "soda" afterSale = Panics msg.
Proof.
  assert (Hth : theatreOK afterSale 4).
  { destruct (Sell_run smallTheatre 1 1 [(0, 0); (0, 0); (0, 0)] [] None
                theatreOK_smallTheatre)
      as (tickets & receipt & st' & Hsell & Hth' & _).
    - vm_compute. split; discriminate.
    - apply smallTheatre_requests_valid.
    - vm_compute. discriminate.
    - vm_compute in Hsell. injection Hsell as _ _ <-. exact Hth'. }
  destruct (readTicket_issued_or_not afterSale 4 Hth) as [Hissued Hnot].
  split.
  - destruct (Hissued 3) as (t & Ht & _);
      [lia|vm_compute; reflexivity|eauto].
  - destruct (Hnot 4) as [_ Hex]; [vm_compute; split; [discriminate|reflexivity]|].
    apply Hex.
Defined.

(** ** A failed initialization *)

Lemma initOnce_error_keeps_closed parmL E M S N W st e st' :
  initOnce parmL E M S N W st = Returns (Some e) st' ->
  salesOpen st' = salesOpen st /\ initGate st' = initGate st.
Proof.
  unfold initOnce. destruct parmL as [lg|]; [|by intros [= _ <-]]. cbn.
  destruct (E <? 0); [by intros [= _ <-]|].
  destruct (M <? 1); [by intros [= _ <-]|].
  destruct (S <? 1); [by intros [= _ <-]|].
  destruct (N <? 1); [by intros [= _ <-]|].
  destruct (W <? 1); [by intros [= _ <-]|].
  destruct (make _ [] M); [|done]. destruct (make _ 0 S); [|done].
  by destruct (make _ zeroTicket _).
Qed.

(** X12: a first [Init] that fails, for a missing logger or a number out
    of bounds, shuts the service for good: every later [Init], whatever
    its arguments, returns nil without doing anything, and every [Sell]
    and [Exchange] is turned away with the system-is-down error. *)
Theorem failed_Init_is_final parmL E M S N W st e st1 :
  initGate st = false ->
  salesOpen st = false ->
  Init parmL E M S N W st = Returns (Some e) st1 ->
  (forall parmL' E' M' S' N' W',
     Init parmL' E' M' S' N' W' st1 = Returns None st1)
  /\ (forall window reqs pay time,
        Sell window reqs pay time st1
        = Returns ([], zeroReceipt,
                   Some (NewError "Sell failed:  ticketing system is down."))
            st1)
  /\ (forall tickNum old new,
        Exchange tickNum old new st1
        = Returns (Some (NewError
                     "Exchange failed:  ticketing system is down.")) st1).
Proof.
  intros Hgate Hclosed Hinit.
  destruct (Init_returns_inv _ _ _ _ _ _ _ _ _ Hgate Hinit)
    as (st0 & Honce & ->).
  destruct (initOnce_error_keeps_closed _ _ _ _ _ _ _ _ _ Honce)
    as [Hopen _].
  split; [|split].
  - intros. by apply Init_gate_shut.
  - intros. unfold Sell. cbn. by rewrite Hopen, Hclosed.
  - intros. unfold Exchange. cbn. by rewrite Hopen, Hclosed.
Qed.

Lemma failed_Init_is_final_witness :
  exists e st1,
    Init None 5 6 7 8 9 zeroState = Returns (Some e) st1
    /\ Error e = "Missing Logger"
    /\ Init (Some (mkLogger "small" 0)) 5 6 7 8 9 st1 = Returns None st1
    /\ Sell 1 [(0, 0)] [] None st1
       = Returns ([], zeroReceipt,
                  Some (NewError "Sell failed:  ticketing system is down."))
           st1.
Proof.
  do 2 eexists. split; [reflexivity|]. split; [reflexivity|].
  destruct (failed_Init_is_final None 5 6 7 8 9 zeroState _ _
              eq_refl eq_refl eq_refl) as (Hinit & Hsell & _).
  split; [apply Hinit|apply Hsell].
Defined.

(** * Properties of the sample server *)

(** ** Paths and numbers *)

Lemma Split_nonempty sep s : exists part parts, Split sep s = part :: parts.
Proof.
  destruct s as [|c rest]; cbn; [eauto|].
  destruct (Ascii.eqb c sep); [eauto|].
  destruct (Split sep rest); eauto.
Qed.

Lemma Split_no_sep sep s : occurs sep s = false -> Split sep s = [s].
Proof.
  induction s as [|c rest IH]; cbn; [done|].
  intros [Hc Hrest]%orb_false_iff. rewrite Hc, IH; done.
Qed.

Lemma Split_sep sep (a b : string) :
  occurs sep a = false ->
  Split sep (a +:+ String sep b) = a :: Split sep b.
Proof.
  induction a as [|c rest IH]; intros Ha.
  - change ("" +:+ String sep b) with (String sep b). cbn.
    by rewrite Ascii.eqb_refl.
  - cbn in Ha. apply orb_false_iff in Ha as [Hc Hrest].
    change (String c rest +:+ String sep b)
      with (String c (rest +:+ String sep b)).
    cbn. by rewrite Hc, IH.
Qed.

Lemma digits_no_sep sep s d :
  (forall d0, uint_of_char sep (Some d0) = None) ->
  NilEmpty.uint_of_string s = Some d -> occurs sep s = false.
Proof.
  intros Hsep. revert d. induction s as [|c rest IH]; intros d; cbn; [done|].
  destruct (NilEmpty.uint_of_string rest) as [d0|] eqn:Hrest; [|done].
  intros Hc. rewrite (IH d0 eq_refl), orb_false_r.
  destruct (Ascii.eqb_spec c sep) as [->|]; [|done].
  by rewrite Hsep in Hc.
Qed.

Lemma occurs_cons sep c rest :
  occurs sep (String c rest) = Ascii.eqb c sep || occurs sep rest.
Proof. reflexivity. Qed.

(** A text that [Atoi] accepts has no slash in it. *)
Lemma Atoi_no_slash s n : Atoi s = Some n -> occurs "/" s = false.
Proof.
  assert (Hslash : forall d0, uint_of_char "/" (Some d0) = None) by done.
  unfold Atoi. destruct s as [|c rest]; [done|].
  destruct (Ascii.eqb_spec c "+") as [->|Hplus].
  - destruct rest as [|c' rest']; [done|]. cbn [NilZero.uint_of_string].
    destruct (NilEmpty.uint_of_string (String c' rest')) as [d|] eqn:Hd;
      [|done].
    intros _. by rewrite occurs_cons, (digits_no_sep _ _ _ Hslash Hd).
  - unfold NilZero.int_of_string.
    destruct (Ascii.eqb_spec c "-") as [->|Hminus].
    + destruct rest as [|c' rest']; [done|]. cbn [NilZero.uint_of_string].
      destruct (NilEmpty.uint_of_string (String c' rest')) as [d|] eqn:Hd;
        [|done].
      intros _. by rewrite occurs_cons, (digits_no_sep _ _ _ Hslash Hd).
    + cbn [NilZero.uint_of_string].
      destruct (NilEmpty.uint_of_string (String c rest)) as [d|] eqn:Hd;
        [|done].
      intros _. by rewrite (digits_no_sep _ _ _ Hslash Hd).
Qed.

(** What [Itoa] prints for an [int], [Atoi] reads back. *)
Lemma Atoi_Itoa n : isInt n -> Atoi (Itoa n) = Some n.
Proof.
  intros Hn. unfold Atoi, Itoa.
  assert (Hparse : NilZero.int_of_string
                     (NilZero.string_of_int (Z.to_int n))
                   = Some (Z.to_int n)).
  { apply NilZero.isi; destruct n as [|p|p]; cbn; try done.
    - intros [= Hp]. by apply (DecimalPos.Unsigned.to_uint_nonnil p).
    - intros [= Hp]. by apply (DecimalPos.Unsigned.to_uint_nonnil p). }
  destruct (NilZero.string_of_int (Z.to_int n)) as [|c rest] eqn:Hs; [done|].
  destruct (Ascii.eqb_spec c "+") as [->|_].
  - exfalso. cbn in Hparse.
    by destruct (NilEmpty.uint_of_string rest).
  - rewrite Hparse. cbn [option_map]. rewrite DecimalZ.of_to.
    unfold isInt in Hn.
    destruct (Z.leb_spec minInt n), (Z.leb_spec n maxInt); done || lia.
Qed.

Lemma append_empty_r (s : string) : s +:+ "" = s.
Proof.
  induction s as [|c rest IH]; [done|].
  change (String c rest +:+ "") with (String c (rest +:+ "")). by rewrite IH.
Qed.

Lemma Split_segment (a tail : string) :
  occurs "/" a = false -> pathTail tail ->
  exists parts, Split "/" (a +:+ tail) = a :: parts.
Proof.
  intros Ha [->|[rest ->]].
  - rewrite append_empty_r, Split_no_sep by done. eauto.
  - rewrite Split_sep by done. eauto.
Qed.

(** The parts of a path under a two-segment route such as
    [/tickets/exchange/]. *)
Lemma Split_route (service action x : string) :
  occurs "/" service = false -> occurs "/" action = false ->
  Split "/" ("/" +:+ service +:+ "/" +:+ action +:+ "/" +:+ x)
  = "" :: service :: action :: Split "/" x.
Proof.
  intros Hs Ha.
  change ("/" +:+ service +:+ "/" +:+ action +:+ "/" +:+ x)
    with ("" +:+ String "/" (service +:+ String "/"
                               (action +:+ String "/" x))).
  by rewrite !Split_sep.
Qed.

(** ** handleExchange *)

Lemma handleExchange_parts path num n old new parts sv :
  Split "/" path = "" :: "tickets" :: "exchange" :: num :: old :: new :: parts ->
  Atoi num = Some n ->
  handleExchange path sv
  = let sv0 := serverPrintf (SLogCalled "handleExchange" path) sv in
    match Exchange n old new (engine sv) with
    | Returns (Some e) st =>
        Replied StatusBadRequest (Error e)
                (serverPrintf (SLogExchangeFailed path e) (set_engine st sv0))
    | Returns None st => Replied StatusNoContent "exchanged" (set_engine st sv0)
    | Panics msg => HandlerPanics msg
    | Exits code st => ServerExits code (set_engine st sv0)
    | Blocks => HandlerBlocks
    end.
Proof.
  intros Hparts Hnum. unfold handleExchange. rewrite Hparts.
  cbn -[Atoi Exchange].
  change (Z.to_nat 3) with 3%nat. change (Z.to_nat 4) with 4%nat.
  change (Z.to_nat 5) with 5%nat. cbn [lookup list_lookup].
  by rewrite Hnum.
Qed.

Lemma handleExchange_route tickNum old new tail sv :
  isInt tickNum ->
  occurs "/" old = false -> occurs "/" new = false -> pathTail tail ->
  let path := "/tickets/exchange/" +:+ Itoa tickNum +:+ "/" +:+ old +:+ "/"
              +:+ new +:+ tail in
  let sv0 := serverPrintf (SLogCalled "handleExchange" path) sv in
  handleExchange path sv
  = match Exchange tickNum old new (engine sv) with
    | Returns (Some e) st =>
        Replied 400 (Error e)
                (serverPrintf (SLogExchangeFailed path e) (set_engine st sv0))
    | Returns None st => Replied 204 "exchanged" (set_engine st sv0)
    | Panics msg => HandlerPanics msg
    | Exits code st => ServerExits code (set_engine st sv0)
    | Blocks => HandlerBlocks
    end.
Proof.
  intros Hint Hold Hnew Htail path sv0.
  pose proof (Atoi_Itoa _ Hint) as Hnum.
  pose proof (Atoi_no_slash _ _ Hnum) as Hslash.
  destruct (Split_segment new tail Hnew Htail) as [parts Hparts].
  apply (handleExchange_parts path (Itoa tickNum) tickNum old new parts);
    [|done].
  subst path.
  change ("/tickets/exchange/" +:+ Itoa tickNum +:+ "/" +:+ old +:+ "/"
          +:+ new +:+ tail)
    with ("/" +:+ "tickets" +:+ "/" +:+ "exchange" +:+ "/"
          +:+ (Itoa tickNum +:+ String "/" (old +:+ String "/" (new +:+ tail)))).
  rewrite Split_route by done. by rewrite !Split_sep, Hparts by done.
Qed.

(** X14: for a path [/tickets/exchange/<n>/<old>/<new>], with or without
    further segments, where <n> is an [int] as [%d] prints it and the two
    goodies have no slash in them, [handleExchange] calls
    [Exchange(n, old, new)] on the library and nothing else: it replies
    204 when that returns nil, keeping the state [Exchange] left, and 400
    with the text of the error when it returns one. *)
Theorem handleExchange_serves_Exchange tickNum old new tail sv :
  isInt tickNum ->
  occurs "/" old = false -> occurs "/" new = false -> pathTail tail ->
  let path := "/tickets/exchange/" +:+ Itoa tickNum +:+ "/" +:+ old +:+ "/"
              +:+ new +:+ tail in
  let sv0 := serverPrintf (SLogCalled "handleExchange" path) sv in
  handleExchange path sv
  = match Exchange tickNum old new (engine sv) with
    | Returns (Some e) st =>
        Replied 400 (Error e)
                (serverPrintf (SLogExchangeFailed path e) (set_engine st sv0))
    | Returns None st => Replied 204 "exchanged" (set_engine st sv0)
    | Panics msg => HandlerPanics msg
    | Exits code st => ServerExits code (set_engine st sv0)
    | Blocks => HandlerBlocks
    end.
Proof. apply handleExchange_route. Qed.

Lemma handleExchange_serves_Exchange_witness :
  exists sv',
    handleExchange "/tickets/exchange/1/water/soda/" (mkServer afterSale [])
    = Replied 204 "exchanged" sv'
    /\ engine sv' = afterExchange.
Proof.
  eexists. split.
  - apply (handleExchange_serves_Exchange 1 "water" "soda" "/"
             (mkServer afterSale [])); try reflexivity.
    + vm_compute. split; discriminate.
    + right. by exists "".
  - reflexivity.
Defined.

(** X15: when the segment after [/tickets/exchange/] is not an [int]
    ([Atoi] fails on it; the empty segment of the bare route is one such),
    [handleExchange] replies 400 "ticket number invalid" whatever follows,
    and the library is not called: its state is the one before. *)
Theorem handleExchange_invalid_number seg tail sv :
  Atoi seg = None -> occurs "/" seg = false -> pathTail tail ->
  let path := "/tickets/exchange/" +:+ seg +:+ tail in
  handleExchange path sv
  = Replied 400 "ticket number invalid"
            (mkServer (engine sv)
                      (serverLog sv ++ [SLogCalled "handleExchange" path;
                                        SLogTicketNumberInvalid path])).
Proof.
  intros Hseg Hslash Htail path.
  destruct (Split_segment seg tail Hslash Htail) as [parts Hparts].
  unfold handleExchange. subst path.
  change ("/tickets/exchange/" +:+ seg +:+ tail)
    with ("/" +:+ "tickets" +:+ "/" +:+ "exchange" +:+ "/" +:+ (seg +:+ tail)).
  rewrite Split_route, Hparts by done.
  cbn -[Atoi]. change (Z.to_nat 3) with 3%nat. cbn [lookup list_lookup].
  rewrite Hseg. unfold serverPrintf. cbn. by rewrite <- app_assoc.
Qed.

Lemma handleExchange_invalid_number_witness :
  handleExchange "/tickets/exchange/" (mkServer afterSale [])
  = Replied 400 "ticket number invalid"
            (mkServer afterSale
                      [SLogCalled "handleExchange" "/tickets/exchange/";
                       SLogTicketNumberInvalid "/tickets/exchange/"]).
Proof.
  apply (handleExchange_invalid_number "" "" (mkServer afterSale []));
    [reflexivity|reflexivity|by left].
Defined.

(** X16: a path that names a ticket number but not both goodies,
    [/tickets/exchange/<n>] or [/tickets/exchange/<n>/<old>], makes
    [handleExchange] panic on the index into the parts of the path: no
    reply is written by the handler and [Exchange] is not called. *)
Theorem handleExchange_missing_goodies num n tail sv :
  Atoi num = Some n ->
  tail = "" \/ (exists old, occurs "/" old = false /\ tail = String "/" old) ->
  handleExchange ("/tickets/exchange/" +:+ num +:+ tail) sv
  = HandlerPanics "runtime error: index out of range".
Proof.
  intros Hnum Htail.
  pose proof (Atoi_no_slash _ _ Hnum) as Hslash.
  unfold handleExchange.
  change ("/tickets/exchange/" +:+ num +:+ tail)
    with ("/" +:+ "tickets" +:+ "/" +:+ "exchange" +:+ "/" +:+ (num +:+ tail)).
  rewrite Split_route by done.
  destruct Htail as [->|[old [Hold ->]]].
  - rewrite append_empty_r, Split_no_sep by done.
    cbn -[Atoi]. change (Z.to_nat 3) with 3%nat. cbn [lookup list_lookup].
    by rewrite Hnum.
  - rewrite Split_sep, Split_no_sep by done.
    cbn -[Atoi]. change (Z.to_nat 3) with 3%nat. cbn [lookup list_lookup].
    by rewrite Hnum.
Qed.

Lemma handleExchange_missing_goodies_witness :
  handleExchange "/tickets/exchange/1/water" (mkServer afterSale [])
  = HandlerPanics "runtime error: index out of range".
Proof.
  apply (handleExchange_missing_goodies "1" 1 "/water" (mkServer afterSale []));
    [reflexivity|].
  right. by exists "water".
Defined.

(** ** stopTicketService *)

(** X17: under its route [/tickets/stop/] the return code is not
    optional.  Every path with that prefix has a fourth part, so the
    branch that defaults the code to 0 is never taken and the index never
    fails: [stopTicketService] calls [os.Exit] with the number in the
    first segment after the route when [Atoi] reads one, and otherwise,
    the bare route included, replies 400 and leaves the server running. *)
Theorem stopTicketService_under_route rest body sv :
  let path := "/tickets/stop/" +:+ rest in
  let sv0 := serverPrintf (SLogCalled "stopTicketService" path) sv in
  let requestData :=
    match body with
    | Some requestBytes => requestBytes
    | None => "<client shutdown message unreadable>"
    end in
  let sv1 :=
    match body with
    | Some _ => sv0
    | None => serverPrintf (SLogStopBodyUnreadable path) sv0
    end in
  stopTicketService path body sv
  = match Atoi (segment rest) with
    | Some retCd =>
        ServerExits retCd (serverPrintf (SLogStopping retCd requestData) sv1)
    | None =>
        Replied 400 "server return code not an integer"
                (serverPrintf (SLogStopCodeInvalid path) sv1)
    end.
Proof.
  intros path sv0 requestData sv1. subst path sv0 requestData sv1.
  unfold stopTicketService, segment.
  change ("/tickets/stop/" +:+ rest)
    with ("/" +:+ "tickets" +:+ "/" +:+ "stop" +:+ "/" +:+ rest).
  rewrite Split_route by done.
  destruct (Split_nonempty "/" rest) as (seg & parts & ->).
  assert (Hlen : (3 <? len ("" :: "tickets" :: "stop" :: seg :: parts))
                 = true).
  { apply Z.ltb_lt. unfold len. cbn [length]. lia. }
  destruct body; cbn -[Atoi len Z.ltb index]; rewrite Hlen;
    change (index ("" :: "tickets" :: "stop" :: seg :: parts) 3)
      with (Some seg);
    cbv iota; by destruct (Atoi seg).
Qed.

(** * Properties of the theatre model *)

(** ** The cafeteria's request at the server *)



(** ** Sums and counts *)

Lemma howMany_bounds {A} (p : A -> bool) l :
  0 <= howMany p l <= Z.of_nat (length l).
Proof.
  induction l as [|x l IH]; cbn [howMany length]; [lia|].
  destruct (p x); lia.
Qed.

Lemma howMany_app {A} (p : A -> bool) l k :
  howMany p (l ++ k) = howMany p l + howMany p k.
Proof.
  induction l as [|x l IH]; cbn [howMany app]; [lia|]. rewrite IH. lia.
Qed.

Lemma sumN_ext n g h :
  (forall k, 0 <= k < Z.of_nat n -> g k = h k) -> sumN n g = sumN n h.
Proof.
  induction n as [|n IH]; intros Hgh; [done|]. cbn [sumN].
  rewrite IH, (Hgh (Z.of_nat n)) by (try intros; try apply Hgh; lia). done.
Qed.

Lemma sumN_add n g h :
  sumN n (fun k => g k + h k) = sumN n g + sumN n h.
Proof. induction n as [|n IH]; cbn [sumN]; [done|]. rewrite IH. lia. Qed.

Lemma sumN_zero n : sumN n (fun _ => 0) = 0.
Proof. induction n as [|n IH]; cbn [sumN]; [done|]. rewrite IH. lia. Qed.

Lemma sumN_indicator n x v :
  sumN n (fun k => if k =? x then v else 0)
  = if (0 <=? x) && (x <? Z.of_nat n) then v else 0.
Proof.
  induction n as [|n IH]; cbn [sumN].
  - destruct (Z.leb_spec 0 x), (Z.ltb_spec x (Z.of_nat 0)); cbn; lia.
  - rewrite IH.
    destruct (Z.leb_spec 0 x), (Z.ltb_spec x (Z.of_nat n)),
      (Z.ltb_spec x (Z.of_nat (S n))), (Z.eqb_spec (Z.of_nat n) x);
      cbn; lia.
Qed.

(** ** One table *)

Lemma index_lookup {A} (l : list A) i x :
  index l i = Some x -> l !! Z.to_nat i = Some x.
Proof. unfold index. by destruct (i <? 0). Qed.

Lemma cell_store tbl a row i j :
  0 <= a < len tbl -> 0 <= i ->
  cell (store tbl a row) i j = if i =? a then index row j else cell tbl i j.
Proof.
  intros Ha Hi. unfold cell. destruct (Z.eqb_spec i a) as [->|Hne].
  - by rewrite index_store_eq.
  - by rewrite index_store_ne by lia.
Qed.

Lemma tableOK_cell movies showings tbl i j :
  tableOK movies showings tbl ->
  0 <= i <= movies -> 0 <= j <= showings ->
  exists c, cell tbl i j = Some c /\ isInt c.
Proof.
  intros [Hlen Hrows] Hi Hj. unfold cell.
  destruct (index_in_range tbl i ltac:(lia)) as [row Hrow]. rewrite Hrow.
  pose proof (index_lookup _ _ _ Hrow) as Hin.
  destruct (proj1 (Forall_lookup _ _) Hrows _ _ Hin) as [Hlrow Hints].
  destruct (index_in_range row j ltac:(lia)) as [c Hc].
  exists c. split; [exact Hc|].
  exact (proj1 (Forall_lookup _ _) Hints _ _ (index_lookup _ _ _ Hc)).
Qed.

Lemma cellsAre_entry movies showings tbl :
  tableOK movies showings tbl -> cellsAre movies showings tbl (entry tbl).
Proof.
  intros Hok. split; [done|]. intros i j Hi Hj.
  destruct (tableOK_cell _ _ _ i j Hok Hi Hj) as (c & Hc & Hint).
  unfold entry. rewrite Hc. cbn. by rewrite wrapInt_small.
Qed.

Lemma cellsAre_ext movies showings tbl f g :
  cellsAre movies showings tbl f ->
  (forall i j, 0 <= i <= movies -> 0 <= j <= showings -> f i j = g i j) ->
  cellsAre movies showings tbl g.
Proof.
  intros [Hok Hcells] Hfg. split; [done|]. intros i j Hi Hj.
  by rewrite <- Hfg, Hcells.
Qed.

Lemma cellsAre_entry_eq movies showings tbl f i j :
  cellsAre movies showings tbl f ->
  0 <= i <= movies -> 0 <= j <= showings ->
  entry tbl i j = wrapInt (f i j).
Proof. intros [_ Hcells] Hi Hj. unfold entry. by rewrite Hcells. Qed.

Lemma wrapInt_succ_nonneg n :
  0 <= n <= maxInt -> 0 <= wrapInt (n + 1) -> wrapInt (n + 1) = n + 1.
Proof.
  intros Hn Hpos. destruct (Z.eq_dec n maxInt) as [->|Hne].
  - vm_compute in Hpos. by destruct Hpos.
  - apply wrapInt_small. unfold isInt, minInt, maxInt in *. lia.
Qed.

(** A table that [makeTable] could allocate is a table of zeros. *)
Lemma makeTable_Some movies showings tbl :
  makeTable movies showings = Some tbl ->
  0 <= movies <= maxInt -> 0 <= showings <= maxInt ->
  cellsAre movies showings tbl (fun _ _ => 0).
Proof.
  intros Hmake Hm Hs. unfold makeTable in Hmake.
  destruct (make sizeofSlice ([] : list Z) (wrapInt (movies + 1)))
    as [rows|] eqn:Hrows; [|done].
  apply make_Some in Hrows as (Hpos & _ & ->).
  rewrite (wrapInt_succ_nonneg movies Hm Hpos) in Hmake. cbn in Hmake.
  destruct (make sizeofInt 0 (wrapInt (showings + 1))) as [row|] eqn:Hrow.
  - apply make_Some in Hrow as (Hpos' & _ & ->).
    rewrite (wrapInt_succ_nonneg showings Hs Hpos') in Hmake.
    set (row := replicate (Z.to_nat (showings + 1)) 0) in *.
    assert (Hmap : forall n,
               mapM (fun _ : list Z => Some row) (replicate n ([] : list Z))
               = Some (replicate n row)).
    { induction n as [|n IH]; [done|]. cbn. rewrite IH. done. }
    rewrite Hmap in Hmake. injection Hmake as <-.
    assert (Hok : tableOK movies showings
                          (replicate (Z.to_nat (movies + 1)) row)).
    { split; [rewrite len_replicate; lia|].
      apply Forall_replicate.
      split; [subst row; rewrite len_replicate; lia|].
      subst row. apply Forall_replicate. unfold isInt, minInt, maxInt. lia. }
    split; [done|]. intros i j Hi Hj.
    destruct (tableOK_cell _ _ _ i j Hok Hi Hj) as (c & Hc & _).
    rewrite Hc. f_equal. unfold cell in Hc.
    destruct (index (replicate (Z.to_nat (movies + 1)) row) i) as [r|] eqn:Hr;
      [|done].
    apply index_replicate in Hr. subst r. cbn in Hc. subst row.
    apply index_replicate in Hc. by subst c.
  - exfalso. destruct (Z.to_nat (movies + 1)) as [|n] eqn:Hn; [lia|].
    cbn in Hmake. done.
Qed.

Lemma incr_cells movies showings tbl f a b :
  cellsAre movies showings tbl f ->
  0 <= a <= movies -> 0 <= b <= showings ->
  exists tbl',
    incr tbl a b = Some tbl'
    /\ cellsAre movies showings tbl' (fun i j => f i j + hit a b i j).
Proof.
  intros [[Hlen Hrows] Hcells] Ha Hb.
  pose proof (Hcells a b Ha Hb) as Hab. unfold cell in Hab.
  destruct (index tbl a) as [row|] eqn:Hrow; [|done]. cbn in Hab.
  pose proof (index_lookup _ _ _ Hrow) as Hin.
  destruct (proj1 (Forall_lookup _ _) Hrows _ _ Hin) as [Hlrow Hints].
  exists (store tbl a (store row b (wrapInt (wrapInt (f a b) + 1)))).
  split; [unfold incr; rewrite Hrow; cbn; by rewrite Hab|].
  split.
  - split; [by rewrite len_store|]. unfold store at 1.
    apply Forall_insert; [done|]. split; [by rewrite len_store|].
    unfold store. apply Forall_insert; [done|]. apply wrapInt_isInt.
  - intros i j Hi Hj. rewrite cell_store by lia. unfold hit.
    destruct (Z.eqb_spec i a) as [->|Hne]; cbn [andb].
    + destruct (Z.eqb_spec j b) as [->|Hneb].
      * rewrite index_store_eq by lia. f_equal. apply wrap_add_l.
      * rewrite index_store_ne by lia. rewrite Z.add_0_r.
        pose proof (Hcells a j Ha Hj) as Haj. unfold cell in Haj.
        by rewrite Hrow in Haj.
    + rewrite Z.add_0_r. by apply Hcells.
Qed.

Lemma tally_cells movies showings tbl f t :
  cellsAre movies showings tbl f ->
  0 <= Movie t <= movies -> 0 <= Showing t <= showings ->
  0 <= movies -> 0 <= showings ->
  exists tbl',
    tally tbl movies showings t = Some tbl'
    /\ cellsAre movies showings tbl'
                (fun i j => f i j + hits movies showings t i j).
Proof.
  intros H0 Hm Hs HM HS. unfold tally.
  destruct (incr_cells _ _ _ _ (Movie t) (Showing t) H0) as (t1 & -> & H1);
    [lia|lia|]. cbn.
  destruct (incr_cells _ _ _ _ (Movie t) showings H1) as (t2 & -> & H2);
    [lia|lia|]. cbn.
  destruct (incr_cells _ _ _ _ movies (Showing t) H2) as (t3 & -> & H3);
    [lia|lia|]. cbn.
  destruct (incr_cells _ _ _ _ movies showings H3) as (t4 & -> & H4);
    [lia|lia|].
  exists t4. split; [done|].
  apply (cellsAre_ext _ _ _ _ _ H4). intros i j _ _. unfold hits. lia.
Qed.

Lemma hits_inTheatre movies showings t i j :
  inTheatre movies showings t ->
  hits movies showings t i j
  = if ((i =? movies) || (i =? Movie t))
       && ((j =? showings) || (j =? Showing t))
    then 1 else 0.
Proof.
  intros [Hm Hs]. unfold hits, hit.
  destruct (Z.eqb_spec i movies), (Z.eqb_spec i (Movie t)),
    (Z.eqb_spec j showings), (Z.eqb_spec j (Showing t)); cbn; lia.
Qed.

Lemma incr_outside movies showings tbl a b :
  tableOK movies showings tbl ->
  a < 0 \/ movies < a \/ b < 0 \/ showings < b ->
  incr tbl a b = None.
Proof.
  intros [Hlen Hrows] Hout. unfold incr.
  destruct (index tbl a) as [row|] eqn:Hrow; [|done]. cbn.
  pose proof (index_Some _ _ _ Hrow) as Ha.
  pose proof (index_lookup _ _ _ Hrow) as Hin.
  destruct (proj1 (Forall_lookup _ _) Hrows _ _ Hin) as [Hlrow _].
  destruct (index row b) as [c|] eqn:Hc; [|done].
  apply index_Some in Hc. lia.
Qed.

(** ** The tally of a sale *)

Lemma tallyTicks_cells movies showings ticks :
  0 <= movies -> 0 <= showings ->
  forall tr fs fo,
    Forall (inTheatre movies showings) ticks ->
    cellsAre movies showings (ticketsSold tr) fs ->
    cellsAre movies showings (soldOuts tr) fo ->
    exists ts so,
      tallyTicks movies showings ticks tr
      = Some (set_soldOuts so (set_ticketsSold ts tr))
      /\ cellsAre movies showings ts
           (fun i j => fs i j + tallied movies showings false i j ticks)
      /\ cellsAre movies showings so
           (fun i j => fo i j + tallied movies showings true i j ticks).
Proof.
  intros HM HS.
  induction ticks as [|t rest IH]; intros tr fs fo Hin Hs Ho.
  - exists (ticketsSold tr), (soldOuts tr). split; [by destruct tr|].
    split; eapply cellsAre_ext; eauto; intros; unfold tallied; cbn; lia.
  - apply Forall_cons in Hin as [Ht Hrest].
    pose proof Ht as [Hm Hsh]. cbn [tallyTicks].
    destruct (SoldOut t) eqn:Hsold.
    + destruct (tally_cells _ _ _ _ t Ho) as (so1 & -> & Ho1); [lia..|].
      cbn.
      destruct (IH (set_soldOuts so1 tr) fs _ Hrest Hs Ho1)
        as (ts & so & Hrun & Hts & Hso).
      exists ts, so. split; [rewrite Hrun; by destruct tr|].
      split; eapply cellsAre_ext; eauto; intros i j Hi Hj;
        unfold tallied, counts; cbn [howMany]; rewrite Hsold;
        rewrite ?hits_inTheatre by done; cbn [Bool.eqb andb];
        destruct (((i =? movies) || (i =? Movie t))
                  && ((j =? showings) || (j =? Showing t))); lia.
    + destruct (tally_cells _ _ _ _ t Hs) as (ts1 & -> & Hs1); [lia..|].
      cbn.
      destruct (IH (set_ticketsSold ts1 tr) _ fo Hrest Hs1 Ho)
        as (ts & so & Hrun & Hts & Hso).
      exists ts, so. split; [rewrite Hrun; by destruct tr|].
      split; eapply cellsAre_ext; eauto; intros i j Hi Hj;
        unfold tallied, counts; cbn [howMany]; rewrite Hsold;
        rewrite ?hits_inTheatre by done; cbn [Bool.eqb andb];
        destruct (((i =? movies) || (i =? Movie t))
                  && ((j =? showings) || (j =? Showing t))); lia.
Qed.

(** The tally of a sale writes the two tables and nothing else. *)
Lemma tallyTicks_frame movies showings ticks :
  forall tr tr',
    tallyTicks movies showings ticks tr = Some tr' ->
    tr' = set_soldOuts (soldOuts tr') (set_ticketsSold (ticketsSold tr') tr).
Proof.
  induction ticks as [|t rest IH]; intros tr tr' Hrun; cbn in Hrun.
  - injection Hrun as <-. by destruct tr.
  - destruct (SoldOut t).
    + destruct (tally (soldOuts tr) movies showings t) as [so|]; [|done].
      cbn in Hrun. rewrite (IH _ _ Hrun). by destruct tr.
    + destruct (tally (ticketsSold tr) movies showings t) as [ts|]; [|done].
      cbn in Hrun. rewrite (IH _ _ Hrun). by destruct tr.
Qed.

(** ** The message loop *)

Section loop.

Variable ToLower : string -> string.
Variables movies showings : Z.
Hypothesis movies_pos : 0 <= movies.
Hypothesis showings_pos : 0 <= showings.

Local Ltac same_cells :=
  split; [|split];
  [eapply cellsAre_ext; [eassumption|]; intros; unfold tallied; cbn; lia..
  |done].

Lemma trackerStep_run x tr fs fo :
  Forall (inTheatre movies showings) (saleTicks [x]) ->
  cellsAre movies showings (ticketsSold tr) fs ->
  cellsAre movies showings (soldOuts tr) fo ->
  chTrackerOpen tr = negb (chTrackerClosed tr) ->
  exists tr',
    trackerStep ToLower movies showings x tr = Continues tr'
    /\ cellsAre movies showings (ticketsSold tr')
         (fun i j => fs i j + tallied movies showings false i j (saleTicks [x]))
    /\ cellsAre movies showings (soldOuts tr')
         (fun i j => fo i j + tallied movies showings true i j (saleTicks [x]))
    /\ chTrackerOpen tr' = negb (chTrackerClosed tr').
Proof.
  intros Hin Hs Ho Hopen.
  destruct x as [from tickNum xchOld xchNew|from window ticks|from|].
  - eexists. split; [reflexivity|]. cbn. same_cells.
  - cbn in Hin. rewrite app_nil_r in Hin. cbn [saleTicks].
    rewrite app_nil_r. cbn [trackerStep].
    destruct (tallyTicks_cells movies showings ticks movies_pos showings_pos
                (trackerPrintf (TLogTicketSale (msgTicketSale from window ticks)) tr)
                fs fo Hin Hs Ho)
      as (ts & so & -> & Hts & Hso).
    eexists. split; [reflexivity|]. cbn. done.
  - destruct tr as [w open caf ex ts so closed log]. cbn in Hs, Ho, Hopen.
    subst open. cbn [trackerStep saleTicks].
    destruct (Contains (ToLower from) "cafeteria");
      [|destruct (Contains (ToLower from) "window")];
      cbn; destruct caf, closed; cbn;
      repeat (match goal with
              | |- context [?a <=? ?b] => destruct (a <=? b)
              end; cbn);
      (eexists; split; [reflexivity|]; cbn; same_cells).
  - eexists. split; [reflexivity|]. cbn. same_cells.
Qed.

Lemma mainloop_run msgs :
  forall tr fs fo,
    Forall (inTheatre movies showings) (saleTicks msgs) ->
    cellsAre movies showings (ticketsSold tr) fs ->
    cellsAre movies showings (soldOuts tr) fo ->
    chTrackerOpen tr = negb (chTrackerClosed tr) ->
    exists tr',
      mainloop ToLower movies showings msgs tr = Continues tr'
      /\ cellsAre movies showings (ticketsSold tr')
           (fun i j => fs i j
                       + tallied movies showings false i j (saleTicks msgs))
      /\ cellsAre movies showings (soldOuts tr')
           (fun i j => fo i j
                       + tallied movies showings true i j (saleTicks msgs)).
Proof.
  induction msgs as [|x rest IH]; intros tr fs fo Hin Hs Ho Hopen.
  - exists tr. split; [done|].
    split; eapply cellsAre_ext; eauto; intros; unfold tallied; cbn; lia.
  - assert (Hsplit : saleTicks (x :: rest) = saleTicks [x] ++ saleTicks rest).
    { destruct x; cbn; try done. by rewrite app_nil_r. }
    rewrite Hsplit in Hin. apply Forall_app in Hin as [Hx Hrest].
    destruct (trackerStep_run x tr fs fo Hx Hs Ho Hopen)
      as (tr1 & Hstep & Hs1 & Ho1 & Hopen1).
    destruct (IH tr1 _ _ Hrest Hs1 Ho1 Hopen1) as (tr' & Hrun & Hs' & Ho').
    exists tr'. cbn [mainloop]. rewrite Hstep. split; [done|].
    split; eapply cellsAre_ext; eauto; intros i j _ _;
      rewrite Hsplit; unfold tallied; rewrite howMany_app; lia.
Qed.

Lemma trackerStep_control x tr tr' :
  trackerStep ToLower movies showings x tr = Continues tr' ->
  minInt < winctr tr <= maxInt ->
  channelOK tr ->
  cafeteriaClosed tr' = cafeteriaClosed tr || fromCafeteria ToLower x
  /\ winctr tr' = winctr tr - (if fromWindow ToLower x then 1 else 0)
  /\ channelOK tr'.
Proof.
  intros Hstep Hw [Hopen Hclosed].
  destruct x as [from tickNum xchOld xchNew|from window ticks|from|].
  - cbn in Hstep. injection Hstep as <-. cbn.
    rewrite orb_false_r, Z.sub_0_r. done.
  - cbn [trackerStep] in Hstep.
    destruct (tallyTicks _ _ _ _) as [tr1|] eqn:Hrun; [|done].
    injection Hstep as <-. apply tallyTicks_frame in Hrun. rewrite Hrun.
    cbn. rewrite orb_false_r, Z.sub_0_r. done.
  - cbn [trackerStep fromCafeteria fromWindow] in *.
    assert (Hdec : wrapInt (winctr tr - 1) = winctr tr - 1).
    { apply wrapInt_small. unfold isInt. lia. }
    destruct tr as [w open caf ex ts so closed log]. cbn in *.
    rewrite Hdec in Hstep. clear Hdec. subst open.
    destruct (Contains (ToLower from) "cafeteria");
      [|destruct (Contains (ToLower from) "window")]; cbn in *.
    all: destruct caf, closed; cbn in Hstep, Hclosed;
      repeat match goal with
             | H : context [?a <=? ?b] |- _ => destruct (Z.leb_spec a b)
             end;
      cbn in *; try discriminate; try lia;
      injection Hstep as <-; unfold channelOK; cbn;
      repeat match goal with
             | |- context [?a <=? ?b] => destruct (Z.leb_spec a b)
             end;
      cbn; repeat split; try done; lia.
  - cbn in Hstep. injection Hstep as <-. cbn.
    rewrite orb_false_r, Z.sub_0_r. done.
Qed.

Lemma mainloop_control msgs :
  forall tr tr',
    mainloop ToLower movies showings msgs tr = Continues tr' ->
    minInt + Z.of_nat (length msgs) < winctr tr <= maxInt ->
    channelOK tr ->
    cafeteriaClosed tr'
    = cafeteriaClosed tr || existsb (fromCafeteria ToLower) msgs
    /\ winctr tr' = winctr tr - howMany (fromWindow ToLower) msgs
    /\ channelOK tr'.
Proof.
  induction msgs as [|x rest IH]; intros tr tr' Hrun Hw Hok.
  - cbn in Hrun. injection Hrun as <-. cbn.
    rewrite orb_false_r, Z.sub_0_r. done.
  - cbn [mainloop] in Hrun. cbn [length] in Hw.
    destruct (trackerStep ToLower movies showings x tr) as [tr1| |] eqn:Hstep;
      [|done..].
    destruct (trackerStep_control x tr tr1 Hstep) as (Hcaf & Hwin & Hok1);
      [lia|done|].
    destruct (IH tr1 tr' Hrun) as (Hcaf' & Hwin' & Hok');
      [rewrite Hwin; destruct (fromWindow ToLower x); lia|done|].
    cbn [existsb howMany]. rewrite Hcaf', Hwin', Hcaf, Hwin.
    split; [by rewrite orb_assoc|]. split; [|done].
    destruct (fromWindow ToLower x); lia.
Qed.

End loop.

(** What a tracker that got to its message loop has checked and built. *)
Lemma trackerStart_inv chTrackerNil chStopWinNil chDoneNil
    runningtime w movies showings tr0 :
  trackerStart chTrackerNil chStopWinNil chDoneNil runningtime w movies
               showings = Continues tr0 ->
  movies <= maxInt -> showings <= maxInt ->
  1 <= w /\ 1 <= movies /\ 1 <= showings
  /\ exists ts so,
       tr0 = mkTracker w true false 0 ts so false [TLogStarted]
       /\ cellsAre movies showings ts (fun _ _ => 0)
       /\ cellsAre movies showings so (fun _ _ => 0).
Proof.
  unfold trackerStart. intros Hstart Hm Hs.
  destruct chTrackerNil, chStopWinNil, chDoneNil; try done. cbn in Hstart.
  destruct (Z.ltb_spec runningtime 1), (Z.ltb_spec w 1),
    (Z.ltb_spec movies 1), (Z.ltb_spec showings 1); try done.
  cbn in Hstart.
  destruct (makeTable movies showings) as [tbl|] eqn:Htbl; [|done].
  injection Hstart as <-.
  pose proof (makeTable_Some _ _ _ Htbl ltac:(lia) ltac:(lia)) as Hcells.
  repeat split; try lia. by exists tbl, tbl.
Qed.

(** The tracker from its start to the end of its message loop. *)
Lemma tracker_run ToLower chTrackerNil chStopWinNil chDoneNil
    runningtime w movies showings tr0 msgs :
  trackerStart chTrackerNil chStopWinNil chDoneNil runningtime w movies
               showings = Continues tr0 ->
  isInt w -> isInt movies -> isInt showings ->
  Forall (inTheatre movies showings) (saleTicks msgs) ->
  exists tr,
    tracker ToLower chTrackerNil chStopWinNil chDoneNil runningtime w movies
            showings msgs = Continues tr
    /\ cellsAre movies showings (ticketsSold tr)
         (fun i j => tallied movies showings false i j (saleTicks msgs))
    /\ cellsAre movies showings (soldOuts tr)
         (fun i j => tallied movies showings true i j (saleTicks msgs))
    /\ (Z.of_nat (length msgs) <= maxInt ->
        chTrackerOpen tr = negb (chTrackerClosed tr)
        /\ chTrackerClosed tr
           = existsb (fromCafeteria ToLower) msgs
             && (w <=? howMany (fromWindow ToLower) msgs)).
Proof.
  intros Hstart [_ Hw] [_ Hm] [_ Hs] Hin. unfold tracker. rewrite Hstart.
  destruct (trackerStart_inv _ _ _ _ _ _ _ _ Hstart Hm Hs)
    as (Hw1 & Hm1 & Hs1 & ts & so & -> & Hts & Hso).
  set (tr0 := mkTracker w true false 0 ts so false [TLogStarted]).
  destruct (mainloop_run ToLower movies showings ltac:(lia) ltac:(lia)
              msgs tr0 _ _ Hin Hts Hso eq_refl)
    as (tr & Hrun & Hts' & Hso').
  exists tr. split; [done|].
  split; [eapply cellsAre_ext; eauto; intros; lia|].
  split; [eapply cellsAre_ext; eauto; intros; lia|].
  intros Hlen.
  destruct (mainloop_control ToLower movies showings msgs tr0 tr Hrun)
    as (Hcaf & Hwin & Hopen & Hclosed).
  - cbn. unfold minInt, maxInt in *. lia.
  - split; [done|]. cbn. by destruct (Z.leb_spec w 0); [lia|].
  - split; [done|]. rewrite Hclosed, Hcaf, Hwin. cbn. f_equal.
    destruct (Z.leb_spec (w - howMany (fromWindow ToLower) msgs) 0),
      (Z.leb_spec w (howMany (fromWindow ToLower) msgs)); lia.
Qed.

(** ** Subtotals *)

Lemma tallied_row movies showings soldOut i ticks :
  Forall (inTheatre movies showings) ticks ->
  tallied movies showings soldOut i showings ticks
  = sumTo showings (fun j => tallied movies showings soldOut i j ticks).
Proof.
  unfold tallied, sumTo. induction ticks as [|t rest IH]; intros Hin.
  - cbn. by rewrite sumN_zero.
  - apply Forall_cons in Hin as [[Hm Hs] Hrest]. cbn [howMany].
    rewrite sumN_add, <- IH by done. f_equal.
    rewrite (sumN_ext _ _
               (fun j => if j =? Showing t
                         then (if counts movies showings soldOut i showings t
                               then 1 else 0)
                         else 0)).
    + rewrite sumN_indicator.
      destruct (Z.leb_spec 0 (Showing t)),
        (Z.ltb_spec (Showing t) (Z.of_nat (Z.to_nat showings))); cbn; lia.
    + intros j Hj. unfold counts. rewrite Z.eqb_refl.
      destruct (Z.eqb_spec j showings) as [?|_]; [lia|].
      destruct (j =? Showing t); cbn; [|by rewrite andb_false_r].
      done.
Qed.

Lemma tallied_column movies showings soldOut j ticks :
  Forall (inTheatre movies showings) ticks ->
  tallied movies showings soldOut movies j ticks
  = sumTo movies (fun i => tallied movies showings soldOut i j ticks).
Proof.
  unfold tallied, sumTo. induction ticks as [|t rest IH]; intros Hin.
  - cbn. by rewrite sumN_zero.
  - apply Forall_cons in Hin as [[Hm Hs] Hrest]. cbn [howMany].
    rewrite sumN_add, <- IH by done. f_equal.
    rewrite (sumN_ext _ _
               (fun i => if i =? Movie t
                         then (if counts movies showings soldOut movies j t
                               then 1 else 0)
                         else 0)).
    + rewrite sumN_indicator.
      destruct (Z.leb_spec 0 (Movie t)),
        (Z.ltb_spec (Movie t) (Z.of_nat (Z.to_nat movies))); cbn; lia.
    + intros i Hi. unfold counts. rewrite Z.eqb_refl.
      destruct (Z.eqb_spec i movies) as [?|_]; [lia|].
      destruct (i =? Movie t); cbn; [done|].
      by rewrite andb_false_r.
Qed.

Lemma tallied_total movies showings ticks :
  tallied movies showings false movies showings ticks
  + tallied movies showings true movies showings ticks
  = Z.of_nat (length ticks).
Proof.
  unfold tallied, counts. induction ticks as [|t rest IH]; [done|].
  cbn [howMany length]. rewrite !Z.eqb_refl in *. rewrite Nat2Z.inj_succ.
  destruct (SoldOut t); cbn [Bool.eqb andb orb] in *; lia.
Qed.

Lemma tallyTicks_app movies showings l k tr :
  tallyTicks movies showings (l ++ k) tr
  = tr1 ← tallyTicks movies showings l tr; tallyTicks movies showings k tr1.
Proof.
  revert tr. induction l as [|t l IH]; intros tr; [done|].
  cbn [app tallyTicks]. destruct (SoldOut t).
  - destruct (tally (soldOuts tr) movies showings t); [|done]. cbn. apply IH.
  - destruct (tally (ticketsSold tr) movies showings t); [|done]. cbn.
    apply IH.
Qed.

Lemma subtotals movies showings soldOut tbl ticks :
  0 <= movies -> 0 <= showings ->
  cellsAre movies showings tbl
           (fun i j => tallied movies showings soldOut i j ticks) ->
  Forall (inTheatre movies showings) ticks ->
  Z.of_nat (length ticks) <= maxInt ->
  (forall i j, 0 <= i <= movies -> 0 <= j <= showings ->
     entry tbl i j = tallied movies showings soldOut i j ticks)
  /\ (forall i, 0 <= i <= movies ->
        entry tbl i showings = sumTo showings (entry tbl i))
  /\ (forall j, 0 <= j <= showings ->
        entry tbl movies j = sumTo movies (fun i => entry tbl i j)).
Proof.
  intros HM HS Hcells Hin Hlen.
  assert (Hentry : forall i j, 0 <= i <= movies -> 0 <= j <= showings ->
            entry tbl i j = tallied movies showings soldOut i j ticks).
  { intros i j Hi Hj. rewrite (cellsAre_entry_eq _ _ _ _ i j Hcells Hi Hj).
    apply wrapInt_small. unfold tallied.
    pose proof (howMany_bounds (counts movies showings soldOut i j) ticks).
    unfold isInt, minInt, maxInt in *. lia. }
  split; [exact Hentry|]. split.
  - intros i Hi. rewrite Hentry, tallied_row by (done || lia).
    apply sumN_ext. intros k Hk. rewrite Hentry by lia. done.
  - intros j Hj. rewrite Hentry, tallied_column by (done || lia).
    apply sumN_ext. intros k Hk. rewrite Hentry by lia. done.
Qed.

(** ** The tracker's books *)

(** X19: a tracker that has got to its message loop (its parameters
    accepted, its two tables allocated) gets through any sequence of
    messages whose tickets are for movies and showings of the theatre,
    and then its two tables tell, as [int]s, how many of the reported
    tickets each entry stands for: entry [(m, s)] of [ticketsSold] the
    tickets sold for showing [s] of movie [m], of [soldOuts] those
    missed; row [movies] counts all movies, column [showings] all
    showings.  Exchanges and farewells leave the tables alone. *)
Theorem tracker_tallies ToLower chTrackerNil chStopWinNil chDoneNil
    runningtime w movies showings tr0 msgs :
  trackerStart chTrackerNil chStopWinNil chDoneNil runningtime w movies
               showings = Continues tr0 ->
  isInt w -> isInt movies -> isInt showings ->
  Forall (inTheatre movies showings) (saleTicks msgs) ->
  exists tr,
    tracker ToLower chTrackerNil chStopWinNil chDoneNil runningtime w movies
            showings msgs = Continues tr
    /\ forall i j, 0 <= i <= movies -> 0 <= j <= showings ->
         cell (ticketsSold tr) i j
         = Some (wrapInt (tallied movies showings false i j (saleTicks msgs)))
         /\ cell (soldOuts tr) i j
            = Some (wrapInt (tallied movies showings true i j
                                     (saleTicks msgs))).
Proof.
  intros Hstart Hw Hm Hs Hin.
  destruct (tracker_run ToLower _ _ _ _ _ _ _ _ msgs Hstart Hw Hm Hs Hin)
    as (tr & Hrun & [_ Hts] & [_ Hso] & _).
  exists tr. split; [done|]. intros i j Hi Hj. split; auto.
Qed.

Lemma tracker_tallies_witness :
  exists tr,
    tracker lowerText false false false 1 2 2 1 evening = Continues tr
    /\ forall i j, 0 <= i <= 2 -> 0 <= j <= 1 ->
         cell (ticketsSold tr) i j
         = Some (wrapInt (tallied 2 1 false i j (saleTicks evening)))
         /\ cell (soldOuts tr) i j
            = Some (wrapInt (tallied 2 1 true i j (saleTicks evening))).
Proof.
  apply (tracker_tallies lowerText false false false 1 2 2 1 eveningStart
           evening);
    [reflexivity|vm_compute; split; discriminate..|].
  cbn. repeat (constructor; [unfold inTheatre; cbn; lia|]). constructor.
Defined.

(** X20: after such a run that reported no more tickets than an [int]
    holds, the last entry of every row of either table is the sum of the
    row's other entries, the last entry of every column the sum of the
    column's other entries, and the two grand totals add up to the number
    of tickets reported. *)
Theorem tracker_subtotals ToLower chTrackerNil chStopWinNil chDoneNil
    runningtime w movies showings tr0 msgs :
  trackerStart chTrackerNil chStopWinNil chDoneNil runningtime w movies
               showings = Continues tr0 ->
  isInt w -> isInt movies -> isInt showings ->
  Forall (inTheatre movies showings) (saleTicks msgs) ->
  Z.of_nat (length (saleTicks msgs)) <= maxInt ->
  exists tr,
    tracker ToLower chTrackerNil chStopWinNil chDoneNil runningtime w movies
            showings msgs = Continues tr
    /\ (forall tbl, tbl = ticketsSold tr \/ tbl = soldOuts tr ->
          (forall i, 0 <= i <= movies ->
             entry tbl i showings = sumTo showings (entry tbl i))
          /\ (forall j, 0 <= j <= showings ->
                entry tbl movies j = sumTo movies (fun i => entry tbl i j)))
    /\ entry (ticketsSold tr) movies showings
       + entry (soldOuts tr) movies showings
       = Z.of_nat (length (saleTicks msgs)).
Proof.
  intros Hstart Hw Hm Hs Hin Hlen.
  destruct (trackerStart_inv _ _ _ _ _ _ _ _ Hstart (proj2 Hm) (proj2 Hs))
    as (_ & Hm1 & Hs1 & _).
  destruct (tracker_run ToLower _ _ _ _ _ _ _ _ msgs Hstart Hw Hm Hs Hin)
    as (tr & Hrun & Hts & Hso & _).
  destruct (subtotals movies showings false _ _ ltac:(lia) ltac:(lia)
              Hts Hin Hlen) as (Hes & Hrs & Hcs).
  destruct (subtotals movies showings true _ _ ltac:(lia) ltac:(lia)
              Hso Hin Hlen) as (Heo & Hro & Hco).
  exists tr. split; [done|]. split.
  - intros tbl [->| ->]; split; auto.
  - rewrite Hes, Heo by lia. apply tallied_total.
Qed.

Lemma tracker_subtotals_witness :
  exists tr,
    tracker lowerText false false false 1 2 2 1 evening = Continues tr
    /\ (forall tbl, tbl = ticketsSold tr \/ tbl = soldOuts tr ->
          (forall i, 0 <= i <= 2 -> entry tbl i 1 = sumTo 1 (entry tbl i))
          /\ (forall j, 0 <= j <= 1 ->
                entry tbl 2 j = sumTo 2 (fun i => entry tbl i j)))
    /\ entry (ticketsSold tr) 2 1 + entry (soldOuts tr) 2 1
       = Z.of_nat (length (saleTicks evening)).
Proof.
  apply (tracker_subtotals lowerText false false false 1 2 2 1 eveningStart
           evening);
    [reflexivity|vm_compute; split; discriminate..| |].
  - cbn. repeat (constructor; [unfold inTheatre; cbn; lia|]). constructor.
  - vm_compute. discriminate.
Defined.

(** X21: the tracker does not check a ticket against its tables.  When a
    sale reports, after tickets of the theatre, one whose movie or
    showing lies outside the table, the tracker panics on the index. *)
Theorem tracker_panics_outside_table ToLower movies showings from window
    good t rest tr :
  0 <= movies -> 0 <= showings ->
  tableOK movies showings (ticketsSold tr) ->
  tableOK movies showings (soldOuts tr) ->
  Forall (inTheatre movies showings) good ->
  Movie t < 0 \/ movies < Movie t \/ Showing t < 0 \/ showings < Showing t ->
  trackerStep ToLower movies showings
              (msgTicketSale from window (good ++ t :: rest)) tr
  = TrackerPanics "runtime error: index out of range".
Proof.
  intros HM HS Hts Hso Hgood Hout. cbn [trackerStep].
  rewrite tallyTicks_app.
  destruct (tallyTicks_cells movies showings good HM HS
              (trackerPrintf
                 (TLogTicketSale (msgTicketSale from window (good ++ t :: rest)))
                 tr)
              _ _ Hgood (cellsAre_entry _ _ _ Hts) (cellsAre_entry _ _ _ Hso))
    as (ts & so & -> & [Hts' _] & [Hso' _]).
  cbn [mbind option_bind tallyTicks]. unfold tally.
  destruct (SoldOut t); cbn;
    by rewrite (incr_outside movies showings) by done.
Qed.

Lemma tracker_panics_outside_table_witness :
  trackerStep lowerText 2 1
              (msgTicketSale "window" 1 ([soldTicket 0 0] ++ soldTicket 3 0 :: []))
              (mkTracker 2 true false 0 [[0; 0]; [0; 0]; [0; 0]]
                         [[0; 0]; [0; 0]; [0; 0]] false [])
  = TrackerPanics "runtime error: index out of range".
Proof.
  apply (tracker_panics_outside_table lowerText 2 1 "window" 1
           [soldTicket 0 0] (soldTicket 3 0) []); try lia.
  - split; [reflexivity|].
    repeat (constructor;
            [split; [reflexivity|];
             repeat (constructor; [unfold isInt, minInt, maxInt; lia|]);
             constructor|]).
    constructor.
  - split; [reflexivity|].
    repeat (constructor;
            [split; [reflexivity|];
             repeat (constructor; [unfold isInt, minInt, maxInt; lia|]);
             constructor|]).
    constructor.
  - repeat (constructor; [unfold inTheatre; cbn; lia|]). constructor.
  - cbn. lia.
Defined.

(** X22: nor is a ticket refused whose movie number is [movies], the
    index of the row of subtotals.  Its four increments fall on two
    entries of that row: the subtotal of its showing and the grand total
    go up by two each, and no other entry changes. *)
Theorem tally_counts_twice movies showings tbl f t :
  cellsAre movies showings tbl f ->
  0 <= movies -> Movie t = movies -> 0 <= Showing t < showings ->
  exists tbl',
    tally tbl movies showings t = Some tbl'
    /\ cellsAre movies showings tbl'
         (fun i j => f i j
                     + if (i =? movies)
                          && ((j =? Showing t) || (j =? showings))
                       then 2 else 0).
Proof.
  intros Hcells HM Hmovie Hs.
  destruct (tally_cells movies showings tbl f t Hcells) as (tbl' & Hrun & H');
    [lia..|].
  exists tbl'. split; [done|].
  apply (cellsAre_ext _ _ _ _ _ H'). intros i j _ _.
  unfold hits, hit. rewrite Hmovie.
  destruct (Z.eqb_spec i movies), (Z.eqb_spec j (Showing t)),
    (Z.eqb_spec j showings); cbn; lia.
Qed.

Lemma tally_counts_twice_witness :
  exists tbl',
    tally [[0; 0]; [0; 0]; [0; 0]] 2 1 (soldTicket 2 0) = Some tbl'
    /\ cellsAre 2 1 tbl'
         (fun i j => entry [[0; 0]; [0; 0]; [0; 0]] i j
                     + if (i =? 2) && ((j =? Showing (soldTicket 2 0))
                                       || (j =? 1))
                       then 2 else 0).
Proof.
  apply (tally_counts_twice 2 1 [[0; 0]; [0; 0]; [0; 0]]
           (entry [[0; 0]; [0; 0]; [0; 0]]) (soldTicket 2 0));
    [|lia|reflexivity|cbn; lia].
  apply cellsAre_entry. split; [reflexivity|].
  repeat (constructor;
          [split; [reflexivity|];
           repeat (constructor; [unfold isInt, minInt, maxInt; lia|]);
           constructor|]).
  constructor.
Defined.

(** ** The tracker's channel *)

(** X23: a tracker that has got to its message loop never closes
    [chTracker] twice over a run of at most [maxInt] messages, and at the
    end it has closed it exactly when the cafeteria has said goodbye and
    at least as many windows as it was started with have.  A farewell
    counts for the cafeteria when the sender's name in lower case
    contains "cafeteria", and for a window when it does not but contains
    "window".  [chTrackerOpen] tells the state of the channel
    throughout. *)
Theorem tracker_closes_channel ToLower chTrackerNil chStopWinNil chDoneNil
    runningtime w movies showings tr0 msgs :
  trackerStart chTrackerNil chStopWinNil chDoneNil runningtime w movies
               showings = Continues tr0 ->
  isInt w -> isInt movies -> isInt showings ->
  Forall (inTheatre movies showings) (saleTicks msgs) ->
  Z.of_nat (length msgs) <= maxInt ->
  exists tr,
    tracker ToLower chTrackerNil chStopWinNil chDoneNil runningtime w movies
            showings msgs = Continues tr
    /\ chTrackerClosed tr
       = existsb (fromCafeteria ToLower) msgs
         && (w <=? howMany (fromWindow ToLower) msgs)
    /\ chTrackerOpen tr = negb (chTrackerClosed tr).
Proof.
  intros Hstart Hw Hm Hs Hin Hlen.
  destruct (tracker_run ToLower _ _ _ _ _ _ _ _ msgs Hstart Hw Hm Hs Hin)
    as (tr & Hrun & _ & _ & Hctl).
  destruct (Hctl Hlen) as [Hopen Hclosed].
  exists tr. done.
Qed.

Lemma tracker_closes_channel_witness :
  exists tr,
    tracker lowerText false false false 1 2 2 1 evening = Continues tr
    /\ chTrackerClosed tr
       = existsb (fromCafeteria lowerText) evening
         && (2 <=? howMany (fromWindow lowerText) evening)
    /\ chTrackerOpen tr = negb (chTrackerClosed tr).
Proof.
  apply (tracker_closes_channel lowerText false false false 1 2 2 1
           eveningStart evening);
    [reflexivity|vm_compute; split; discriminate..| |].
  - cbn. repeat (constructor; [unfold inTheatre; cbn; lia|]). constructor.
  - vm_compute. discriminate.
Defined.
